(** * TimeTable: a shallow embedding of the scheduling core

    The development follows the Python sources file by file:

    - [Utils]      scheduling/utils.py            (section builder)
    - [Ledger]     scheduling/optimization_utils.py (usage ledger, as values)
    - [Store]      scheduling/optimization_utils.py (usage ledger, as Python
                   objects in a store, for the frame property of the merge)
    - [Solver]     scheduling/solver.py           (main CP model)
    - [Electives]  scheduling/electives_solver.py (elective CP model)
    - [Teacher]    scheduler/services/teacher_assigner.py

    Part I holds the definitions, Part II the lemmas and theorems.

    Conventions.  Python [int] is [Z]; a [str] is the [string] of its
    UTF-8 bytes; a [float] is a sign, a mantissa and an exponent; a [dict]
    is a [gmap]; a [list] is a [list].  An exception is an explicit error
    result.
    The CP-SAT solver is a parameter: a function from the constraint system
    to an optional valuation, assumed sound (a returned valuation satisfies
    the constraints it was given). *)

From Stdlib Require Import ZArith List String Ascii Bool Lia DecimalString DecimalZ.
From stdpp Require Import gmap strings list fin_maps sorting.

Open Scope Z_scope.

(* ===================================================================== *)
(** * Part I: definitions                                                 *)
(* ===================================================================== *)

(** ** Common helpers *)

(** [str(i)] for a Python int. *)
Definition str_of_Z (z : Z) : string := NilZero.string_of_int (Z.to_int z).

(** [range(c)]: empty when [c <= 0]. *)
Definition range (c : Z) : list Z := map Z.of_nat (seq 0 (Z.to_nat c)).

(** [sum(...)] over a list of integers. *)
Definition sumZ (l : list Z) : Z := fold_right Z.add 0 l.

(** The value of a Boolean variable inside a linear expression. *)
Definition b2z (b : bool) : Z := if b then 1 else 0.

(** The white space of [str.isspace()], by code point: U+0009 to U+000D,
    U+001C to U+0020, U+0085, U+00A0, U+1680, U+2000 to U+200A, U+2028,
    U+2029, U+202F, U+205F and U+3000, each as its UTF-8 bytes. *)
Definition whitespace : list (list ascii) :=
  map (map ascii_of_nat)
    [ [9]; [10]; [11]; [12]; [13]; [28]; [29]; [30]; [31]; [32];
      [194; 133]; [194; 160]; [225; 154; 128];
      [226; 128; 128]; [226; 128; 129]; [226; 128; 130]; [226; 128; 131];
      [226; 128; 132]; [226; 128; 133]; [226; 128; 134]; [226; 128; 135];
      [226; 128; 136]; [226; 128; 137]; [226; 128; 138];
      [226; 128; 168]; [226; 128; 169]; [226; 128; 175];
      [226; 129; 159]; [227; 128; 128] ]%nat.

(** The bytes after a leading character of [chars], if there is one. *)
Definition drop_char (chars : list (list ascii)) (l : list ascii)
    : option (list ascii) :=
  head (omap (λ c, if bool_decide (take (length c) l = c)
                   then Some (drop (length c) l) else None) chars).

(** Dropping leading characters of [chars]; every step removes a byte, so
    [length l] steps are enough. *)
Fixpoint drop_chars (steps : nat) (chars : list (list ascii)) (l : list ascii)
    : list ascii :=
  match steps with
  | O => l
  | S steps =>
      match drop_char chars l with
      | Some rest => drop_chars steps chars rest
      | None => l
      end
  end.

Definition lstrip (l : list ascii) : list ascii :=
  drop_chars (length l) whitespace l.

(** The same from the right: in UTF-8 the bytes of a character are not the
    end of the bytes of another. *)
Definition rstrip (l : list ascii) : list ascii :=
  reverse (drop_chars (length l) (reverse <$> whitespace) (reverse l)).

(** [s.strip()] *)
Definition strip (s : string) : string :=
  string_of_list_ascii (rstrip (lstrip (list_ascii_of_string s))).

(** [zip(l, l[1:])]: the pairs [(l[i], l[i+1])]. *)
Definition consecutive {A} (l : list A) : list (A * A) := zip l (tail l).

(** The pairs [(l[i], y)] with [y] in [l[i+1:]]. *)
Fixpoint later_pairs {A} (l : list A) : list (A * A) :=
  match l with
  | [] => []
  | x :: rest => ((λ y, (x, y)) <$> rest) ++ later_pairs rest
  end.

(** ** Exceptions and results *)

(** The exceptions the code raises; a [ValueError] carries its message. *)
Inductive exn :=
  | KeyError
  | ZeroDivisionError
  | OverflowError
  | TypeError
  | ValueError (message : string).

(** What a scheduling function does: raise, return [None], or return a value. *)
Inductive outcome (A : Type) :=
  | Raise (e : exn)
  | ReturnNone
  | Return (r : A).
Arguments Raise {A} e.
Arguments ReturnNone {A}.
Arguments Return {A} r.

(** The value of a call that does not raise. *)
Definition returned {A} (r : exn + A) : option A :=
  match r with
  | inl _ => None
  | inr x => Some x
  end.

(** ** Python floats *)

(** A finite float [(-1)^neg * mant * 2^exp], with [0 <= mant <= 2^53]. *)
Record float := Float { f_neg : bool; f_mant : Z; f_exp : Z }.

(** The integer nearest to [a / b] for [0 <= a] and [0 < b], ties to even. *)
Definition round_half_even (a b : Z) : Z :=
  let q := a / b in
  let r := a mod b in
  if 2 * r <? b then q
  else if b <? 2 * r then q + 1
  else if Z.even q then q else q + 1.

(** [floor(log2(a / b))] for [0 < a] and [0 < b]. *)
Definition quotient_log2 (a b : Z) : Z :=
  let d := Z.log2 a - Z.log2 b in
  if b * 2 ^ Z.max 0 d <=? a * 2 ^ Z.max 0 (- d) then d else d - 1.

(** [a / b] on ints: the double nearest to the quotient, ties to even (53
    significant bits, no bit below 2^-1074); [ZeroDivisionError] for
    [b = 0], [OverflowError] when the result is not below 2^1024. *)
Definition true_div (a b : Z) : exn + float :=
  if b =? 0 then inl ZeroDivisionError
  else
    let neg := xorb (a <? 0) (b <? 0) in
    if a =? 0 then inr (Float neg 0 0)
    else
      let a := Z.abs a in
      let b := Z.abs b in
      let e := Z.max (-1074) (quotient_log2 a b - 52) in
      let m := round_half_even (a * 2 ^ Z.max 0 (- e)) (b * 2 ^ Z.max 0 e) in
      if (0 <=? e) && (2 ^ 1024 <=? m * 2 ^ e) then inl OverflowError
      else inr (Float neg m e).

(** [math.ceil(x)] *)
Definition math_ceil (x : float) : Z :=
  if 0 <=? f_exp x then
    if f_neg x then - (f_mant x * 2 ^ f_exp x) else f_mant x * 2 ^ f_exp x
  else if f_neg x then - (f_mant x / 2 ^ (- f_exp x))
  else - ((- f_mant x) / 2 ^ (- f_exp x)).

(** ** scheduling/utils.py *)

Module Utils.

(** [math.ceil(n / s)], with the exception of the division. *)
Definition ceil_div (n s : Z) : exn + Z :=
  match true_div n s with
  | inl e => inl e
  | inr x => inr (math_ceil x)
  end.

Definition section_name (semester_num : Z) (program_code : string) (i : Z) : string :=
  "S" +:+ str_of_Z semester_num +:+ program_code +:+ str_of_Z (i + 1).

Definition build_sections_for_semester
    (semester_num num_students section_size : Z) (program_code : string)
    : exn + list string :=
  match ceil_div num_students section_size with
  | inl e => inl e
  | inr count => inr (map (section_name semester_num program_code) (range count))
  end.

End Utils.

(** ** scheduling/optimization_utils.py: the usage ledger as a value *)

(** An allocation tuple [(rtype, room, day, slot, label)]. *)
Record allocation := Allocation {
  rtype : string;
  room : string;
  day : string;
  slot : Z;
  label : string
}.

(** [{kind: {room: {day: [slot, ...]}}}] *)
Abbreviation usage_t := (gmap string (gmap string (gmap string (list Z)))).

Module Ledger.

(** [usage[kind][room][day]], or the empty list when a level is missing. *)
Definition slots_at (u : usage_t) (kind r d : string) : list Z :=
  match u !! kind with
  | None => []
  | Some rooms =>
      match rooms !! r with
      | None => []
      | Some days => default [] (days !! d)
      end
  end.

(** [if kind not in usage: usage[kind] = {}] *)
Definition ensure_kind (kind : string) (u : usage_t) : usage_t :=
  match u !! kind with
  | Some _ => u
  | None => <[kind := ∅]> u
  end.

(** One iteration of the loop over [new_allocations].  [None] is the
    [KeyError] of [usage[rtype]] for a kind the ledger does not have. *)
Definition merge_step (u : usage_t) (a : allocation) : option usage_t :=
  match u !! rtype a with
  | None => None
  | Some rooms =>
      let rooms1 :=
        match rooms !! room a with
        | Some _ => rooms
        | None => <[room a := ∅]> rooms
        end in
      let days := default ∅ (rooms1 !! room a) in
      let days1 :=
        match days !! day a with
        | Some _ => days
        | None => <[day a := []]> days
        end in
      let slots := default [] (days1 !! day a) in
      let slots1 :=
        if bool_decide (slot a ∈ slots) then slots else slots ++ [slot a] in
      Some (<[rtype a := <[room a := <[day a := slots1]> days1]> rooms1]> u)
  end.

Fixpoint merge_loop (u : usage_t) (new_allocations : list allocation)
    : option usage_t :=
  match new_allocations with
  | [] => Some u
  | a :: rest =>
      match merge_step u a with
      | None => None
      | Some u1 => merge_loop u1 rest
      end
  end.

(** [merge_usage_data]: on values [copy.deepcopy] is the identity (the
    store-level copy is modelled in [Store]). *)
Definition merge_usage_data (existing_usage : usage_t)
    (new_allocations : list allocation) : option usage_t :=
  let usage := existing_usage in
  let usage := ensure_kind "theory" usage in
  let usage := ensure_kind "lab" usage in
  merge_loop usage new_allocations.

(** The allocation list mentions slot [s] under [(kind, room, day)]. *)
Definition allocated (new_allocations : list allocation)
    (kind r d : string) (s : Z) : Prop :=
  ∃ a, a ∈ new_allocations ∧ rtype a = kind ∧ room a = r ∧ day a = d ∧ slot a = s.

(** Every allocation kind is one the merge can index: "theory", "lab", or a
    kind already in the ledger. *)
Definition kinds_known (u : usage_t) (new_allocations : list allocation) : Prop :=
  ∀ a, a ∈ new_allocations →
    rtype a = "theory" ∨ rtype a = "lab" ∨ is_Some (u !! rtype a).

Definition example_usage : usage_t :=
  {[ "theory" := {[ "R1" := {[ "Monday" := [0; 2] ]} ]} ]}.

Definition example_allocations : list allocation :=
  [ Allocation "theory" "R1" "Monday" 2 "S1A1-CS101";
    Allocation "theory" "R1" "Tuesday" 1 "S1A1-CS101";
    Allocation "lab" "L1" "Monday" 0 "S1A1-CS101L";
    Allocation "theory" "R1" "Tuesday" 1 "S1A2-CS101" ].

(** An allocation is recorded: its kind, room and day exist and its slot is
    listed.  On such a ledger the loop iteration changes nothing. *)
Definition recorded (u : usage_t) (a : allocation) : Prop :=
  ∃ rooms days slots,
    u !! rtype a = Some rooms ∧ rooms !! room a = Some days
    ∧ days !! day a = Some slots ∧ slot a ∈ slots.

End Ledger.

(** ** scheduling/optimization_utils.py: the usage ledger as Python objects *)

Module Store.

(** A Python object of the ledger: a list of slot indices or a dict from
    strings to references.  The store holds the objects; a reference is an
    index into it. *)
Abbreviation loc := nat.

Inductive obj :=
  | OList (items : list Z)
  | ODict (entries : gmap string loc).

Abbreviation store := (list obj).

(** Computations on the store; [None] is a raised exception, and the store
    at that point is kept. *)
Definition M (A : Type) : Type := store → store * option A.

Definition ret {A} (x : A) : M A := λ h, (h, Some x).
Definition raise {A} : M A := λ h, (h, None).
Definition bind {A B} (c : M A) (k : A → M B) : M B :=
  λ h, match c h with
       | (h1, Some x) => k x h1
       | (h1, None) => (h1, None)
       end.

Notation "'do' x <- c 'in' k" := (bind c (λ x, k))
  (at level 10, x name, c at level 100, k at level 200).
Notation "'run' c 'in' k" := (bind c (λ _, k))
  (at level 10, c at level 100, k at level 200).

Definition alloc (o : obj) : M loc := λ h, (h ++ [o], Some (length h)).

Definition read (l : loc) : M obj := λ h, (h, h !! l).

Definition write (l : loc) (o : obj) : M unit :=
  λ h, if bool_decide (l < length h)%nat then (<[l := o]> h, Some tt) else (h, None).

(** [k in d] *)
Definition contains_key (d : loc) (k : string) : M bool :=
  do o <- read d in
  match o with
  | ODict entries => ret (bool_decide (is_Some (entries !! k)))
  | OList _ => ret false
  end.

(** [d[k]]: [KeyError] on a missing key, [TypeError] on a list. *)
Definition get_item (d : loc) (k : string) : M loc :=
  do o <- read d in
  match o with
  | ODict entries =>
      match entries !! k with
      | Some v => ret v
      | None => raise
      end
  | OList _ => raise
  end.

(** [d[k] = v] *)
Definition set_item (d : loc) (k : string) (v : loc) : M unit :=
  do o <- read d in
  match o with
  | ODict entries => write d (ODict (<[k := v]> entries))
  | OList _ => raise
  end.

(** [x in l] *)
Definition contains_slot (l : loc) (x : Z) : M bool :=
  do o <- read l in
  match o with
  | OList items => ret (bool_decide (x ∈ items))
  | ODict _ => ret false
  end.

(** [l.append(x)] *)
Definition append (l : loc) (x : Z) : M unit :=
  do o <- read l in
  match o with
  | OList items => write l (OList (items ++ [x]))
  | ODict _ => raise
  end.

Fixpoint for_each {A S} (body : S → A → M S) (s : S) (l : list A) : M S :=
  match l with
  | [] => ret s
  | x :: rest => do s1 <- body s x in for_each body s1 rest
  end.

(** [copy.deepcopy(x, memo)]: the copy of an object is registered in [memo]
    before its children are copied, so shared and cyclic references are
    copied once.  [fuel] bounds the recursion depth; running out of it is
    the [RecursionError]. *)
Fixpoint deepcopy (fuel : nat) (memo : gmap loc loc) (x : loc)
    : M (gmap loc loc * loc) :=
  match fuel with
  | O => raise
  | S fuel =>
      match memo !! x with
      | Some y => ret (memo, y)
      | None =>
          do o <- read x in
          match o with
          | OList items =>
              do y <- alloc (OList items) in
              ret (<[x := y]> memo, y)
          | ODict entries =>
              do y <- alloc (ODict ∅) in
              do memo1 <-
                for_each (λ memo (kv : string * loc),
                            do r <- deepcopy fuel memo kv.2 in
                            run set_item y kv.1 r.2 in
                            ret r.1)
                         (<[x := y]> memo) (map_to_list entries) in
              ret (memo1, y)
          end
      end
  end.

(** [sys.getrecursionlimit()] *)
Definition recursion_limit : nat := 1000.

(** [if kind not in usage: usage[kind] = {}] *)
Definition ensure_kind (usage : loc) (kind : string) : M unit :=
  do present <- contains_key usage kind in
  if present then ret tt
  else do d <- alloc (ODict ∅) in set_item usage kind d.

(** The body of the loop over [new_allocations]. *)
Definition merge_step (usage : loc) (a : allocation) : M unit :=
  do rooms <- get_item usage (rtype a) in
  do has_room <- contains_key rooms (room a) in
  run (if has_room then ret tt
       else do d <- alloc (ODict ∅) in set_item rooms (room a) d) in
  do rooms' <- get_item usage (rtype a) in
  do days <- get_item rooms' (room a) in
  do has_day <- contains_key days (day a) in
  run (if has_day then ret tt
       else do l <- alloc (OList []) in set_item days (day a) l) in
  do rooms'' <- get_item usage (rtype a) in
  do days' <- get_item rooms'' (room a) in
  do slots <- get_item days' (day a) in
  do present <- contains_slot slots (slot a) in
  if present then ret tt
  else
    do rooms3 <- get_item usage (rtype a) in
    do days3 <- get_item rooms3 (room a) in
    do slots3 <- get_item days3 (day a) in
    append slots3 (slot a).

Definition merge_usage_data (existing_usage : loc)
    (new_allocations : list allocation) : M loc :=
  do copied <- deepcopy recursion_limit ∅ existing_usage in
  let usage := copied.2 in
  run ensure_kind usage "theory" in
  run ensure_kind usage "lab" in
  run for_each (λ _ a, merge_step usage a) tt new_allocations in
  ret usage.

(** Reading a ledger back from the store, level by level. *)
Definition slots_at (h : store) (usage : loc) (kind r d : string) : list Z :=
  match h !! usage with
  | Some (ODict kinds) =>
      match kinds !! kind ≫= (h !!.) with
      | Some (ODict rooms) =>
          match rooms !! r ≫= (h !!.) with
          | Some (ODict days) =>
              match days !! d ≫= (h !!.) with
              | Some (OList items) => items
              | _ => []
              end
          | _ => []
          end
      | _ => []
      end
  | _ => []
  end.

(** Vocabulary of the frame property.  [h0] is the store at the call.  A
    reference is fresh when it lies beyond [h0]; an object is closed when it
    refers to fresh objects only. *)
Definition fresh (h0 : store) (l : loc) : Prop := (length h0 ≤ l)%nat.

Definition closed_obj (h0 : store) (o : obj) : Prop :=
  match o with
  | OList _ => True
  | ODict entries => map_Forall (λ _ v, fresh h0 v) entries
  end.

(** The invariant of the call: the objects of [h0] are where and what they
    were, and every fresh object is closed. *)
Record inv (h0 h : store) : Prop := {
  inv_prefix : h0 `prefix_of` h;
  inv_closed : ∀ l o, fresh h0 l → h !! l = Some o → closed_obj h0 o
}.

(** [c] keeps the store property [P] whatever its outcome, and a returned
    value satisfies [Q]. *)
Definition hoare {A} (P : store → Prop) (c : M A) (Q : A → Prop) : Prop :=
  ∀ h, P h → P (c h).1 ∧ ∀ x, (c h).2 = Some x → Q x.

Definition memo_fresh (h0 : store) (memo : gmap loc loc) : Prop :=
  map_Forall (λ _ y, fresh h0 y) memo.

(** The ledger [{"theory": {"R1": {"Monday": [0, 2]}}, "lab": {}}] at
    reference 4. *)
Definition example_store : store :=
  [ OList [0; 2];
    ODict {[ "Monday" := 0%nat ]};
    ODict {[ "R1" := 1%nat ]};
    ODict ∅;
    ODict {[ "theory" := 2%nat; "lab" := 3%nat ]} ].

End Store.

(** ** scheduler/services/teacher_assigner.py *)

Module Teacher.

(** The rows the assigner reads.  A [TimetableSlot] refers to its section,
    subject and [TimeSlot] (a day and a time window) by primary key. *)
Record subject := Subject { code : string; is_lab : bool }.

Record timetable_slot := TimetableSlot {
  id : nat;
  section_id : nat;
  subject_id : nat;
  timeslot_id : nat
}.

Record preference := Preference {
  teacher_id : nat;
  teacher_name : string;
  course_code : string;
  sections_count : nat;
  can_theory : bool;
  can_lab : bool
}.

(** What [load_data] leaves in [self]: the teacher ids, the preferences, the
    timetable slots without a teacher, and the subjects by id. *)
Record assigner := Assigner {
  teachers : list nat;
  preferences : list preference;
  timetable_slots : list timetable_slot;
  subject_map : gmap nat subject
}.

(** [priority_key] of [_sort_preferences_by_priority]. *)
Definition priority (pref : preference) : nat :=
  let is_wildcard_course := String.eqb (course_code pref) "*" in
  let is_wildcard_type := can_theory pref && can_lab pref in
  if negb is_wildcard_course && negb is_wildcard_type then 0
  else if negb is_wildcard_course && is_wildcard_type then 1
  else if is_wildcard_course && negb is_wildcard_type then 2
  else 3.

(** Tuple comparison [(priority, course_code, teacher.name) <= ...]. *)
Definition key_le (p q : preference) : bool :=
  if (priority p <? priority q)%nat then true
  else if (priority q <? priority p)%nat then false
  else match String.compare (course_code p) (course_code q) with
       | Lt => true
       | Gt => false
       | Eq => String.leb (teacher_name p) (teacher_name q)
       end.

Fixpoint insert_sorted (p : preference) (l : list preference) : list preference :=
  match l with
  | [] => [p]
  | q :: rest => if key_le p q then p :: q :: rest else q :: insert_sorted p rest
  end.

(** [sorted(prefs, key=priority_key)]: a stable sort. *)
Definition sort_preferences_by_priority (prefs : list preference) : list preference :=
  foldr insert_sorted [] prefs.

(** The tests of the loop body of [_find_matching_slots]. *)
Definition slot_matches (pref : preference) (subj : subject) : bool :=
  if negb (String.eqb (course_code pref) "*")
     && negb (String.eqb (code subj) (course_code pref)) then false
  else if is_lab subj then can_lab pref
  else can_theory pref.

(** First loop of [_find_matching_slots]; [None] is the [KeyError] of
    [self.subject_map[slot.subject_id]]. *)
Fixpoint matching_slots (subjects : gmap nat subject) (pref : preference)
    (assigned_slots : gset nat) (slots : list timetable_slot)
    : option (list timetable_slot) :=
  match slots with
  | [] => Some []
  | slot :: rest =>
      if bool_decide (id slot ∈ assigned_slots)
      then matching_slots subjects pref assigned_slots rest
      else
        match subjects !! subject_id slot with
        | None => None
        | Some subj =>
            match matching_slots subjects pref assigned_slots rest with
            | None => None
            | Some m => Some (if slot_matches pref subj then slot :: m else m)
            end
        end
  end.

(** [section_groups[key].append(slot)] on an insertion-ordered dict. *)
Fixpoint group_append (key : nat * nat) (slot : timetable_slot)
    (groups : list ((nat * nat) * list timetable_slot))
    : list ((nat * nat) * list timetable_slot) :=
  match groups with
  | [] => [(key, [slot])]
  | (k, g) :: rest =>
      if bool_decide (k = key) then (k, g ++ [slot]) :: rest
      else (k, g) :: group_append key slot rest
  end.

Definition section_groups (matching : list timetable_slot)
    : list ((nat * nat) * list timetable_slot) :=
  foldl (λ groups slot, group_append (section_id slot, subject_id slot) slot groups)
        [] matching.

Definition find_matching_slots (a : assigner) (pref : preference)
    (assigned_slots : gset nat) : option (list timetable_slot) :=
  match matching_slots (subject_map a) pref assigned_slots (timetable_slots a) with
  | None => None
  | Some matching => Some (concat ((section_groups matching).*2))
  end.

(** The bookkeeping of [assign_teachers].  An entry [(slot, t)] of
    [assignments_to_save] is the slot object after [slot.teacher_id = t]. *)
Record state := State {
  assigned_slots : gset nat;
  teacher_workload : gmap nat nat;
  teacher_timeslots : gmap nat (gset nat);
  assignments_to_save : list (timetable_slot * nat)
}.

Definition initial_state (a : assigner) : state :=
  {| assigned_slots := ∅;
     teacher_workload := list_to_map ((λ t, (t, 0%nat)) <$> teachers a);
     teacher_timeslots := list_to_map ((λ t, (t, ∅)) <$> teachers a);
     assignments_to_save := [] |}.

(** The loop [for slot in matching_slots]; [None] is a [KeyError] on a
    teacher id that is not a key of the per-teacher dicts. *)
Fixpoint assign_loop (tid sections_needed : nat) (matching : list timetable_slot)
    (assigned_count : nat) (st : state) : option state :=
  match matching with
  | [] => Some st
  | slot :: rest =>
      if (sections_needed <=? assigned_count)%nat then Some st
      else
        match teacher_timeslots st !! tid, teacher_workload st !! tid with
        | Some busy, Some load =>
            if bool_decide (timeslot_id slot ∈ busy)
            then assign_loop tid sections_needed rest assigned_count st
            else
              assign_loop tid sections_needed rest (S assigned_count)
                {| assigned_slots := {[id slot]} ∪ assigned_slots st;
                   teacher_workload := <[tid := S load]> (teacher_workload st);
                   teacher_timeslots :=
                     <[tid := {[timeslot_id slot]} ∪ busy]> (teacher_timeslots st);
                   assignments_to_save := assignments_to_save st ++ [(slot, tid)] |}
        | _, _ => None
        end
  end.

(** One iteration of [for pref in sorted_prefs]. *)
Definition process_preference (a : assigner) (st : state) (pref : preference)
    : option state :=
  match teacher_timeslots st !! teacher_id pref with
  | None => None
  | Some _ =>
      match find_matching_slots a pref (assigned_slots st) with
      | None => None
      | Some matching =>
          assign_loop (teacher_id pref) (sections_count pref) matching 0%nat st
      end
  end.

Fixpoint process_preferences (a : assigner) (st : state) (prefs : list preference)
    : option state :=
  match prefs with
  | [] => Some st
  | pref :: rest =>
      match process_preference a st pref with
      | None => None
      | Some st1 => process_preferences a st1 rest
      end
  end.

(** [assign_teachers] after [load_data], up to the bulk save: the two early
    returns assign nothing. *)
Definition assign_teachers (a : assigner) : option state :=
  match timetable_slots a with
  | [] => Some (initial_state a)
  | _ =>
      match preferences a with
      | [] => Some (initial_state a)
      | _ =>
          process_preferences a (initial_state a)
            (sort_preferences_by_priority (preferences a))
      end
  end.

(** The teacher a slot ends up with: the [teacher_id] written to it. *)
Definition teacher_of (st : state) (slot_id : nat) : option nat :=
  (λ r, snd (snd r)) <$> list_find (λ e, id (fst e) = slot_id) (assignments_to_save st).

(** Database integrity: primary keys are unique and foreign keys resolve. *)
Record well_formed (a : assigner) : Prop := {
  wf_slot_ids : NoDup (id <$> timetable_slots a);
  wf_teachers : ∀ p, p ∈ preferences a → teacher_id p ∈ teachers a;
  wf_subjects : ∀ s, s ∈ timetable_slots a → is_Some (subject_map a !! subject_id s)
}.

(** After scenario S6 of the specification: four theory slots of CS201, two
    slots of its lab; Alice takes CS201 theory, Bob takes anything. *)
Definition example_assigner : assigner :=
  {| teachers := [1; 2]%nat;
     preferences :=
       [ Preference 2 "Bob" "*" 10 true true;
         Preference 1 "Alice" "CS201" 3 true false ];
     timetable_slots :=
       [ TimetableSlot 10 1 7 100; TimetableSlot 11 1 7 101;
         TimetableSlot 12 2 7 100; TimetableSlot 13 2 7 102;
         TimetableSlot 14 1 8 200; TimetableSlot 15 2 8 201 ]%nat;
     subject_map := {[ 7%nat := Subject "CS201" false; 8%nat := Subject "CS201L" true ]} |}.

(** The invariant of the loop over the preferences. *)
Record inv (a : assigner) (st : state) : Prop := {
  inv_assigned : ∀ e, e ∈ assignments_to_save st →
    id e.1 ∈ assigned_slots st;
  inv_once : NoDup ((id ∘ fst) <$> assignments_to_save st);
  inv_busy : ∀ s t, (s, t) ∈ assignments_to_save st →
    ∃ busy, teacher_timeslots st !! t = Some busy
            ∧ timeslot_id s ∈ busy;
  inv_no_clash : ∀ i j s1 s2 t,
    assignments_to_save st !! i = Some (s1, t) →
    assignments_to_save st !! j = Some (s2, t) →
    i ≠ j → timeslot_id s1 ≠ timeslot_id s2;
  inv_keys : ∀ t, t ∈ teachers a →
    is_Some (teacher_timeslots st !! t)
    ∧ is_Some (teacher_workload st !! t)
}.

End Teacher.

(** ** scheduling/electives_solver.py *)

(** [d == "Friday" and t == 3] *)
Definition friday_slot3 (d : string) (t : Z) : bool :=
  String.eqb d "Friday" && (t =? 3).

Module Electives.

Record elective := Elective {
  code : string;
  sections_count : Z;
  can_theory : bool;
  can_lab : bool
}.

#[global] Instance elective_eq_dec : EqDecision elective.
Proof. solve_decision. Defined.

Record input := Input {
  electives_list : list elective;
  usage_data : usage_t;
  DAYS : list string;
  THEORY_TIMESLOTS : list Z;
  LAB_SLOTS : list Z;
  theory_rooms : list string;
  lab_rooms : list string;
  theory_needed : Z;
  lab_needed : Z
}.

(** A combo [(room, day, slot)]. *)
Definition combo : Type := string * string * Z.

(** [(r, d, ts) in used_theory], resp. [used_lab]. *)
Definition used (inp : input) (kind : string) (c : combo) : bool :=
  let '(r, d, ts) := c in
  bool_decide (ts ∈ Ledger.slots_at (usage_data inp) kind r d).

Definition theory_combos (inp : input) : list combo :=
  r ← theory_rooms inp;
  d ← DAYS inp;
  ts ← THEORY_TIMESLOTS inp;
  if friday_slot3 d ts then []
  else if used inp "theory" (r, d, ts) then []
  else [(r, d, ts)].

Definition lab_combos (inp : input) : list combo :=
  r ← lab_rooms inp;
  d ← DAYS inp;
  ls ← LAB_SLOTS inp;
  if used inp "lab" (r, d, ls) then [] else [(r, d, ls)].

(** The key [(e_code, idx, kind, room, day, slot)] of [assignments]. *)
Definition akey : Type := string * Z * string * string * string * Z.

Definition key_of (e_code : string) (idx : Z) (kind : string) (c : combo) : akey :=
  let '(r, d, ts) := c in (e_code, idx, kind, r, d, ts).

(** A valuation gives every variable of the final dicts [assignments],
    [choose_theory] and [day_assigned] its value. *)
Record valuation := Valuation {
  assign : akey → bool;
  choose_theory : string * Z → bool;
  day_assigned : string * Z * string → bool
}.

(** The variables of [(e_code, idx)] are created anew by a later elective
    of the same code with more than [idx] sections; the constraints added
    in the creation loop then sit on variables the dicts no longer hold. *)
Definition recreated (later : list elective) (e_code : string) (idx : Z) : Prop :=
  Exists (λ e, code e = e_code ∧ idx < sections_count e) later.

(** Constraints added while the variables of one section are created. *)
Definition creation_constraints (inp : input) (v : valuation)
    (elec : elective) (idx : Z) : Prop :=
  let choose_var := b2z (choose_theory v (code elec, idx)) in
  (can_theory elec = false → choose_var = 0)
  ∧ (can_lab elec = false → choose_var = 1)
  ∧ Forall (λ c, b2z (assign v (key_of (code elec) idx "theory" c)) ≤ choose_var)
           (theory_combos inp)
  ∧ Forall (λ c, b2z (assign v (key_of (code elec) idx "lab" c)) ≤ 1 - choose_var)
           (lab_combos inp).

Fixpoint creation_loop (inp : input) (v : valuation) (electives : list elective)
    : Prop :=
  match electives with
  | [] => True
  | elec :: later =>
      Forall (λ idx, ¬ recreated later (code elec) idx →
                     creation_constraints inp v elec idx)
             (range (sections_count elec))
      ∧ creation_loop inp v later
  end.

(** Distinct-day logic and the relaxed no-consecutive-day rule. *)
Definition day_constraints (inp : input) (v : valuation)
    (elec : elective) (idx : Z) : Prop :=
  let e_code := code elec in
  let choose_var := b2z (choose_theory v (e_code, idx)) in
  sumZ ((λ d, b2z (day_assigned v (e_code, idx, d))) <$> DAYS inp)
    = theory_needed inp * choose_var
  ∧ Forall (λ d,
      let relevant_th :=
        filter (λ c : combo, c.1.2 = d) (theory_combos inp) in
      let total :=
        sumZ ((λ c, b2z (assign v (key_of e_code idx "theory" c))) <$> relevant_th) in
      b2z (day_assigned v (e_code, idx, d)) ≤ total
      ∧ total ≤ Z.of_nat (length relevant_th) * b2z (day_assigned v (e_code, idx, d)))
      (DAYS inp)
  ∧ Forall (λ dd : string * string,
      b2z (day_assigned v (e_code, idx, dd.1)) + b2z (day_assigned v (e_code, idx, dd.2))
        ≤ 1 + (1 - choose_var))
      (consecutive (DAYS inp)).

(** Times-needed constraints. *)
Definition times_constraints (inp : input) (v : valuation)
    (elec : elective) (idx : Z) : Prop :=
  let e_code := code elec in
  let choose_var := b2z (choose_theory v (e_code, idx)) in
  sumZ ((λ c, b2z (assign v (key_of e_code idx "theory" c))) <$> theory_combos inp)
    = theory_needed inp * choose_var
  ∧ sumZ ((λ c, b2z (assign v (key_of e_code idx "lab" c))) <$> lab_combos inp)
    = lab_needed inp * (1 - choose_var).

(** The pairs [(elec, idx)] of [for elec in electives_list: for idx in
    range(elec["sections_count"])]. *)
Definition sections (inp : input) : list (elective * Z) :=
  elec ← electives_list inp;
  (λ idx, (elec, idx)) <$> range (sections_count elec).

(** No double-booking of a room and time. *)
Definition room_constraints (inp : input) (v : valuation) : Prop :=
  Forall (λ c, sumZ ((λ ei : elective * Z,
                        b2z (assign v (key_of (code ei.1) ei.2 "theory" c)))
                     <$> sections inp) ≤ 1)
         (theory_combos inp)
  ∧ Forall (λ c, sumZ ((λ ei : elective * Z,
                          b2z (assign v (key_of (code ei.1) ei.2 "lab" c)))
                       <$> sections inp) ≤ 1)
           (lab_combos inp).

(** The constraint system handed to the solver. *)
Definition model (inp : input) (v : valuation) : Prop :=
  creation_loop inp v (electives_list inp)
  ∧ Forall (λ ei : elective * Z, day_constraints inp v ei.1 ei.2) (sections inp)
  ∧ Forall (λ ei : elective * Z, times_constraints inp v ei.1 ei.2) (sections inp)
  ∧ room_constraints inp v.

#[global] Instance recreated_dec later e_code idx : Decision (recreated later e_code idx).
Proof. unfold recreated. apply _. Defined.

#[global] Instance creation_constraints_dec inp v elec idx :
  Decision (creation_constraints inp v elec idx).
Proof. unfold creation_constraints. apply _. Defined.

#[global] Instance creation_loop_dec inp v electives :
  Decision (creation_loop inp v electives).
Proof. induction electives; simpl; apply _. Defined.

#[global] Instance model_dec inp v : Decision (model inp v).
Proof.
  unfold model, day_constraints, times_constraints, room_constraints. apply _.
Defined.

(** A placed slot [(rtype, room, day, slot)]. *)
Definition placed : Type := string * string * string * Z.

Definition assigned_slots (inp : input) (v : valuation) (e_code : string) (idx : Z)
    : list placed :=
  ((λ c : combo, ("theory", c.1.1, c.1.2, c.2))
     <$> filter (λ c, assign v (key_of e_code idx "theory" c) = true) (theory_combos inp))
  ++ ((λ c : combo, ("lab", c.1.1, c.1.2, c.2))
        <$> filter (λ c, assign v (key_of e_code idx "lab" c) = true) (lab_combos inp)).

(** [schedule_map[(e_code, idx)] = assigned_slots], in loop order. *)
Definition schedule_map_of (inp : input) (v : valuation)
    : gmap (string * Z) (list placed) :=
  foldl (λ m (ei : elective * Z),
           <[(code ei.1, ei.2) := assigned_slots inp v (code ei.1) ei.2]> m)
        ∅ (sections inp).

Definition new_allocations_of (inp : input) (v : valuation) : list allocation :=
  ei ← sections inp;
  (λ p : placed,
     Allocation p.1.1.1 p.1.1.2 p.1.2 p.2
       ("Elective-" +:+ code ei.1 +:+ "-A" +:+ str_of_Z (ei.2 + 1)))
    <$> assigned_slots inp v (code ei.1) ei.2.

Section solver.
(** [solver.Solve(model)]: [None] when the status is neither FEASIBLE nor
    OPTIMAL, otherwise the values of the variables. *)
Variable solve : (valuation → bool) → option valuation.

Definition schedule_electives (inp : input)
    : outcome (gmap (string * Z) (list placed) * list allocation) :=
  match usage_data inp !! "theory", usage_data inp !! "lab" with
  | Some _, Some _ =>
      match solve (λ v, bool_decide (model inp v)) with
      | None => ReturnNone
      | Some v => Return (schedule_map_of inp v, new_allocations_of inp v)
      end
  | _, _ => Raise KeyError
  end.
End solver.

(** A solver is sound when the valuation it returns satisfies the model. *)
Definition sound (solve : (valuation → bool) → option valuation) : Prop :=
  ∀ m v, solve m = Some v → m v = true.

(** The solver that proposes one fixed valuation. *)
Definition solve_with (v : valuation) (m : valuation → bool) : option valuation :=
  if m v then Some v else None.

(** Number of slots of one kind in a list of placed slots. *)
Definition count_kind (kind : string) (slots : list placed) : Z :=
  Z.of_nat (length (filter (λ p : placed, p.1.1.1 = kind) slots)).

(** Scenario S5: one theory-only elective with one section, and a lab-only
    elective next to it. *)
Definition example_input : input :=
  {| electives_list := [ Elective "E1" 1 true false; Elective "E2" 1 false true ];
     usage_data := {[ "theory" := ∅; "lab" := ∅ ]};
     DAYS := ["Monday"; "Tuesday"; "Wednesday"; "Thursday"; "Friday"; "Saturday"];
     THEORY_TIMESLOTS := [0; 1; 2; 3; 4; 5; 6];
     LAB_SLOTS := [0; 1; 2; 3];
     theory_rooms := ["R1"];
     lab_rooms := ["L1"];
     theory_needed := 2;
     lab_needed := 1 |}.

Definition example_valuation : valuation :=
  {| assign := λ k,
       bool_decide (k ∈ [ ("E1", 0, "theory", "R1", "Monday", 0);
                          ("E1", 0, "theory", "R1", "Wednesday", 3);
                          ("E2", 0, "lab", "L1", "Friday", 3) ]);
     choose_theory := λ k, bool_decide (k = ("E1", 0));
     day_assigned := λ k,
       bool_decide (k ∈ [ ("E1", 0, "Monday"); ("E1", 0, "Wednesday") ]) |}.

End Electives.

(** ** scheduling/solver.py *)

Module Solver.

(** A row [(code, cname, is_lab, times_needed, credit_hour)] of the roadmap,
    as the readers of the roadmap build it; the credit hours are never
    read. *)
Record course := Course {
  code : string;
  cname : string;
  is_lab : bool;
  times_needed : Z
}.

#[global] Instance course_eq_dec : EqDecision course.
Proof. solve_decision. Defined.

(** One offering of a cohort course. *)
Record cohort_data := CohortData {
  cohort_section : string;
  capacity : Z;
  day_time_list : list (string * Z);
  cohort_room : option string
}.

(** The [constraints] dict.  Its values are ints (the API validates them
    and the desktop application passes no dict), so the [int(...)]
    conversions leave them as they are; an absent key has its default. *)
Record constraints_t := Constraints {
  maxHoursPerDay : Z;
  workingDaysPerWeek : Z;
  minGapMinutes : Z;
  noClassesAfterHour : option Z
}.

Definition default_constraints : constraints_t :=
  {| maxHoursPerDay := 8; workingDaysPerWeek := 6; minGapMinutes := 15;
     noClassesAfterHour := None |}.

Record input := Input {
  selected_semesters : list Z;
  semester_courses_map : gmap Z (list course);
  section_sizes : gmap Z Z;
  usage_data : usage_t;
  DAYS : list string;
  THEORY_TIMESLOTS : list Z;
  LAB_SLOTS : list Z;
  LAB_OVERLAP_MAP : gmap Z (list Z);
  theory_rooms : list string;
  lab_rooms : list string;
  special_lab_rooms : gmap string (list string);
  section_size : Z;
  program_code : string;
  cohort_map : option (gmap (Z * string) (list cohort_data));
  enable_cohort : bool;
  constraints : constraints_t
}.

(** *** 2) Normal labs and special labs *)

Definition all_special_labs (inp : input) : list string :=
  strip <$> mjoin ((map_to_list (special_lab_rooms inp)).*2).

Definition normal_labs (inp : input) : list string :=
  filter (λ lr, lr ∉ all_special_labs inp) (strip <$> lab_rooms inp).

(** [list(set(normal_labs) | all_special_labs)] *)
Definition combined_labs (inp : input) : list string :=
  remove_dups (normal_labs inp ++ all_special_labs inp).

(** *** 3) Capacity check *)

(** Number of entries in [usage_data[kind]], over all rooms and days. *)
Definition used_entries (rooms : gmap string (gmap string (list Z))) : Z :=
  sumZ ((λ days : gmap string (list Z),
           sumZ ((λ slots : list Z, Z.of_nat (length slots))
                 <$> (map_to_list days).*2))
        <$> (map_to_list rooms).*2).

Definition available_theory (inp : input)
    (theory_usage : gmap string (gmap string (list Z))) : Z :=
  let total_theory_capacity :=
    Z.of_nat (length (DAYS inp)) * Z.of_nat (length (THEORY_TIMESLOTS inp))
    * Z.of_nat (length (theory_rooms inp)) in
  total_theory_capacity - used_entries theory_usage.

Definition available_lab (inp : input)
    (lab_usage : gmap string (gmap string (list Z))) : Z :=
  let total_lab_capacity :=
    Z.of_nat (length (DAYS inp)) * Z.of_nat (length (LAB_SLOTS inp))
    * Z.of_nat (length (combined_labs inp)) in
  total_lab_capacity - used_entries lab_usage.

(** [(needed_theory, needed_lab)]: the [times_needed] of the courses of the
    selected semesters; [None] is the [KeyError] of
    [semester_courses_map[sem]]. *)
Fixpoint needed_slots (courses_map : gmap Z (list course)) (sems : list Z)
    : option (Z * Z) :=
  match sems with
  | [] => Some (0, 0)
  | sem :: rest =>
      match courses_map !! sem with
      | None => None
      | Some courses =>
          match needed_slots courses_map rest with
          | None => None
          | Some (needed_theory, needed_lab) =>
              Some (sumZ (times_needed <$> filter (λ c, is_lab c = false) courses)
                      + needed_theory,
                    sumZ (times_needed <$> filter (λ c, is_lab c = true) courses)
                      + needed_lab)
          end
      end
  end.

(** [f"Not enough free {kind} slots. Need={need}, Have={have}."] *)
Definition capacity_message (kind : string) (need have : Z) : string :=
  "Not enough free " +:+ kind +:+ " slots. Need=" +:+ str_of_Z need
    +:+ ", Have=" +:+ str_of_Z have +:+ ".".

(** The exception step 3 raises, if any. *)
Definition capacity_check (inp : input) : option exn :=
  match usage_data inp !! "theory" with
  | None => Some KeyError
  | Some theory_usage =>
      match usage_data inp !! "lab" with
      | None => Some KeyError
      | Some lab_usage =>
          match needed_slots (semester_courses_map inp) (selected_semesters inp) with
          | None => Some KeyError
          | Some (needed_theory, needed_lab) =>
              if needed_theory >? available_theory inp theory_usage
              then Some (ValueError (capacity_message "THEORY" needed_theory
                                       (available_theory inp theory_usage)))
              else if needed_lab >? available_lab inp lab_usage
              then Some (ValueError (capacity_message "LAB" needed_lab
                                       (available_lab inp lab_usage)))
              else None
          end
      end
  end.

(** *** 4) Sections of the selected semesters *)

Fixpoint build_sections (inp : input) (sems : list Z)
    : exn + gmap Z (list string) :=
  match sems with
  | [] => inr ∅
  | sem :: rest =>
      match section_sizes inp !! sem with
      | None => inl KeyError
      | Some n_students =>
          match Utils.build_sections_for_semester sem n_students
                  (section_size inp) (program_code inp) with
          | inl e => inl e
          | inr secs =>
              match build_sections inp rest with
              | inl e => inl e
              | inr m => inr (<[sem := secs]> m)
              end
          end
      end
  end.

(** [semester_sections_map2[sem]] *)
Definition sections_of (ssm : gmap Z (list string)) (sem : Z) : list string :=
  default [] (ssm !! sem).

Definition all_sections (inp : input) (ssm : gmap Z (list string)) : list string :=
  sem ← selected_semesters inp; sections_of ssm sem.

(** [semester_courses_map[sem]]; step 3 has found every selected semester. *)
Definition courses_of (inp : input) (sem : Z) : list course :=
  default [] (semester_courses_map inp !! sem).

(** *** 5) Cohort courses and their assignment variables *)

(** The cohort map the function works with: every cohort step is guarded
    by [enable_cohort and cohort_map]. *)
Definition cohorts (inp : input) : gmap (Z * string) (list cohort_data) :=
  if enable_cohort inp then default ∅ (cohort_map inp) else ∅.

(** Cohort mode: [enable_cohort and cohort_map]. *)
Definition cohort_mode (inp : input) : bool :=
  match map_to_list (cohorts inp) with
  | [] => false
  | _ :: _ => true
  end.

(** [code in is_cohort_course.get(sem, [])] *)
Definition is_cohort (inp : input) (sem : Z) (c : string) : bool :=
  bool_decide (is_Some (cohorts inp !! (sem, c))).

(** [cohort_map.get((sem, code), [])] *)
Definition csections (inp : input) (sem : Z) (c : string) : list cohort_data :=
  default [] (cohorts inp !! (sem, c)).

(** The key [(normal_sec, code, csec_name)] of [assigned_cohort_sec]. *)
Definition ckey : Type := string * string * string.

Definition cohort_keys (inp : input) (ssm : gmap Z (list string)) : list ckey :=
  sem ← selected_semesters inp;
  c ← courses_of inp sem;
  if is_cohort inp sem (code c) then
    normal_sec ← sections_of ssm sem;
    csec_data ← csections inp sem (code c);
    [(normal_sec, code c, cohort_section csec_data)]
  else [].

(** *** 6) Assignment variables *)

(** The key [(sec, code, d, slot, room)] of [assignments]. *)
Definition akey : Type := string * string * string * Z * string.

(** One pass of the loops [for sem ...: for sec ...: for course ...] that
    skip cohort courses. *)
Record iter := Iter { it_sem : Z; it_sec : string; it_course : course }.

#[global] Instance iter_eq_dec : EqDecision iter.
Proof. solve_decision. Defined.

Definition normal_iters (inp : input) (ssm : gmap Z (list string)) : list iter :=
  sem ← selected_semesters inp;
  sec ← sections_of ssm sem;
  c ← courses_of inp sem;
  if is_cohort inp sem (code c) then [] else [Iter sem sec c].

(** [usage_data[kind].get(r, {}).get(d, [])] *)
Definition used_slots (inp : input) (kind r d : string) : list Z :=
  Ledger.slots_at (usage_data inp) kind r d.

(** The theory keys of a section and course on day [d], blackout skipped. *)
Definition theory_keys_on (inp : input) (sec c d : string) : list akey :=
  t ← THEORY_TIMESLOTS inp;
  if friday_slot3 d t then []
  else r ← theory_rooms inp; [(sec, c, d, t, r)].

Definition theory_keys (inp : input) (sec c : string) : list akey :=
  d ← DAYS inp; theory_keys_on inp sec c d.

(** [valid_labs] of a lab course. *)
Definition valid_labs (inp : input) (c : string) : list string :=
  match special_lab_rooms inp !! c with
  | Some rooms => strip <$> rooms
  | None => normal_labs inp
  end.

Definition lab_keys_on (inp : input) (sec c d : string) : list akey :=
  ls ← LAB_SLOTS inp; labr ← valid_labs inp c; [(sec, c, d, ls, labr)].

Definition lab_keys (inp : input) (sec c : string) : list akey :=
  d ← DAYS inp; lab_keys_on inp sec c d.

(** The keys one pass looks up, and the part of them it creates in step 6:
    those whose slot the usage ledger does not list. *)
Definition iter_keys (inp : input) (it : iter) : list akey :=
  if is_lab (it_course it)
  then lab_keys inp (it_sec it) (code (it_course it))
  else theory_keys inp (it_sec it) (code (it_course it)).

Definition iter_keys_on (inp : input) (it : iter) (d : string) : list akey :=
  if is_lab (it_course it)
  then lab_keys_on inp (it_sec it) (code (it_course it)) d
  else theory_keys_on inp (it_sec it) (code (it_course it)) d.

Definition free (inp : input) (kind : string) (k : akey) : Prop :=
  k.1.2 ∉ used_slots inp kind k.2 k.1.1.2.

Definition kind_of (it : iter) : string :=
  if is_lab (it_course it) then "lab" else "theory".

(** The keys of the dict [assignments]. *)
Definition assignment_keys (inp : input) (ssm : gmap Z (list string)) : list akey :=
  it ← normal_iters inp ssm;
  filter (free inp (kind_of it)) (iter_keys inp it).

(** A valuation gives every variable of the dicts [assignments],
    [day_assigned], [assigned_cohort_sec] and [day_in_use] its value.  The
    remaining variables of the model ([has_*], the start and end variables,
    [min_start], [max_end]) are functions of these. *)
Record valuation := Valuation {
  assign : akey → bool;
  day_assigned : string * string * string → bool;
  cohort_assign : ckey → bool;
  day_in_use : string * string → bool
}.

Section model.
Variable inp : input.
Variable ssm : gmap Z (list string).
Variable v : valuation.

Let A := assignment_keys inp ssm.
Let CK := cohort_keys inp ssm.

(** [assignments.get(key, 0)] in a sum; a key without a variable adds
    nothing, as when the code collects the variables that are not None. *)
Definition term (keys : list akey) (k : akey) : Z :=
  if bool_decide (k ∈ keys) then b2z (assign v k) else 0.

(** *** 7) Times needed, distinct days, no consecutive days *)

Definition theory_constraints (sec : string) (c : course) : Prop :=
  let da d := b2z (day_assigned v (sec, code c, d)) in
  sumZ (term A <$> theory_keys inp sec (code c)) = times_needed c
  ∧ sumZ (da <$> DAYS inp) = times_needed c
  ∧ Forall (λ d,
      let relevant := sumZ (term A <$> theory_keys_on inp sec (code c) d) in
      da d ≤ relevant
      ∧ relevant ≤ Z.of_nat (length (THEORY_TIMESLOTS inp)) * da d)
      (DAYS inp)
  ∧ (1 < times_needed c →
     Forall (λ dd : string * string, da dd.1 + da dd.2 ≤ 1)
            (consecutive (DAYS inp))).

Definition lab_constraints (sec : string) (c : course) : Prop :=
  sumZ (term A <$> lab_keys inp sec (code c)) = times_needed c.

Definition times_needed_constraints : Prop :=
  Forall (λ it,
    if is_lab (it_course it)
    then lab_constraints (it_sec it) (it_course it)
    else theory_constraints (it_sec it) (it_course it))
    (normal_iters inp ssm).

(** *** 8) No double-booking of rooms *)

Definition theory_iters : list iter :=
  filter (λ it, is_lab (it_course it) = false) (normal_iters inp ssm).

Definition lab_iters : list iter :=
  filter (λ it, is_lab (it_course it) = true) (normal_iters inp ssm).

Definition room_constraints : Prop :=
  Forall (λ d,
    Forall (λ t,
      friday_slot3 d t = false →
      Forall (λ r,
        sumZ ((λ it, term A (it_sec it, code (it_course it), d, t, r))
              <$> theory_iters) ≤ 1)
        (theory_rooms inp))
      (THEORY_TIMESLOTS inp))
    (DAYS inp)
  ∧ Forall (λ d,
      Forall (λ ls,
        Forall (λ labr,
          sumZ ((λ it, term A (it_sec it, code (it_course it), d, ls, labr))
                <$> lab_iters) ≤ 1)
          (combined_labs inp))
        (LAB_SLOTS inp))
      (DAYS inp).

(** *** 9) No double-booking or partial overlap within a section *)

(** The non-cohort courses of all selected semesters, by kind. *)
Definition courses_of_kind (lab : bool) : list course :=
  sem ← selected_semesters inp;
  filter (λ c, is_lab c = lab ∧ is_cohort inp sem (code c) = false)
         (courses_of inp sem).

(** The variables of section [sec] in theory slot [(d, t)]; their sum is
    also the value of [has_normal_theory[(sec, d, t)]]. *)
Definition section_theory_keys (sec d : string) (t : Z) : list akey :=
  c ← courses_of_kind false; r ← theory_rooms inp; [(sec, code c, d, t, r)].

Definition section_lab_keys (sec d : string) (ls : Z) : list akey :=
  c ← courses_of_kind true; labr ← combined_labs inp; [(sec, code c, d, ls, labr)].

Definition has_theory (sec d : string) (t : Z) : Z :=
  sumZ (term A <$> section_theory_keys sec d t).

Definition has_lab (sec d : string) (ls : Z) : Z :=
  sumZ (term A <$> section_lab_keys sec d ls).

Definition section_constraints : Prop :=
  Forall (λ sec,
    Forall (λ d,
      Forall (λ t, friday_slot3 d t = false → has_theory sec d t ≤ 1)
             (THEORY_TIMESLOTS inp)
      ∧ Forall (λ ls, has_lab sec d ls ≤ 1) (LAB_SLOTS inp))
      (DAYS inp))
    (all_sections inp ssm).

(** [LAB_OVERLAP_MAP.get(ls, [])] *)
Definition overlap_list (ls : Z) : list Z :=
  default [] (LAB_OVERLAP_MAP inp !! ls).

Definition overlap_constraints : Prop :=
  Forall (λ sec,
    Forall (λ d,
      Forall (λ c,
        Forall (λ ls,
          Forall (λ labr,
            let lab_key : akey := (sec, code c, d, ls, labr) in
            lab_key ∈ A →
            Forall (λ c2,
              Forall (λ t2,
                friday_slot3 d t2 = false →
                Forall (λ rr2,
                  let theory_key : akey := (sec, code c2, d, t2, rr2) in
                  theory_key ∈ A →
                  b2z (assign v lab_key) + b2z (assign v theory_key) ≤ 1)
                  (theory_rooms inp))
                (overlap_list ls))
              (courses_of_kind false))
            (valid_labs inp (code c)))
          (LAB_SLOTS inp))
        (courses_of_kind true))
      (DAYS inp))
    (all_sections inp ssm).

(** *** 10) Cohort logic: (A) one offering per section, (B) capacity,
    (D) no two overlapping offerings for one section.

    Part (C) and the cohort shares of steps 11 and 12 post constraints for
    a section and a day of [DAYS] only.  In cohort mode no model with a
    section and a day reaches the solver: step 12 raises on its first slot,
    or leaves the model invalid when no day has a slot ([model_errors] and
    [span_defined] below).  So these constraints are never posted in a
    model that is solved, and [model] does not list them. *)

Definition cohort_term (k : ckey) : Z :=
  if bool_decide (k ∈ CK) then b2z (cohort_assign v k) else 0.

Definition cohort_courses : list (Z * course) :=
  sem ← selected_semesters inp;
  (λ c, (sem, c)) <$> filter (λ c, is_cohort inp sem (code c) = true)
                             (courses_of inp sem).

Definition cohort_choice_constraints : Prop :=
  Forall (λ sc : Z * course,
    Forall (λ normal_sec,
      sumZ ((λ csec_data,
               cohort_term (normal_sec, code sc.2, cohort_section csec_data))
            <$> csections inp sc.1 (code sc.2)) = 1)
      (sections_of ssm sc.1))
    cohort_courses.

Definition cohort_capacity_constraints : Prop :=
  Forall (λ entry : (Z * string) * list cohort_data,
    entry.1.1 ∈ selected_semesters inp →
    Forall (λ csec_data,
      sumZ ((λ normal_sec,
               cohort_term (normal_sec, entry.1.2, cohort_section csec_data) * 50)
            <$> sections_of ssm entry.1.1) ≤ capacity csec_data)
      entry.2)
    (map_to_list (cohorts inp)).

(** [slots_overlap(day1, slot1, is_lab1, day2, slot2, is_lab2, LAB_OVERLAP_MAP)] *)
Definition slots_overlap (day1 : string) (slot1 : Z) (is_lab1 : bool)
    (day2 : string) (slot2 : Z) (is_lab2 : bool) : bool :=
  if negb (String.eqb day1 day2) then false
  else if negb is_lab1 && negb is_lab2 then slot1 =? slot2
  else if is_lab1 && is_lab2 then slot1 =? slot2
  else if negb is_lab1 && is_lab2
  then bool_decide (slot1 ∈ default [] (LAB_OVERLAP_MAP inp !! slot2))
  else bool_decide (slot2 ∈ default [] (LAB_OVERLAP_MAP inp !! slot1)).

(** [course_is_lab[(sem, code)]]: in the dict the last row of a code wins. *)
Definition course_is_lab (sem : Z) (c : string) : bool :=
  default false (last (is_lab <$> filter (λ row, code row = c) (courses_of inp sem))).

Definition cohort_overlap_constraints : Prop :=
  Forall (λ sem,
    let cohort_rows :=
      filter (λ c, is_cohort inp sem (code c) = true) (courses_of inp sem) in
    Forall (λ cc : course * course,
      let code1 := code cc.1 in
      let code2 := code cc.2 in
      Forall (λ csec1,
        Forall (λ csec2,
          let overlap :=
            Exists (λ dt1 : string * Z,
              Exists (λ dt2 : string * Z,
                slots_overlap dt1.1 dt1.2 (course_is_lab sem code1)
                              dt2.1 dt2.2 (course_is_lab sem code2) = true)
                (day_time_list csec2))
              (day_time_list csec1) in
          overlap →
          Forall (λ normal_sec,
            let k1 : ckey := (normal_sec, code1, cohort_section csec1) in
            let k2 : ckey := (normal_sec, code2, cohort_section csec2) in
            k1 ∈ CK → k2 ∈ CK →
            b2z (cohort_assign v k1) + b2z (cohort_assign v k2) ≤ 1)
            (sections_of ssm sem))
          (csections inp sem code2))
        (csections inp sem code1))
      (later_pairs cohort_rows))
    (selected_semesters inp).

(** *** 11) Working days *)

Definition working_day_constraints : Prop :=
  Forall (λ sem,
    Forall (λ sec,
      Forall (λ d,
        let normal_vars :=
          c ← filter (λ c, is_cohort inp sem (code c) = false) (courses_of inp sem);
          iter_keys_on inp (Iter sem sec c) d in
        let total := sumZ (term A <$> normal_vars) in
        b2z (day_in_use v (sec, d)) ≤ total
        ∧ total ≤ 999 * b2z (day_in_use v (sec, d)))
        (DAYS inp))
      (sections_of ssm sem))
    (selected_semesters inp)
  ∧ Forall (λ sec,
      sumZ ((λ d, b2z (day_in_use v (sec, d))) <$> DAYS inp)
        ≤ workingDaysPerWeek (constraints inp))
      (all_sections inp ssm).

End model.

(** *** 12) The hard-coded slot times, in minutes *)

Definition theory_start_times (t : Z) : option Z :=
  match t with
  | 0 => Some 480 | 1 => Some 570 | 2 => Some 660 | 3 => Some 750
  | 4 => Some 840 | 5 => Some 930 | 6 => Some 1020 | _ => None
  end.

Definition theory_end_times (t : Z) : option Z :=
  match t with
  | 0 => Some 555 | 1 => Some 645 | 2 => Some 735 | 3 => Some 825
  | 4 => Some 915 | 5 => Some 1005 | 6 => Some 1095 | _ => None
  end.

Definition lab_start_times (ls : Z) : option Z :=
  match ls with
  | 0 => Some 480 | 1 => Some 660 | 2 => Some 840 | 3 => Some 1020 | _ => None
  end.

Definition lab_end_times (ls : Z) : option Z :=
  match ls with
  | 0 => Some 630 | 1 => Some 810 | 2 => Some 990 | 3 => Some 1170 | _ => None
  end.

Definition BIG_M : Z := 1440.

(** The span loop indexes the four tables with every slot of every day of
    every section: a slot outside them is a [KeyError]. *)
Definition tables_cover (inp : input) (ssm : gmap Z (list string)) : Prop :=
  Forall (λ _ : string,
    Forall (λ d,
      Forall (λ t, friday_slot3 d t = false →
                   is_Some (theory_start_times t) ∧ is_Some (theory_end_times t))
             (THEORY_TIMESLOTS inp)
      ∧ Forall (λ ls, is_Some (lab_start_times ls) ∧ is_Some (lab_end_times ls))
               (LAB_SLOTS inp))
      (DAYS inp))
    (all_sections inp ssm).

(** The minimum-gap loop reads the tables first, for the pairs of slots of
    a day, when [min_gap_minutes > 0]. *)
Definition gap_tables_cover (inp : input) (ssm : gmap Z (list string)) : Prop :=
  0 < minGapMinutes (constraints inp) →
  Forall (λ _ : string,
    Forall (λ d,
      Forall (λ tt : Z * Z,
        friday_slot3 d tt.1 = false → friday_slot3 d tt.2 = false →
        is_Some (theory_start_times tt.2) ∧ is_Some (theory_end_times tt.1))
        (later_pairs (THEORY_TIMESLOTS inp))
      ∧ Forall (λ ll : Z * Z,
          is_Some (lab_start_times ll.2) ∧ is_Some (lab_end_times ll.1))
          (later_pairs (LAB_SLOTS inp))
      ∧ Forall (λ t,
          friday_slot3 d t = false →
          Forall (λ ls,
            is_Some (lab_start_times ls) ∧ is_Some (theory_end_times t)
            ∧ is_Some (theory_start_times t) ∧ is_Some (lab_end_times ls))
            (LAB_SLOTS inp))
          (THEORY_TIMESLOTS inp))
      (DAYS inp))
    (all_sections inp ssm).

(** Step 11 reads [day_in_use[(sec, the_day)]] for every time of every
    offering of a cohort course of a section: a day outside [DAYS] is a
    [KeyError]. *)
Definition cohort_days_known (inp : input) (ssm : gmap Z (list string)) : Prop :=
  Forall (λ sc : Z * course,
    Forall (λ _ : string,
      Forall (λ csec_data,
        Forall (λ dt : string * Z,
          friday_slot3 dt.1 dt.2 = false → dt.1 ∈ DAYS inp)
          (day_time_list csec_data))
        (csections inp sc.1 (code sc.2)))
      (sections_of ssm sc.1))
    (cohort_courses inp).

(** The slots the span loop visits on day [d], the theory slots first;
    [true] marks a lab slot. *)
Definition span_slots (inp : input) (d : string) : list (bool * Z) :=
  ((λ t, (false, t)) <$> filter (λ t, friday_slot3 d t = false) (THEORY_TIMESLOTS inp))
  ++ ((λ ls, (true, ls)) <$> LAB_SLOTS inp).

(** The first slot the span loop reaches. *)
Definition first_span_slot (inp : input) (ssm : gmap Z (list string))
    : option (bool * Z) :=
  match all_sections inp ssm with
  | [] => None
  | _ :: _ => head (d ← DAYS inp; span_slots inp d)
  end.

(** The exception raised while the model is built (steps 5 to 12), if any.
    Without cohorts it is the [KeyError] of a slot outside the tables.  In
    cohort mode [has_theory] and [has_lab] are made with [NewIntVar(0, 2)],
    and [OnlyEnforceIf], which takes Boolean literals only, raises
    [TypeError] on the first slot of the span loop. *)
Definition model_errors (inp : input) (ssm : gmap Z (list string)) : option exn :=
  if cohort_mode inp then
    if bool_decide (cohort_days_known inp ssm) then
      if bool_decide (gap_tables_cover inp ssm) then
        match first_span_slot inp ssm with
        | Some (lab, slot) =>
            if bool_decide (is_Some ((if lab : bool then lab_start_times
                                      else theory_start_times) slot))
            then Some TypeError
            else Some KeyError
        | None => None
        end
      else Some KeyError
    else Some KeyError
  else if bool_decide (tables_cover inp ssm) then None
  else Some KeyError.

(** [AddMinEquality] and [AddMaxEquality] need a variable: a day of a
    section without a slot leaves the model invalid, and the solver reports
    no solution. *)
Definition span_defined (inp : input) (ssm : gmap Z (list string)) : Prop :=
  Forall (λ _ : string, Forall (λ d, span_slots inp d ≠ []) (DAYS inp))
         (all_sections inp ssm).

Section model_times.
Variable inp : input.
Variable ssm : gmap Z (list string).
Variable v : valuation.

Let A := assignment_keys inp ssm.
Let CK := cohort_keys inp ssm.

(** Classes after [noClassesAfterHour]: the loop over [assignments.items()]
    and the loop over the cohort offerings. *)
Definition cutoff_constraints : Prop :=
  match noClassesAfterHour (constraints inp) with
  | None => True
  | Some no_classes_after_hour =>
      let cutoff_end_minute := no_classes_after_hour * 60 in
      Forall (λ key : akey,
        let slot := key.1.2 in
        if bool_decide (slot ∈ THEORY_TIMESLOTS inp) then
          default 0 (theory_end_times slot) > cutoff_end_minute →
          b2z (assign v key) = 0
        else if bool_decide (slot ∈ LAB_SLOTS inp) then
          default 0 (lab_end_times slot) > cutoff_end_minute →
          b2z (assign v key) = 0
        else True)
        A
      ∧ Forall (λ sc : Z * course,
          Forall (λ csec_data,
            let violates :=
              Exists (λ dt : string * Z,
                if bool_decide (dt.2 ∈ THEORY_TIMESLOTS inp) then
                  default 0 (theory_end_times dt.2) > cutoff_end_minute
                else if bool_decide (dt.2 ∈ LAB_SLOTS inp) then
                  default 0 (lab_end_times dt.2) > cutoff_end_minute
                else False)
                (day_time_list csec_data) in
            violates →
            Forall (λ normal_sec,
              let vkey : ckey :=
                (normal_sec, code sc.2, cohort_section csec_data) in
              vkey ∈ CK → b2z (cohort_assign v vkey) = 0)
              (sections_of ssm sc.1))
            (csections inp sc.1 (code sc.2)))
          (cohort_courses inp)
  end.

(** Minimum gap between the classes of a section on one day. *)
Definition gap_constraints : Prop :=
  let min_gap_minutes := minGapMinutes (constraints inp) in
  0 < min_gap_minutes →
  Forall (λ sec,
    Forall (λ d,
      Forall (λ tt : Z * Z,
        friday_slot3 d tt.1 = false → friday_slot3 d tt.2 = false →
        default 0 (theory_start_times tt.2) - default 0 (theory_end_times tt.1)
          < min_gap_minutes →
        has_theory inp ssm v sec d tt.1 + has_theory inp ssm v sec d tt.2 ≤ 1)
        (later_pairs (THEORY_TIMESLOTS inp))
      ∧ Forall (λ ll : Z * Z,
          default 0 (lab_start_times ll.2) - default 0 (lab_end_times ll.1)
            < min_gap_minutes →
          has_lab inp ssm v sec d ll.1 + has_lab inp ssm v sec d ll.2 ≤ 1)
          (later_pairs (LAB_SLOTS inp))
      ∧ Forall (λ t,
          friday_slot3 d t = false →
          Forall (λ ls,
            (default 0 (lab_start_times ls) - default 0 (theory_end_times t)
               < min_gap_minutes →
             has_theory inp ssm v sec d t + has_lab inp ssm v sec d ls ≤ 1)
            ∧ (default 0 (theory_start_times t) - default 0 (lab_end_times ls)
                 < min_gap_minutes →
               has_theory inp ssm v sec d t + has_lab inp ssm v sec d ls ≤ 1))
            (LAB_SLOTS inp))
          (THEORY_TIMESLOTS inp))
      (DAYS inp))
    (all_sections inp ssm).

(** [start_var], [end_var] of a slot, as fixed by the two [OnlyEnforceIf]
    pairs. *)
Definition start_var (has start : Z) : Z := if has =? 0 then BIG_M else start.
Definition end_var (has stop : Z) : Z := if has =? 0 then 0 else stop.

(** Daily span: [max_end - min_start <= allowed_span_minutes].  In a model
    that is solved the minimum and the maximum run over at least one slot
    ([span_defined]). *)
Definition span_constraints : Prop :=
  let allowed_span_minutes := Z.max 0 (maxHoursPerDay (constraints inp) * 60) in
  Forall (λ sec,
    Forall (λ d,
      let theory_slots :=
        filter (λ t, friday_slot3 d t = false) (THEORY_TIMESLOTS inp) in
      let start_vars :=
        ((λ t, start_var (has_theory inp ssm v sec d t)
                 (default 0 (theory_start_times t))) <$> theory_slots)
        ++ ((λ ls, start_var (has_lab inp ssm v sec d ls)
                     (default 0 (lab_start_times ls))) <$> LAB_SLOTS inp) in
      let end_vars :=
        ((λ t, end_var (has_theory inp ssm v sec d t)
                 (default 0 (theory_end_times t))) <$> theory_slots)
        ++ ((λ ls, end_var (has_lab inp ssm v sec d ls)
                     (default 0 (lab_end_times ls))) <$> LAB_SLOTS inp) in
      let min_start := foldr Z.min BIG_M start_vars in
      let max_end := foldr Z.max 0 end_vars in
      max_end - min_start ≤ allowed_span_minutes)
      (DAYS inp))
    (all_sections inp ssm).

(** The constraint system handed to the solver. *)
Definition model : Prop :=
  times_needed_constraints inp ssm v
  ∧ room_constraints inp ssm v
  ∧ section_constraints inp ssm v
  ∧ overlap_constraints inp ssm v
  ∧ cohort_choice_constraints inp ssm v
  ∧ cohort_capacity_constraints inp ssm v
  ∧ working_day_constraints inp ssm v
  ∧ cutoff_constraints
  ∧ gap_constraints
  ∧ span_constraints
  ∧ cohort_overlap_constraints inp ssm v.

End model_times.

#[global] Instance free_dec inp kind k : Decision (free inp kind k).
Proof. unfold free. apply _. Defined.

#[global] Instance tables_cover_dec inp ssm : Decision (tables_cover inp ssm).
Proof. unfold tables_cover. apply _. Defined.

#[global] Instance gap_tables_cover_dec inp ssm : Decision (gap_tables_cover inp ssm).
Proof. unfold gap_tables_cover. apply _. Defined.

#[global] Instance cohort_days_known_dec inp ssm : Decision (cohort_days_known inp ssm).
Proof. unfold cohort_days_known. apply _. Defined.

#[global] Instance span_defined_dec inp ssm : Decision (span_defined inp ssm).
Proof. unfold span_defined. apply _. Defined.

#[global] Instance cohort_overlap_constraints_dec inp ssm v :
  Decision (cohort_overlap_constraints inp ssm v).
Proof. unfold cohort_overlap_constraints. apply _. Defined.

#[global] Instance times_needed_constraints_dec inp ssm v :
  Decision (times_needed_constraints inp ssm v).
Proof.
  unfold times_needed_constraints. apply Forall_dec. intros it.
  destruct (is_lab (it_course it));
    unfold lab_constraints, theory_constraints; apply _.
Defined.

#[global] Instance cutoff_constraints_dec inp ssm v :
  Decision (cutoff_constraints inp ssm v).
Proof.
  unfold cutoff_constraints.
  destruct (noClassesAfterHour (constraints inp)); [|apply _].
  apply and_dec.
  - apply Forall_dec. intros key. cbn zeta.
    destruct (bool_decide _); [apply _|]. destruct (bool_decide _); apply _.
  - apply Forall_dec. intros sc. apply Forall_dec. intros csec_data. cbn zeta.
    apply impl_dec; [|apply _].
    apply Exists_dec. intros dt.
    destruct (bool_decide _); [apply _|]. destruct (bool_decide _); apply _.
Defined.

#[global] Instance model_dec inp ssm v : Decision (model inp ssm v).
Proof.
  unfold model, room_constraints, section_constraints, overlap_constraints,
    cohort_choice_constraints, cohort_capacity_constraints,
    working_day_constraints, gap_constraints, span_constraints.
  apply _.
Defined.

(** *** 14) The schedule *)

(** One placement: an entry written to [schedule_map] together with the
    tuple appended to [new_allocations]. *)
Record placement := Placement {
  p_kind : string;
  p_room : string;
  p_day : string;
  p_slot : Z;
  p_sec : string;
  p_code : string;
  p_cohort : option string
}.

Definition placement_of (kind : string) (k : akey) : placement :=
  {| p_kind := kind; p_room := k.2; p_day := k.1.1.2; p_slot := k.1.2;
     p_sec := k.1.1.1.1; p_code := k.1.1.1.2; p_cohort := None |}.

(** The keys of one pass whose variable exists and has value 1. *)
Definition chosen_keys (inp : input) (ssm : gmap Z (list string)) (v : valuation)
    (it : iter) : list akey :=
  filter (λ k, k ∈ assignment_keys inp ssm ∧ assign v k = true) (iter_keys inp it).

Definition normal_placements (inp : input) (ssm : gmap Z (list string))
    (v : valuation) : list placement :=
  it ← normal_iters inp ssm;
  placement_of (kind_of it) <$> chosen_keys inp ssm v it.

(** [chosen_data]: the first offering whose variable has value 1. *)
Definition chosen_data (inp : input) (ssm : gmap Z (list string)) (v : valuation)
    (sem : Z) (c sec : string) : option cohort_data :=
  snd <$> list_find
    (λ csec_data,
       (sec, c, cohort_section csec_data) ∈ cohort_keys inp ssm
       ∧ cohort_assign v (sec, c, cohort_section csec_data) = true)
    (csections inp sem c).

Definition cohort_placements (inp : input) (ssm : gmap Z (list string))
    (v : valuation) : list placement :=
  sc ← cohort_courses inp;
  sec ← sections_of ssm sc.1;
  match chosen_data inp ssm v sc.1 (code sc.2) sec with
  | None => []
  | Some data =>
      let csec_name := cohort_section data in
      let actual_room :=
        default ("CohortRoom(" +:+ code sc.2 +:+ "-" +:+ csec_name +:+ ")")
                (cohort_room data) in
      dt ← day_time_list data;
      if friday_slot3 dt.1 dt.2 then []
      else [ {| p_kind := "cohort"; p_room := actual_room; p_day := dt.1;
                p_slot := dt.2; p_sec := sec; p_code := code sc.2;
                p_cohort := Some csec_name |} ]
  end.

Definition placements (inp : input) (ssm : gmap Z (list string)) (v : valuation)
    : list placement :=
  normal_placements inp ssm v ++ cohort_placements inp ssm v.

(** [schedule_map]: [(day, slot, room) => (section, code, cohort section)];
    a later write to the same key replaces the earlier one. *)
Abbreviation schedule_map_t :=
  (gmap (string * Z * string) (string * string * option string)).

Definition placement_key (p : placement) : string * Z * string :=
  (p_day p, p_slot p, p_room p).

Definition placement_value (p : placement) : string * string * option string :=
  (p_sec p, p_code p, p_cohort p).

Definition schedule_map_of (ps : list placement) : schedule_map_t :=
  foldl (λ m p, <[placement_key p := placement_value p]> m) ∅ ps.

Definition new_allocations_of (ps : list placement) : list allocation :=
  (λ p, Allocation (p_kind p) (p_room p) (p_day p) (p_slot p)
          (p_sec p +:+ "-" +:+ p_code p)) <$> ps.

Record schedule := Schedule {
  schedule_map : schedule_map_t;
  semester_sections_map : gmap Z (list string);
  new_allocations : list allocation
}.

Section solver.
(** [solver.Solve(model)]: [None] when the status is neither FEASIBLE nor
    OPTIMAL, otherwise the values of the variables. *)
Variable solve : (valuation → bool) → option valuation.

Definition schedule_timetable (inp : input) : outcome schedule :=
  match capacity_check inp with
  | Some e => Raise e
  | None =>
      match build_sections inp (selected_semesters inp) with
      | inl e => Raise e
      | inr ssm =>
          match model_errors inp ssm with
          | Some e => Raise e
          | None =>
              if bool_decide (span_defined inp ssm) then
                match solve (λ v, bool_decide (model inp ssm v)) with
                | None => ReturnNone
                | Some v =>
                    let ps := placements inp ssm v in
                    Return {| schedule_map := schedule_map_of ps;
                              semester_sections_map := ssm;
                              new_allocations := new_allocations_of ps |}
                end
              else ReturnNone
          end
      end
  end.
End solver.

(** A solver is sound when the valuation it returns satisfies the model. *)
Definition sound (solve : (valuation → bool) → option valuation) : Prop :=
  ∀ m v, solve m = Some v → m v = true.

(** The solver that proposes one fixed valuation. *)
Definition solve_with (v : valuation) (m : valuation → bool) : option valuation :=
  if m v then Some v else None.

(** *** Vocabulary of the properties *)

(** Two days follow one another in the day order. *)
Definition adjacent_days (days : list string) (d1 d2 : string) : Prop :=
  (d1, d2) ∈ consecutive days ∨ (d2, d1) ∈ consecutive days.

(** The placements of a course for a section: the entries of the schedule
    map that the solver placed (no cohort section) for that pair. *)
Definition placements_of (m : schedule_map_t) (sec c : string)
    : list ((string * Z * string) * (string * string * option string)) :=
  filter (λ entry, entry.2 = (sec, c, None)) (map_to_list m).

(** The course code stands for one kind of class in the section: no pass
    schedules a lab under the code of this theory course (or the reverse). *)
Definition one_kind (inp : input) (ssm : gmap Z (list string))
    (sec : string) (c : course) : Prop :=
  Forall (λ it, it_sec it = sec → code (it_course it) = code c →
                is_lab (it_course it) = is_lab c)
         (normal_iters inp ssm).

(** The room a cohort offering is written to the schedule with. *)
Definition cohort_rooms (inp : input) : list string :=
  entry ← map_to_list (cohorts inp);
  (λ data, default ("CohortRoom(" +:+ entry.1.2 +:+ "-"
                      +:+ cohort_section data +:+ ")")
                   (cohort_room data)) <$> entry.2.

(** The uniqueness conditions of the data model: days, slots and rooms are
    listed once; a room is a theory room or a lab, not both, and cohort
    offerings sit in rooms of their own; section names are pairwise
    distinct, and a semester lists a course code once. *)
Record well_formed (inp : input) (ssm : gmap Z (list string)) : Prop := {
  wf_days : NoDup (DAYS inp);
  wf_theory_slots : NoDup (THEORY_TIMESLOTS inp);
  wf_lab_slots : NoDup (LAB_SLOTS inp);
  wf_theory_rooms : NoDup (theory_rooms inp);
  wf_lab_rooms : NoDup (strip <$> lab_rooms inp);
  wf_special_labs : ∀ c rooms,
    special_lab_rooms inp !! c = Some rooms → NoDup (strip <$> rooms);
  wf_room_kinds : ∀ r, r ∈ theory_rooms inp → r ∉ combined_labs inp;
  wf_cohort_rooms : ∀ r, r ∈ cohort_rooms inp →
    (r ∉ theory_rooms inp) ∧ (r ∉ combined_labs inp);
  wf_sections : NoDup (all_sections inp ssm);
  wf_codes : ∀ sem, sem ∈ selected_semesters inp →
    NoDup (code <$> courses_of inp sem)
}.

#[global] Instance one_kind_dec inp ssm sec c : Decision (one_kind inp ssm sec c).
Proof. unfold one_kind. apply _. Defined.

(** *** Example inputs *)

Definition week : list string :=
  ["Monday"; "Tuesday"; "Wednesday"; "Thursday"; "Friday"; "Saturday"].

(** The default catalog of the application, one theory room and one lab,
    one semester of 50 students with a theory course twice a week and a lab
    once a week. *)
Definition base_input : input :=
  {| selected_semesters := [1];
     semester_courses_map :=
       {[ 1 := [ Course "CS101" "Programming" false 2;
                 Course "CS101L" "Programming Lab" true 1 ] ]};
     section_sizes := {[ 1 := 50 ]};
     usage_data := {[ "theory" := ∅; "lab" := ∅ ]};
     DAYS := week;
     THEORY_TIMESLOTS := [0; 1; 2; 3; 4; 5; 6];
     LAB_SLOTS := [0; 1; 2; 3];
     LAB_OVERLAP_MAP := {[ 0 := [0; 1]; 1 := [2; 3]; 2 := [4; 5]; 3 := [6] ]};
     theory_rooms := ["R1"];
     lab_rooms := ["LAB1"];
     special_lab_rooms := ∅;
     section_size := 50;
     program_code := "A";
     cohort_map := None;
     enable_cohort := false;
     constraints := default_constraints |}.

Definition base_valuation : valuation :=
  {| assign := λ k,
       bool_decide (k ∈ [ ("S1A1", "CS101", "Monday", 0, "R1");
                          ("S1A1", "CS101", "Wednesday", 3, "R1");
                          ("S1A1", "CS101L", "Friday", 3, "LAB1") ]);
     day_assigned := λ k,
       bool_decide (k ∈ [ ("S1A1", "CS101", "Monday");
                          ("S1A1", "CS101", "Wednesday") ]);
     cohort_assign := λ _, false;
     day_in_use := λ k,
       bool_decide (k ∈ [ ("S1A1", "Monday"); ("S1A1", "Wednesday");
                          ("S1A1", "Friday") ]) |}.

Definition base_sections : gmap Z (list string) := {[ 1 := ["S1A1"] ]}.

(** The schedule the function returns for [base_input] when the solver
    answers [base_valuation]. *)
Definition base_schedule : schedule :=
  let ps := placements base_input base_sections base_valuation in
  {| schedule_map := schedule_map_of ps;
     semester_sections_map := base_sections;
     new_allocations := new_allocations_of ps |}.

(** More demand than supply: a theory course that needs 50 slots a week. *)
Definition crowded_input : input :=
  {| selected_semesters := [1];
     semester_courses_map := {[ 1 := [ Course "CS101" "Programming" false 50 ] ]};
     section_sizes := {[ 1 := 50 ]};
     usage_data := {[ "theory" := {[ "R1" := {[ "Monday" := [0; 1] ]} ]}; "lab" := ∅ ]};
     DAYS := week;
     THEORY_TIMESLOTS := [0; 1; 2; 3; 4; 5; 6];
     LAB_SLOTS := [0; 1; 2; 3];
     LAB_OVERLAP_MAP := {[ 0 := [0; 1]; 1 := [2; 3]; 2 := [4; 5]; 3 := [6] ]};
     theory_rooms := ["R1"];
     lab_rooms := ["LAB1"];
     special_lab_rooms := ∅;
     section_size := 50;
     program_code := "A";
     cohort_map := None;
     enable_cohort := false;
     constraints := default_constraints |}.

(** One lab course, no classes after 10:00. *)
Definition cutoff_input : input :=
  {| selected_semesters := [1];
     semester_courses_map := {[ 1 := [ Course "CS101L" "Programming Lab" true 1 ] ]};
     section_sizes := {[ 1 := 50 ]};
     usage_data := {[ "theory" := ∅; "lab" := ∅ ]};
     DAYS := week;
     THEORY_TIMESLOTS := [0; 1; 2; 3; 4; 5; 6];
     LAB_SLOTS := [0; 1; 2; 3];
     LAB_OVERLAP_MAP := {[ 0 := [0; 1]; 1 := [2; 3]; 2 := [4; 5]; 3 := [6] ]};
     theory_rooms := ["R1"];
     lab_rooms := ["LAB1"];
     special_lab_rooms := ∅;
     section_size := 50;
     program_code := "A";
     cohort_map := None;
     enable_cohort := false;
     constraints :=
       {| maxHoursPerDay := 8; workingDaysPerWeek := 6; minGapMinutes := 15;
          noClassesAfterHour := Some 10 |} |}.

Definition cutoff_valuation : valuation :=
  {| assign := λ k, bool_decide (k = ("S1A1", "CS101L", "Monday", 0, "LAB1"));
     day_assigned := λ _, false;
     cohort_assign := λ _, false;
     day_in_use := λ k, bool_decide (k = ("S1A1", "Monday")) |}.

End Solver.

(** ** Vocabulary of the capacity check *)

Module Capacity.

(** The roadmap rows of the selected semesters. *)
Definition selected_rows (inp : Solver.input) : list Solver.course :=
  sem ← Solver.selected_semesters inp; Solver.courses_of inp sem.

(** The slots a week the selected courses of one kind need. *)
Definition needed (inp : Solver.input) (lab : bool) : Z :=
  sumZ (Solver.times_needed
        <$> filter (λ c, Solver.is_lab c = lab) (selected_rows inp)).

(** The entries [(room, day, slot)] the ledger lists under a kind. *)
Definition entries (usage : usage_t) (kind : string) : list (string * string * Z) :=
  rd ← map_to_list (default ∅ (usage !! kind));
  ds ← map_to_list rd.2;
  (λ t, (rd.1, ds.1, t)) <$> ds.2.

(** The lab rooms: the names of [lab_rooms] and of the special labs,
    stripped, each counted once. *)
Definition lab_room_names (inp : Solver.input) : gset string :=
  list_to_set (strip <$> Solver.lab_rooms inp)
  ∪ list_to_set (Solver.all_special_labs inp).

(** Capacity minus used entries. *)
Definition free_theory (inp : Solver.input) : Z :=
  Z.of_nat (length (Solver.DAYS inp)) * Z.of_nat (length (Solver.THEORY_TIMESLOTS inp))
    * Z.of_nat (length (Solver.theory_rooms inp))
  - Z.of_nat (length (entries (Solver.usage_data inp) "theory")).

Definition free_lab (inp : Solver.input) : Z :=
  Z.of_nat (length (Solver.DAYS inp)) * Z.of_nat (length (Solver.LAB_SLOTS inp))
    * Z.of_nat (size (lab_room_names inp))
  - Z.of_nat (length (entries (Solver.usage_data inp) "lab")).

(** One lab, listed under two spellings (the first starts with a no-break
    space, U+00A0), and a lab course that needs 25 slots a week. *)
Definition crowded_lab_input : Solver.input :=
  {| Solver.selected_semesters := [1];
     Solver.semester_courses_map :=
       {[ 1 := [ Solver.Course "CS101L" "Programming Lab" true 25 ] ]};
     Solver.section_sizes := {[ 1 := 50 ]};
     Solver.usage_data := {[ "theory" := ∅; "lab" := ∅ ]};
     Solver.DAYS := Solver.week;
     Solver.THEORY_TIMESLOTS := [0; 1; 2; 3; 4; 5; 6];
     Solver.LAB_SLOTS := [0; 1; 2; 3];
     Solver.LAB_OVERLAP_MAP :=
       {[ 0 := [0; 1]; 1 := [2; 3]; 2 := [4; 5]; 3 := [6] ]};
     Solver.theory_rooms := ["R1"];
     Solver.lab_rooms :=
       [ String (ascii_of_nat 194) (String (ascii_of_nat 160) "LAB1"); "LAB1" ];
     Solver.special_lab_rooms := ∅;
     Solver.section_size := 50;
     Solver.program_code := "A";
     Solver.cohort_map := None;
     Solver.enable_cohort := false;
     Solver.constraints := Solver.default_constraints |}.

End Capacity.

(** ** Vocabulary for the timetable of a section *)

Module Timetable.

(** An entry of [schedule_map]. *)
Definition entry : Type :=
  (string * Z * string) * (string * string * option string).

(** Section [sec] has a class placed by the solver on day [d]. *)
Definition busy_day (m : Solver.schedule_map_t) (sec d : string) : Prop :=
  Exists (λ e : entry, e.1.1.1 = d ∧ e.2.1.1 = sec ∧ e.2.2 = None) (map_to_list m).

#[global] Instance busy_day_dec m sec d : Decision (busy_day m sec d).
Proof. unfold busy_day. apply _. Defined.

(** First and last minute of the slot of a schedule key [(day, slot, room)],
    read off the table of the kind of its room. *)
Definition start_minute (inp : Solver.input) (k : string * Z * string) : Z :=
  default 0 (if bool_decide (k.2 ∈ Solver.theory_rooms inp)
             then Solver.theory_start_times k.1.2
             else Solver.lab_start_times k.1.2).

Definition end_minute (inp : Solver.input) (k : string * Z * string) : Z :=
  default 0 (if bool_decide (k.2 ∈ Solver.theory_rooms inp)
             then Solver.theory_end_times k.1.2
             else Solver.lab_end_times k.1.2).

(** Two theory courses and a lab for one section, no classes after 13:00:
    both theory classes on Monday, the lab on Tuesday. *)
Definition example_input : Solver.input :=
  {| Solver.selected_semesters := [1];
     Solver.semester_courses_map :=
       {[ 1 := [ Solver.Course "CS101" "Programming" false 1;
                 Solver.Course "MA101" "Calculus" false 1;
                 Solver.Course "CS101L" "Programming Lab" true 1 ] ]};
     Solver.section_sizes := {[ 1 := 50 ]};
     Solver.usage_data := {[ "theory" := ∅; "lab" := ∅ ]};
     Solver.DAYS := Solver.week;
     Solver.THEORY_TIMESLOTS := [0; 1; 2; 3; 4; 5; 6];
     Solver.LAB_SLOTS := [0; 1; 2; 3];
     Solver.LAB_OVERLAP_MAP :=
       {[ 0 := [0; 1]; 1 := [2; 3]; 2 := [4; 5]; 3 := [6] ]};
     Solver.theory_rooms := ["R1"];
     Solver.lab_rooms := ["LAB1"];
     Solver.special_lab_rooms := ∅;
     Solver.section_size := 50;
     Solver.program_code := "A";
     Solver.cohort_map := None;
     Solver.enable_cohort := false;
     Solver.constraints :=
       {| Solver.maxHoursPerDay := 8; Solver.workingDaysPerWeek := 6;
          Solver.minGapMinutes := 15; Solver.noClassesAfterHour := Some 13 |} |}.

Definition example_valuation : Solver.valuation :=
  {| Solver.assign := λ k,
       bool_decide (k ∈ [ ("S1A1", "CS101", "Monday", 0, "R1");
                          ("S1A1", "MA101", "Monday", 2, "R1");
                          ("S1A1", "CS101L", "Tuesday", 0, "LAB1") ]);
     Solver.day_assigned := λ k,
       bool_decide (k ∈ [ ("S1A1", "CS101", "Monday");
                          ("S1A1", "MA101", "Monday") ]);
     Solver.cohort_assign := λ _, false;
     Solver.day_in_use := λ k,
       bool_decide (k ∈ [ ("S1A1", "Monday"); ("S1A1", "Tuesday") ]) |}.

Definition example_schedule : Solver.schedule :=
  let ps := Solver.placements example_input Solver.base_sections example_valuation in
  {| Solver.schedule_map := Solver.schedule_map_of ps;
     Solver.semester_sections_map := Solver.base_sections;
     Solver.new_allocations := Solver.new_allocations_of ps |}.

(** One semester and a section size of 0. *)
Definition zero_size_input : Solver.input :=
  {| Solver.selected_semesters := [1];
     Solver.semester_courses_map :=
       {[ 1 := [ Solver.Course "CS101" "Programming" false 2 ] ]};
     Solver.section_sizes := {[ 1 := 50 ]};
     Solver.usage_data := {[ "theory" := ∅; "lab" := ∅ ]};
     Solver.DAYS := Solver.week;
     Solver.THEORY_TIMESLOTS := [0; 1; 2; 3; 4; 5; 6];
     Solver.LAB_SLOTS := [0; 1; 2; 3];
     Solver.LAB_OVERLAP_MAP :=
       {[ 0 := [0; 1]; 1 := [2; 3]; 2 := [4; 5]; 3 := [6] ]};
     Solver.theory_rooms := ["R1"];
     Solver.lab_rooms := ["LAB1"];
     Solver.special_lab_rooms := ∅;
     Solver.section_size := 0;
     Solver.program_code := "A";
     Solver.cohort_map := None;
     Solver.enable_cohort := false;
     Solver.constraints := Solver.default_constraints |}.

(** Two semesters, the second without a student count. *)
Definition uncounted_input : Solver.input :=
  {| Solver.selected_semesters := [1; 2];
     Solver.semester_courses_map :=
       {[ 1 := [ Solver.Course "CS101" "Programming" false 2 ];
          2 := [ Solver.Course "MA201" "Calculus" false 2 ] ]};
     Solver.section_sizes := {[ 1 := 50 ]};
     Solver.usage_data := {[ "theory" := ∅; "lab" := ∅ ]};
     Solver.DAYS := Solver.week;
     Solver.THEORY_TIMESLOTS := [0; 1; 2; 3; 4; 5; 6];
     Solver.LAB_SLOTS := [0; 1; 2; 3];
     Solver.LAB_OVERLAP_MAP :=
       {[ 0 := [0; 1]; 1 := [2; 3]; 2 := [4; 5]; 3 := [6] ]};
     Solver.theory_rooms := ["R1"];
     Solver.lab_rooms := ["LAB1"];
     Solver.special_lab_rooms := ∅;
     Solver.section_size := 50;
     Solver.program_code := "A";
     Solver.cohort_map := None;
     Solver.enable_cohort := false;
     Solver.constraints := Solver.default_constraints |}.

End Timetable.

(** ** Vocabulary for section names *)

Module Names.

(** A character of a printed integer: a decimal digit or the minus sign. *)
Definition is_digit_or_sign (c : ascii) : bool :=
  let n := nat_of_ascii c in
  ((48 <=? n) && (n <=? 57) || (n =? 45))%nat.

Fixpoint numeric (s : string) : bool :=
  match s with
  | EmptyString => true
  | String c rest => is_digit_or_sign c && numeric rest
  end.

End Names.

(** ** scheduler/services/section_generator.py *)

Module SectionGenerator.

(** The [Section] table: its rows by semester number and name
    ([unique_together]). *)
Definition table : Type := gset (Z * string).

(** The names [generate_sections_default] asks for, for one
    [StudentCapacity] row, or the exception of the division. *)
Definition names_for (number students section_size : Z) (program_code : string)
    : exn + list string :=
  if students =? 0 then inr []
  else
    match Utils.ceil_div students section_size with
    | inl e => inl e
    | inr c =>
        let count := Z.max 1 c in
        inr (map (Utils.section_name number program_code) (range count))
    end.

(** [Section.objects.get_or_create(semester=sem, name=name)] in the loop
    over the names, counting the rows created. *)
Fixpoint get_or_create_all (number : Z) (names : list string)
    (db : table) (created : nat) : table * nat :=
  match names with
  | [] => (db, created)
  | name :: rest =>
      if bool_decide ((number, name) ∈ db)
      then get_or_create_all number rest db created
      else get_or_create_all number rest ({[ (number, name) ]} ∪ db) (S created)
  end.

(** The loop over the [StudentCapacity] rows [(semester number, student
    count)].  The rows created before an exception stay. *)
Fixpoint generate_loop (capacities : list (Z * Z)) (section_size : Z)
    (program_code : string) (db : table) (created : nat) : table * (exn + nat) :=
  match capacities with
  | [] => (db, inr created)
  | (number, students) :: rest =>
      match names_for number students section_size program_code with
      | inl e => (db, inl e)
      | inr names =>
          let '(db1, created1) := get_or_create_all number names db created in
          generate_loop rest section_size program_code db1 created1
      end
  end.

Definition generate_sections_default (capacities : list (Z * Z))
    (section_size : Z) (program_code : string) (db : table) : table * (exn + nat) :=
  generate_loop capacities section_size program_code db 0.

End SectionGenerator.

(** ** Vocabulary for the result of the teacher assignment *)

Module Workload.

(** The slots a run gives to teacher [t]. *)
Definition assigned_to (st : Teacher.state) (t : nat) : list Teacher.timetable_slot :=
  fst <$> filter (λ e : Teacher.timetable_slot * nat, e.2 = t)
                 (Teacher.assignments_to_save st).

(** The slots teacher [t] asked for: the sum of [sections_count] over the
    preferences of [t]. *)
Definition quota (prefs : list Teacher.preference) (t : nat) : nat :=
  sum_list (Teacher.sections_count
            <$> filter (λ p, Teacher.teacher_id p = t) prefs).

(** What holds after the preferences [processed] have been processed. *)
Record audit (a : Teacher.assigner) (processed : list Teacher.preference)
    (st : Teacher.state) : Prop := {
  audit_match : ∀ s t, (s, t) ∈ Teacher.assignments_to_save st →
    s ∈ Teacher.timetable_slots a
    ∧ ∃ pref subj,
        pref ∈ processed ∧ Teacher.teacher_id pref = t
        ∧ Teacher.subject_map a !! Teacher.subject_id s = Some subj
        ∧ Teacher.slot_matches pref subj = true;
  audit_load : ∀ t n, Teacher.teacher_workload st !! t = Some n →
    n = length (assigned_to st t);
  audit_ids : Teacher.assigned_slots st
    = list_to_set ((Teacher.id ∘ fst) <$> Teacher.assignments_to_save st);
  audit_quota : ∀ t, (length (assigned_to st t) ≤ quota processed t)%nat
}.

(** The state [assign_teachers] ends in on the example. *)
Definition example_state : Teacher.state :=
  default (Teacher.initial_state Teacher.example_assigner)
          (Teacher.assign_teachers Teacher.example_assigner).

End Workload.

(** ** scheduling/solver_optimized.py: one semester at a time *)

Module Hierarchical.

(** [sorted(selected_semesters, reverse=(semester_order == 'descending'))] *)
Definition sorted_semesters (semester_order : string) (inp : Solver.input)
    : list Z :=
  if bool_decide (semester_order = "descending")
  then merge_sort Z.ge (Solver.selected_semesters inp)
  else merge_sort Z.le (Solver.selected_semesters inp).

(** The arguments of the call for one semester:
    [selected_semesters=[semester]], [usage_data=current_usage], the rest
    as given. *)
Definition with_semester (inp : Solver.input) (semester : Z)
    (current_usage : usage_t) : Solver.input :=
  {| Solver.selected_semesters := [semester];
     Solver.semester_courses_map := Solver.semester_courses_map inp;
     Solver.section_sizes := Solver.section_sizes inp;
     Solver.usage_data := current_usage;
     Solver.DAYS := Solver.DAYS inp;
     Solver.THEORY_TIMESLOTS := Solver.THEORY_TIMESLOTS inp;
     Solver.LAB_SLOTS := Solver.LAB_SLOTS inp;
     Solver.LAB_OVERLAP_MAP := Solver.LAB_OVERLAP_MAP inp;
     Solver.theory_rooms := Solver.theory_rooms inp;
     Solver.lab_rooms := Solver.lab_rooms inp;
     Solver.special_lab_rooms := Solver.special_lab_rooms inp;
     Solver.section_size := Solver.section_size inp;
     Solver.program_code := Solver.program_code inp;
     Solver.cohort_map := Solver.cohort_map inp;
     Solver.enable_cohort := Solver.enable_cohort inp;
     Solver.constraints := Solver.constraints inp |}.

(** [combined_schedule_map = {}], [combined_sections_map = {}],
    [all_allocations = []] *)
Definition empty_schedule : Solver.schedule :=
  {| Solver.schedule_map := ∅;
     Solver.semester_sections_map := ∅;
     Solver.new_allocations := [] |}.

(** [dict.update] and [list.extend] with the result of one semester: an
    entry of the new map replaces the one the combined map has. *)
Definition combine (combined result : Solver.schedule) : Solver.schedule :=
  {| Solver.schedule_map :=
       Solver.schedule_map result ∪ Solver.schedule_map combined;
     Solver.semester_sections_map :=
       Solver.semester_sections_map result
       ∪ Solver.semester_sections_map combined;
     Solver.new_allocations :=
       Solver.new_allocations combined ++ Solver.new_allocations result |}.

Section solver.
(** The solver under the parameters of the per-semester calls. *)
Variable solve : (Solver.valuation → bool) → option Solver.valuation.

(** The loop [for semester in sorted_semesters].  An exception of the call
    for a semester or of [merge_usage_data] ends it, and so does a semester
    without a solution. *)
Fixpoint loop (inp : Solver.input) (semesters : list Z)
    (combined : Solver.schedule) (current_usage : usage_t)
    : outcome Solver.schedule :=
  match semesters with
  | [] => Return combined
  | semester :: rest =>
      match Solver.schedule_timetable solve
              (with_semester inp semester current_usage) with
      | Raise e => Raise e
      | ReturnNone => ReturnNone
      | Return result =>
          match Ledger.merge_usage_data current_usage
                  (Solver.new_allocations result) with
          | None => Raise KeyError
          | Some merged => loop inp rest (combine combined result) merged
          end
      end
  end.

Definition schedule_hierarchical (semester_order : string) (inp : Solver.input)
    : outcome Solver.schedule :=
  loop inp (sorted_semesters semester_order inp) empty_schedule
       (Solver.usage_data inp).
End solver.

(** The cell an allocation occupies. *)
Definition cell (a : allocation) : string * Z * string :=
  (day a, slot a, room a).

(** The uniqueness conditions of the catalog: those of
    [Solver.well_formed] that do not speak of sections. *)
Definition catalog_ok (inp : Solver.input) : Prop :=
  Solver.well_formed inp ∅.

(** A theory allocation sits in a theory room, a lab allocation in a lab. *)
Definition kind_room (inp : Solver.input) (a : allocation) : Prop :=
  (rtype a = "theory" ∧ room a ∈ Solver.theory_rooms inp)
  ∨ (rtype a = "lab" ∧ room a ∈ Solver.combined_labs inp).

(** What the loop keeps between two semesters: the theory and lab
    allocations made so far occupy distinct cells, each is listed in
    [current_usage], was free in the ledger of the caller and has its entry
    in the combined schedule map, and [current_usage] has lost nothing of
    that ledger. *)
Record invariant (inp : Solver.input) (combined : Solver.schedule)
    (current_usage : usage_t) : Prop := {
  inv_cells :
    NoDup (cell <$> filter (λ a, rtype a ≠ "cohort")
                           (Solver.new_allocations combined));
  inv_allocations : ∀ a,
    a ∈ Solver.new_allocations combined → rtype a ≠ "cohort" →
    kind_room inp a
    ∧ slot a ∈ Ledger.slots_at current_usage (rtype a) (room a) (day a)
    ∧ slot a ∉ Ledger.slots_at (Solver.usage_data inp) (rtype a) (room a) (day a);
  inv_entries : ∀ a,
    a ∈ Solver.new_allocations combined → rtype a ≠ "cohort" →
    ∃ sec c,
      Solver.schedule_map combined !! cell a = Some (sec, c, None)
      ∧ label a = sec +:+ "-" +:+ c;
  inv_ledger : ∀ kind r d s,
    s ∈ Ledger.slots_at (Solver.usage_data inp) kind r d →
    s ∈ Ledger.slots_at current_usage kind r d
}.

(** Two semesters with one theory course each, in one room. *)
Definition example_input : Solver.input :=
  {| Solver.selected_semesters := [2; 1];
     Solver.semester_courses_map :=
       {[ 1 := [ Solver.Course "CS101" "Programming" false 2 ];
          2 := [ Solver.Course "MA201" "Calculus" false 2 ] ]};
     Solver.section_sizes := {[ 1 := 50; 2 := 40 ]};
     Solver.usage_data := {[ "theory" := {[ "R1" := {[ "Monday" := [0] ]} ]};
                             "lab" := ∅ ]};
     Solver.DAYS := Solver.week;
     Solver.THEORY_TIMESLOTS := [0; 1; 2; 3; 4; 5; 6];
     Solver.LAB_SLOTS := [0; 1; 2; 3];
     Solver.LAB_OVERLAP_MAP :=
       {[ 0 := [0; 1]; 1 := [2; 3]; 2 := [4; 5]; 3 := [6] ]};
     Solver.theory_rooms := ["R1"];
     Solver.lab_rooms := ["LAB1"];
     Solver.special_lab_rooms := ∅;
     Solver.section_size := 50;
     Solver.program_code := "A";
     Solver.cohort_map := None;
     Solver.enable_cohort := false;
     Solver.constraints := Solver.default_constraints |}.

(** A valuation that serves both calls: the variables of a semester belong
    to its own sections. *)
Definition example_valuation : Solver.valuation :=
  {| Solver.assign := λ k,
       bool_decide (k ∈ [ ("S1A1", "CS101", "Monday", 1, "R1");
                          ("S1A1", "CS101", "Wednesday", 1, "R1");
                          ("S2A1", "MA201", "Monday", 2, "R1");
                          ("S2A1", "MA201", "Wednesday", 2, "R1") ]);
     Solver.day_assigned := λ k,
       bool_decide (k ∈ [ ("S1A1", "CS101", "Monday");
                          ("S1A1", "CS101", "Wednesday");
                          ("S2A1", "MA201", "Monday");
                          ("S2A1", "MA201", "Wednesday") ]);
     Solver.cohort_assign := λ _, false;
     Solver.day_in_use := λ k,
       bool_decide (k ∈ [ ("S1A1", "Monday"); ("S1A1", "Wednesday");
                          ("S2A1", "Monday"); ("S2A1", "Wednesday") ]) |}.

(** What the function returns for [example_input] in ascending order. *)
Definition example_schedule : Solver.schedule :=
  {| Solver.schedule_map :=
       {[ ("Monday", 1, "R1") := ("S1A1", "CS101", None);
          ("Wednesday", 1, "R1") := ("S1A1", "CS101", None);
          ("Monday", 2, "R1") := ("S2A1", "MA201", None);
          ("Wednesday", 2, "R1") := ("S2A1", "MA201", None) ]};
     Solver.semester_sections_map := {[ 1 := ["S1A1"]; 2 := ["S2A1"] ]};
     Solver.new_allocations :=
       [ Allocation "theory" "R1" "Monday" 1 "S1A1-CS101";
         Allocation "theory" "R1" "Wednesday" 1 "S1A1-CS101";
         Allocation "theory" "R1" "Monday" 2 "S2A1-MA201";
         Allocation "theory" "R1" "Wednesday" 2 "S2A1-MA201" ] |}.

End Hierarchical.

(* ===================================================================== *)
(** * Part II: lemmas and theorems                                        *)
(* ===================================================================== *)

Lemma length_range c : length (range c) = Z.to_nat c.
Proof. unfold range. by rewrite length_map, length_seq. Qed.

Lemma lookup_range c (i : nat) :
  (i < Z.to_nat c)%nat → range c !! i = Some (Z.of_nat i).
Proof.
  intros Hi. unfold range. rewrite list_lookup_fmap.
  rewrite lookup_seq_lt by done. done.
Qed.

(** ** Float division *)

Lemma round_half_even_near a b :
  0 ≤ a → 0 < b →
  2 * b * round_half_even a b - b ≤ 2 * a ≤ 2 * b * round_half_even a b + b.
Proof.
  intros Ha Hb. unfold round_half_even.
  pose proof (Z.div_mod a b ltac:(lia)) as Hdm.
  pose proof (Z.mod_pos_bound a b Hb) as Hmod.
  destruct (Z.ltb_spec (2 * (a mod b)) b); [nia|].
  destruct (Z.ltb_spec b (2 * (a mod b))); [nia|].
  destruct (Z.even (a / b)); nia.
Qed.

Lemma round_half_even_le a b k :
  0 ≤ a → 0 < b → a ≤ k * b → round_half_even a b ≤ k.
Proof. intros Ha Hb Hk. pose proof (round_half_even_near a b Ha Hb). nia. Qed.

Lemma round_half_even_ge a b k :
  0 ≤ a → 0 < b → k * b ≤ a → k ≤ round_half_even a b.
Proof. intros Ha Hb Hk. pose proof (round_half_even_near a b Ha Hb). nia. Qed.

Lemma round_half_even_gt a b k c :
  0 ≤ a → 0 < b → k * b + c ≤ a → b < 2 * c → k < round_half_even a b.
Proof. intros Ha Hb Hk Hc. pose proof (round_half_even_near a b Ha Hb). nia. Qed.

Lemma pow2_pos k : 0 < 2 ^ k ∨ k < 0.
Proof. destruct (Z.lt_ge_cases k 0); [by right|left]. by apply Z.pow_pos_nonneg. Qed.

Lemma quotient_log2_spec a b :
  0 < a → 0 < b →
  let l := quotient_log2 a b in
  b * 2 ^ Z.max 0 l ≤ a * 2 ^ Z.max 0 (- l)
  ∧ a * 2 ^ Z.max 0 (- (l + 1)) < b * 2 ^ Z.max 0 (l + 1).
Proof.
  intros Ha Hb. unfold quotient_log2.
  pose proof (Z.log2_spec a Ha) as [Ha1 Ha2].
  pose proof (Z.log2_spec b Hb) as [Hb1 Hb2].
  pose proof (Z.log2_nonneg a) as Hla. pose proof (Z.log2_nonneg b) as Hlb.
  rewrite <- Z.add_1_r in Ha2, Hb2.
  rewrite Z.pow_add_r in Ha2, Hb2 by lia. change (2 ^ 1) with 2 in *.
  set (la := Z.log2 a) in *. set (lb := Z.log2 b) in *.
  set (d := la - lb).
  destruct (Z.le_gt_cases 0 d) as [Hd|Hd].
  - assert (Hpow : 2 ^ la = 2 ^ lb * 2 ^ d).
    { rewrite <- Z.pow_add_r by lia. f_equal. lia. }
    assert (0 < 2 ^ lb) by (apply Z.pow_pos_nonneg; lia).
    assert (0 < 2 ^ d) by (apply Z.pow_pos_nonneg; lia).
    rewrite (Z.max_r 0 d), (Z.max_l 0 (- d)) by lia. change (2 ^ 0) with 1.
    destruct (Z.leb_spec (b * 2 ^ d) (a * 1)) as [Ht|Ht]; cbn zeta.
    + rewrite (Z.max_r 0 d), (Z.max_l 0 (- d)), (Z.max_l 0 (- (d + 1))),
        (Z.max_r 0 (d + 1)) by lia.
      rewrite Z.pow_add_r by lia. change (2 ^ 0) with 1. change (2 ^ 1) with 2.
      split; [lia|]. nia.
    + rewrite (Z.max_r 0 (d - 1 + 1)), (Z.max_l 0 (- (d - 1 + 1))) by lia.
      replace (d - 1 + 1) with d by lia. change (2 ^ 0) with 1.
      split; [|lia].
      destruct (Z.eq_dec d 0) as [Hd0|Hd0].
      * rewrite (Z.max_l 0 (d - 1)), (Z.max_r 0 (- (d - 1))) by lia.
        replace (- (d - 1)) with 1 by lia.
        assert (2 ^ d = 1) by (by rewrite Hd0).
        change (2 ^ 0) with 1. change (2 ^ 1) with 2. nia.
      * rewrite (Z.max_r 0 (d - 1)), (Z.max_l 0 (- (d - 1))) by lia.
        change (2 ^ 0) with 1.
        assert (Hpd : 2 ^ d = 2 * 2 ^ (d - 1)).
        { replace d with (1 + (d - 1)) at 1 by lia.
          rewrite Z.pow_add_r by lia. done. }
        assert (0 < 2 ^ (d - 1)) by (apply Z.pow_pos_nonneg; lia).
        nia.
  - assert (Hpow : 2 ^ lb = 2 ^ la * 2 ^ (- d)).
    { rewrite <- Z.pow_add_r by lia. f_equal. lia. }
    assert (0 < 2 ^ la) by (apply Z.pow_pos_nonneg; lia).
    assert (0 < 2 ^ (- d)) by (apply Z.pow_pos_nonneg; lia).
    rewrite (Z.max_l 0 d), (Z.max_r 0 (- d)) by lia. change (2 ^ 0) with 1.
    destruct (Z.leb_spec (b * 1) (a * 2 ^ (- d))) as [Ht|Ht]; cbn zeta.
    + rewrite (Z.max_l 0 d), (Z.max_r 0 (- d)), (Z.max_r 0 (- (d + 1))),
        (Z.max_l 0 (d + 1)) by lia.
      change (2 ^ 0) with 1.
      split; [lia|].
      assert (Hpd : 2 ^ (- d) = 2 * 2 ^ (- (d + 1))).
      { replace (- d) with (1 + (- (d + 1))) at 1 by lia.
        rewrite Z.pow_add_r by lia. done. }
      assert (0 < 2 ^ (- (d + 1))) by (apply Z.pow_pos_nonneg; lia).
      nia.
    + rewrite (Z.max_l 0 (d - 1)), (Z.max_r 0 (- (d - 1))),
        (Z.max_r 0 (- (d - 1 + 1))), (Z.max_l 0 (d - 1 + 1)) by lia.
      replace (d - 1 + 1) with d by lia. change (2 ^ 0) with 1.
      split; [|lia].
      replace (- (d - 1)) with (1 + - d) by lia.
      rewrite Z.pow_add_r by lia. change (2 ^ 1) with 2. nia.
Qed.

Lemma quotient_log2_bounds a b :
  Z.log2 a - Z.log2 b - 1 ≤ quotient_log2 a b ≤ Z.log2 a - Z.log2 b.
Proof. unfold quotient_log2. destruct (_ <=? _); lia. Qed.

Lemma true_div_positive n s :
  0 < n → 0 < s →
  true_div n s =
    let e := Z.max (-1074) (quotient_log2 n s - 52) in
    let m := round_half_even (n * 2 ^ Z.max 0 (- e)) (s * 2 ^ Z.max 0 e) in
    if (0 <=? e) && (2 ^ 1024 <=? m * 2 ^ e) then inl OverflowError
    else inr (Float false m e).
Proof.
  intros Hn Hs. unfold true_div.
  destruct (Z.eqb_spec s 0); [lia|]. destruct (Z.eqb_spec n 0); [lia|].
  destruct (Z.ltb_spec n 0); [lia|]. destruct (Z.ltb_spec s 0); [lia|].
  rewrite !Z.abs_eq by lia. done.
Qed.

(** The scaled quotient of a division in the normal range has 53 bits. *)
Lemma scaled_quotient_normal n s :
  0 < n → 0 < s → -1022 ≤ quotient_log2 n s →
  let e := quotient_log2 n s - 52 in
  (s * 2 ^ Z.max 0 e) * 2 ^ 52 ≤ n * 2 ^ Z.max 0 (- e)
  ∧ n * 2 ^ Z.max 0 (- e) < (s * 2 ^ Z.max 0 e) * 2 ^ 53.
Proof.
  intros Hn Hs Hl. cbn zeta.
  destruct (quotient_log2_spec n s Hn Hs) as [H1 H2]. cbn zeta in H1, H2.
  set (l := quotient_log2 n s) in *.
  assert (Hp : ∀ x y, 0 ≤ x → 0 ≤ y → 2 ^ (x + y) = 2 ^ x * 2 ^ y)
    by (intros; by apply Z.pow_add_r).
  assert (Hpos : ∀ x, 0 ≤ x → 0 < 2 ^ x) by (intros; by apply Z.pow_pos_nonneg).
  destruct (Z.le_gt_cases 52 l) as [Hbig|Hsmall].
  - (* l ≥ 52: e ≥ 0 *)
    rewrite (Z.max_r 0 (l - 52)), (Z.max_l 0 (- (l - 52))) by lia.
    rewrite (Z.max_r 0 l), (Z.max_l 0 (- l)) in H1 by lia.
    rewrite (Z.max_l 0 (- (l + 1))), (Z.max_r 0 (l + 1)) in H2 by lia.
    change (2 ^ 0) with 1 in *.
    replace l with ((l - 52) + 52) in H1 at 1 by lia.
    replace (l + 1) with ((l - 52) + 53) in H2 by lia.
    rewrite Hp in H1, H2 by lia. lia.
  - rewrite (Z.max_l 0 (l - 52)), (Z.max_r 0 (- (l - 52))) by lia.
    change (2 ^ 0) with 1.
    destruct (Z.le_gt_cases 0 l) as [Hl0|Hl0].
    + rewrite (Z.max_r 0 l), (Z.max_l 0 (- l)) in H1 by lia.
      rewrite (Z.max_l 0 (- (l + 1))), (Z.max_r 0 (l + 1)) in H2 by lia.
      change (2 ^ 0) with 1 in *.
      assert (E52 : 2 ^ 52 = 2 ^ l * 2 ^ (- (l - 52))).
      { rewrite <- Hp by lia. f_equal. lia. }
      assert (E53 : 2 ^ 53 = 2 ^ (l + 1) * 2 ^ (- (l - 52))).
      { rewrite <- Hp by lia. f_equal. lia. }
      pose proof (Hpos (- (l - 52)) ltac:(lia)).
      rewrite E52, E53. split; nia.
    + rewrite (Z.max_l 0 l), (Z.max_r 0 (- l)) in H1 by lia.
      rewrite (Z.max_r 0 (- (l + 1))), (Z.max_l 0 (l + 1)) in H2 by lia.
      change (2 ^ 0) with 1 in *.
      assert (E52 : 2 ^ (- (l - 52)) = 2 ^ (- l) * 2 ^ 52).
      { rewrite <- Hp by lia. f_equal. lia. }
      assert (E53 : 2 ^ (- (l - 52)) = 2 ^ (- (l + 1)) * 2 ^ 53).
      { rewrite <- Hp by lia. f_equal. lia. }
      split.
      * rewrite E52. pose proof (Hpos 52 ltac:(lia)). nia.
      * rewrite E53. pose proof (Hpos 53 ltac:(lia)). nia.
Qed.

(** [math.ceil(n / s)] is the exact ceiling when [n] has at most 53 bits
    and the quotient is in the normal range. *)
Lemma ceil_div_exact n s :
  1 ≤ n < 2 ^ 53 → 0 < s < 2 ^ 1022 →
  Utils.ceil_div n s = inr (- ((- n) / s)).
Proof.
  intros [Hn1 Hn2] [Hs1 Hs2]. unfold Utils.ceil_div.
  rewrite true_div_positive by lia. cbn zeta.
  pose proof (quotient_log2_bounds n s) as Hlb.
  assert (Hln : Z.log2 n < 53) by (apply Z.log2_lt_pow2; lia).
  assert (Hls : Z.log2 s < 1022) by (apply Z.log2_lt_pow2; lia).
  pose proof (Z.log2_nonneg n). pose proof (Z.log2_nonneg s).
  destruct (scaled_quotient_normal n s ltac:(lia) ltac:(lia) ltac:(lia)) as [Hlo Hhi].
  cbn zeta in Hlo, Hhi.
  set (l := quotient_log2 n s) in *.
  rewrite (Z.max_r (-1074) (l - 52)) by lia.
  rewrite (Z.max_l 0 (l - 52)), (Z.max_r 0 (- (l - 52))) in * by lia.
  change (2 ^ 0) with 1 in *. rewrite Z.mul_1_r in *.
  set (f := - (l - 52)) in *.
  assert (Hf : 0 ≤ f) by (unfold f; lia).
  assert (Hpf : 0 < 2 ^ f) by (by apply Z.pow_pos_nonneg).
  set (k := - ((- n) / s)).
  assert (Hk : (k - 1) * s < n ≤ k * s).
  { unfold k. pose proof (Z.div_mod (- n) s ltac:(lia)).
    pose proof (Z.mod_pos_bound (- n) s ltac:(lia)). nia. }
  set (m := round_half_even (n * 2 ^ f) s).
  assert (Hm1 : m ≤ k * 2 ^ f).
  { apply round_half_even_le; nia. }
  assert (Hm2 : (k - 1) * 2 ^ f < m).
  { apply (round_half_even_gt _ _ _ (2 ^ f)); [nia|lia|nia|].
    assert (2 ^ 53 = 2 * 2 ^ 52) by done. nia. }
  assert (Hm0 : 0 ≤ m) by (apply round_half_even_ge; nia).
  assert (Hov : (0 <=? l - 52) && (2 ^ 1024 <=? m * 2 ^ (l - 52)) = false).
  { destruct (Z.leb_spec 0 (l - 52)); [|done]. simpl.
    replace (l - 52) with 0 by lia. apply Z.leb_gt.
    assert (f = 0) as Hf0 by (unfold f; lia). rewrite Hf0 in *.
    change (2 ^ 0) with 1 in *.
    assert (2 ^ 53 < 2 ^ 1024) by (apply Z.pow_lt_mono_r; lia). nia. }
  rewrite Hov. f_equal. unfold math_ceil. simpl.
  destruct (Z.leb_spec 0 (l - 52)).
  - assert (f = 0) as Hf0 by (unfold f; lia). rewrite Hf0 in *.
    replace (l - 52) with 0 by lia. change (2 ^ 0) with 1 in *. lia.
  - fold f. pose proof (Z.div_mod (- m) (2 ^ f) ltac:(lia)).
    pose proof (Z.mod_pos_bound (- m) (2 ^ f) ltac:(lia)). nia.
Qed.

Lemma ceil_div_zero s : s ≠ 0 → Utils.ceil_div 0 s = inr 0.
Proof.
  intros Hs. unfold Utils.ceil_div, true_div.
  destruct (Z.eqb_spec s 0); [done|]. simpl.
  unfold math_ceil. simpl. by destruct (s <? 0).
Qed.

Lemma ceil_div_by_zero n : Utils.ceil_div n 0 = inl ZeroDivisionError.
Proof. done. Qed.

(** A quotient in the normal range does not round to zero. *)
Lemma ceil_div_pos n s c :
  1 ≤ n → 0 < s < 2 ^ 1022 → Utils.ceil_div n s = inr c → 1 ≤ c.
Proof.
  intros Hn [Hs1 Hs2]. unfold Utils.ceil_div.
  rewrite true_div_positive by lia. cbn zeta.
  pose proof (quotient_log2_bounds n s) as Hlb.
  assert (Hls : Z.log2 s < 1022) by (apply Z.log2_lt_pow2; lia).
  pose proof (Z.log2_nonneg n). pose proof (Z.log2_nonneg s).
  destruct (scaled_quotient_normal n s ltac:(lia) ltac:(lia) ltac:(lia)) as [Hlo _].
  cbn zeta in Hlo.
  set (l := quotient_log2 n s) in *.
  rewrite (Z.max_r (-1074) (l - 52)) by lia.
  set (e := l - 52) in *.
  set (B := s * 2 ^ Z.max 0 e) in *. set (X := n * 2 ^ Z.max 0 (- e)) in *.
  assert (HB : 0 < B).
  { unfold B. apply Z.mul_pos_pos; [lia|]. apply Z.pow_pos_nonneg; lia. }
  assert (Hm : 2 ^ 52 ≤ round_half_even X B).
  { apply round_half_even_ge; [|lia|lia].
    unfold X. apply Z.mul_nonneg_nonneg; [lia|]. apply Z.pow_nonneg. lia. }
  assert (0 < 2 ^ 52) by done.
  destruct (_ && _); [done|]. intros [= <-]. unfold math_ceil. simpl.
  destruct (Z.leb_spec 0 e).
  - assert (0 < 2 ^ e) by (by apply Z.pow_pos_nonneg). nia.
  - assert (0 < 2 ^ (- e)) by (apply Z.pow_pos_nonneg; lia).
    pose proof (Z.div_mod (- round_half_even X B) (2 ^ (- e)) ltac:(lia)).
    pose proof (Z.mod_pos_bound (- round_half_even X B) (2 ^ (- e)) ltac:(lia)).
    nia.
Qed.

Lemma true_div_abs n s :
  n ≠ 0 → s ≠ 0 →
  true_div n s =
    match true_div (Z.abs n) (Z.abs s) with
    | inl e => inl e
    | inr x => inr (Float (xorb (n <? 0) (s <? 0)) (f_mant x) (f_exp x))
    end.
Proof.
  intros Hn Hs. rewrite (true_div_positive (Z.abs n) (Z.abs s)) by lia.
  unfold true_div.
  destruct (Z.eqb_spec s 0); [done|]. destruct (Z.eqb_spec n 0); [done|].
  cbn zeta. by destruct (_ && _).
Qed.

(** Operands below 2^1023 do not overflow. *)
Lemma ceil_div_no_overflow n s :
  Z.abs n < 2 ^ 1023 → s ≠ 0 → ∃ c, Utils.ceil_div n s = inr c.
Proof.
  intros Hn Hs. destruct (Z.eq_dec n 0) as [->|Hn0].
  { exists 0. by apply ceil_div_zero. }
  unfold Utils.ceil_div. rewrite true_div_abs by done.
  rewrite true_div_positive by lia. cbn zeta.
  set (a := Z.abs n) in *. set (b := Z.abs s).
  assert (Ha : 0 < a) by (unfold a; lia). assert (Hb : 0 < b) by (unfold b; lia).
  pose proof (quotient_log2_bounds a b) as Hlb.
  assert (Hla : Z.log2 a < 1023) by (apply Z.log2_lt_pow2; lia).
  pose proof (Z.log2_nonneg a). pose proof (Z.log2_nonneg b).
  set (l := quotient_log2 a b) in *.
  assert (Hov : ∀ e m, e = Z.max (-1074) (l - 52) →
            m = round_half_even (a * 2 ^ Z.max 0 (- e)) (b * 2 ^ Z.max 0 e) →
            (0 <=? e) && (2 ^ 1024 <=? m * 2 ^ e) = false).
  { intros e m He Hm. destruct (Z.leb_spec 0 e) as [He0|]; [|done]. simpl.
    apply Z.leb_gt.
    assert (He' : e = l - 52) by lia.
    destruct (scaled_quotient_normal a b Ha Hb ltac:(lia)) as [_ Hhi].
    cbn zeta in Hhi. fold l in Hhi. rewrite <- He' in Hhi.
    assert (0 < 2 ^ e) by (by apply Z.pow_pos_nonneg).
    assert (0 < 2 ^ Z.max 0 e) by (apply Z.pow_pos_nonneg; lia).
    assert (0 ≤ 2 ^ Z.max 0 (- e)) by (apply Z.pow_nonneg; lia).
    assert (Hm53 : m ≤ 2 ^ 53).
    { rewrite Hm. apply round_half_even_le; nia. }
    assert (2 ^ 53 * 2 ^ e < 2 ^ 1024).
    { rewrite <- Z.pow_add_r by lia. apply Z.pow_lt_mono_r; lia. }
    nia. }
  rewrite (Hov _ _ eq_refl eq_refl). eauto.
Qed.

(** ** Section builder *)


(** The count is the ceiling of the float quotient, which is not always the
    ceiling of the quotient: with 2^54 + 3 students in sections of 2^53 + 1
    the quotient rounds to 2.0, and two sections are built where three are
    needed; a section size above 2^1074 times the student count makes the
    quotient 0.0 and no section is built. *)
Lemma ceil_div_rounds :
  Utils.ceil_div (2 ^ 54 + 3) (2 ^ 53 + 1) = inr 2
  ∧ - ((- (2 ^ 54 + 3)) / (2 ^ 53 + 1)) = 3
  ∧ Utils.ceil_div 1 (2 ^ 1076) = inr 0
  ∧ Utils.ceil_div (2 ^ 1024) 1 = inl OverflowError.
Proof. repeat split; vm_compute; reflexivity. Qed.



(** ** Usage ledger (values) *)

Lemma slots_at_ensure_kind kind u k r d :
  Ledger.slots_at (Ledger.ensure_kind kind u) k r d = Ledger.slots_at u k r d.
Proof.
  unfold Ledger.ensure_kind, Ledger.slots_at.
  destruct (u !! kind) eqn:Hk; [done|].
  destruct (decide (kind = k)) as [->|Hne].
  - by rewrite lookup_insert_eq, Hk, lookup_empty.
  - by rewrite lookup_insert_ne.
Qed.

Lemma ensure_kind_lookup_other kind u k :
  is_Some (u !! k) → is_Some (Ledger.ensure_kind kind u !! k).
Proof.
  unfold Ledger.ensure_kind. destruct (u !! kind) eqn:Hk; [done|].
  intros Hs. destruct (decide (kind = k)) as [->|Hne].
  - rewrite lookup_insert_eq. eauto.
  - by rewrite lookup_insert_ne.
Qed.

Lemma ensure_kind_lookup_self kind u : is_Some (Ledger.ensure_kind kind u !! kind).
Proof.
  unfold Ledger.ensure_kind. destruct (u !! kind) eqn:Hk; [by rewrite Hk|].
  rewrite lookup_insert_eq. eauto.
Qed.

Lemma ensure_kind_id kind u : is_Some (u !! kind) → Ledger.ensure_kind kind u = u.
Proof. intros [x Hx]. unfold Ledger.ensure_kind. by rewrite Hx. Qed.

(** The loop iteration in closed form. *)
Lemma merge_step_unfold u a rooms :
  u !! rtype a = Some rooms →
  Ledger.merge_step u a =
    let days := default ∅ (rooms !! room a) in
    let slots := default [] (days !! day a) in
    Some (<[rtype a :=
            <[room a :=
               <[day a := if bool_decide (slot a ∈ slots) then slots
                          else slots ++ [slot a]]> days]> rooms]> u).
Proof.
  intros Hr. unfold Ledger.merge_step. rewrite Hr.
  destruct (rooms !! room a) as [days|] eqn:Hra; cbn [from_option id].
  - rewrite Hra. cbn [from_option id].
    destruct (days !! day a) as [slots|] eqn:Hda; cbn [from_option id].
    + by rewrite Hda.
    + rewrite lookup_insert_eq. cbn [from_option id]. by rewrite insert_insert_eq.
  - rewrite lookup_insert_eq. cbn [from_option id]. rewrite lookup_empty.
    rewrite lookup_insert_eq. cbn [from_option id].
    by rewrite !insert_insert_eq.
Qed.

(** What one loop iteration does to the slot list of each cell. *)
Lemma slots_at_merge_step u a u1 k r d :
  Ledger.merge_step u a = Some u1 →
  Ledger.slots_at u1 k r d =
    if decide (k = rtype a ∧ r = room a ∧ d = day a)
    then (if bool_decide (slot a ∈ Ledger.slots_at u k r d)
          then Ledger.slots_at u k r d
          else Ledger.slots_at u k r d ++ [slot a])
    else Ledger.slots_at u k r d.
Proof.
  destruct (u !! rtype a) as [rooms|] eqn:Hrooms; cycle 1.
  { unfold Ledger.merge_step. by rewrite Hrooms. }
  rewrite (merge_step_unfold u a rooms Hrooms). cbn zeta.
  intros [= <-]. unfold Ledger.slots_at.
  destruct (decide (k = rtype a)) as [->|Hk]; cycle 1.
  { rewrite lookup_insert_ne by done.
    by rewrite decide_False by naive_solver. }
  rewrite lookup_insert_eq, Hrooms.
  destruct (decide (r = room a)) as [->|Hr]; cycle 1.
  { rewrite lookup_insert_ne by done.
    by rewrite decide_False by naive_solver. }
  rewrite lookup_insert_eq.
  assert (Hold : match rooms !! room a with
                 | Some days => default [] (days !! d)
                 | None => []
                 end = default [] (default ∅ (rooms !! room a) !! d)).
  { destruct (rooms !! room a); [done|]. cbn [from_option id].
    by rewrite lookup_empty. }
  rewrite Hold.
  destruct (decide (d = day a)) as [->|Hd]; cycle 1.
  { rewrite lookup_insert_ne by done.
    by rewrite decide_False by naive_solver. }
  rewrite lookup_insert_eq, decide_True by done. done.
Qed.

Lemma merge_step_keeps_kinds u a u1 k :
  Ledger.merge_step u a = Some u1 → is_Some (u !! k) → is_Some (u1 !! k).
Proof.
  unfold Ledger.merge_step. destruct (u !! rtype a) eqn:Hr; [|done].
  intros [= <-] Hk. destruct (decide (rtype a = k)) as [<-|Hne].
  - rewrite lookup_insert_eq. eauto.
  - by rewrite lookup_insert_ne.
Qed.

Lemma merge_step_total u a :
  is_Some (u !! rtype a) → is_Some (Ledger.merge_step u a).
Proof. intros [x Hx]. unfold Ledger.merge_step. rewrite Hx. eauto. Qed.

Lemma merge_loop_total allocs : ∀ u,
  (∀ a, a ∈ allocs → is_Some (u !! rtype a)) →
  is_Some (Ledger.merge_loop u allocs).
Proof.
  induction allocs as [|a rest IH]; intros u Hk; simpl; [eauto|].
  destruct (merge_step_total u a) as [u1 Hu1]; [apply Hk; left|].
  rewrite Hu1. apply IH. intros b Hb.
  eapply merge_step_keeps_kinds; [done|]. apply Hk. by right.
Qed.

Lemma slots_at_merge_loop allocs : ∀ u u1 k r d s,
  Ledger.merge_loop u allocs = Some u1 →
  s ∈ Ledger.slots_at u1 k r d ↔
    s ∈ Ledger.slots_at u k r d ∨ Ledger.allocated allocs k r d s.
Proof.
  induction allocs as [|a rest IH]; intros u u1 k r d s; simpl.
  - intros [= <-]. split; [by left|].
    intros [?|(a & Ha & _)]; [done|]. by apply elem_of_nil in Ha.
  - destruct (Ledger.merge_step u a) as [u2|] eqn:Hstep; [|done].
    intros Hloop. rewrite (IH _ _ k r d s Hloop).
    rewrite (slots_at_merge_step _ _ _ k r d Hstep).
    unfold Ledger.allocated. split.
    + intros [Hs|(b & Hb & Hprops)].
      * case_decide as Hcell.
        -- case_bool_decide; [by left|].
           apply elem_of_app in Hs as [Hs|Hs]; [by left|].
           apply list_elem_of_singleton in Hs as ->.
           right. exists a. split; [left|]. naive_solver.
        -- by left.
      * right. exists b. split; [by right|done].
    + intros [Hs|(b & Hb & Hprops)].
      * left. case_decide; [|done]. case_bool_decide; [done|].
        apply elem_of_app. by left.
      * apply elem_of_cons in Hb as [->|Hb].
        -- left. destruct Hprops as (<- & <- & <- & <-).
           rewrite decide_True by done.
           case_bool_decide; [done|]. apply elem_of_app. right. by left.
        -- right. eauto.
Qed.

Lemma NoDup_merge_step u a u1 :
  Ledger.merge_step u a = Some u1 →
  (∀ k r d, NoDup (Ledger.slots_at u k r d)) →
  ∀ k r d, NoDup (Ledger.slots_at u1 k r d).
Proof.
  intros Hstep Hnd k r d. rewrite (slots_at_merge_step _ _ _ k r d Hstep).
  case_decide; [|done]. case_bool_decide as Hin; [done|].
  apply NoDup_app. split; [done|]. split.
  - intros x Hx Hx'. apply list_elem_of_singleton in Hx' as ->. done.
  - apply NoDup_singleton.
Qed.

Lemma NoDup_merge_loop allocs : ∀ u u1,
  Ledger.merge_loop u allocs = Some u1 →
  (∀ k r d, NoDup (Ledger.slots_at u k r d)) →
  ∀ k r d, NoDup (Ledger.slots_at u1 k r d).
Proof.
  induction allocs as [|a rest IH]; intros u u1; simpl.
  - by intros [= <-].
  - destruct (Ledger.merge_step u a) as [u2|] eqn:Hstep; [|done].
    intros Hloop Hnd. eapply IH; [done|]. by eapply NoDup_merge_step.
Qed.

Lemma merge_step_recorded_id u a :
  Ledger.recorded u a → Ledger.merge_step u a = Some u.
Proof.
  intros (rooms & days & slots & Hr & Hd & Hs & Hin).
  rewrite (merge_step_unfold u a rooms Hr). cbn zeta.
  rewrite Hd. cbn [from_option id]. rewrite Hs. cbn [from_option id].
  rewrite bool_decide_eq_true_2 by done.
  rewrite (insert_id days) by done. rewrite (insert_id rooms) by done.
  by rewrite (insert_id u).
Qed.

Lemma merge_step_records u a u1 :
  Ledger.merge_step u a = Some u1 → Ledger.recorded u1 a.
Proof.
  unfold Ledger.recorded.
  destruct (u !! rtype a) as [rooms|] eqn:Hr; cycle 1.
  { unfold Ledger.merge_step. by rewrite Hr. }
  rewrite (merge_step_unfold u a rooms Hr). cbn zeta.
  intros [= <-]. rewrite lookup_insert_eq.
  eexists _, _, _. split; [done|]. rewrite lookup_insert_eq.
  split; [done|]. rewrite lookup_insert_eq. split; [done|].
  case_bool_decide; [done|]. apply elem_of_app. right. by left.
Qed.

Lemma merge_step_keeps_recorded u a u1 b :
  Ledger.merge_step u a = Some u1 → Ledger.recorded u b → Ledger.recorded u1 b.
Proof.
  intros Hstep (rooms & days & slots & Hr & Hd & Hs & Hin).
  assert (Hsl : slot b ∈ Ledger.slots_at u1 (rtype b) (room b) (day b)).
  { rewrite (slots_at_merge_step _ _ _ _ _ _ Hstep).
    assert (Hold : Ledger.slots_at u (rtype b) (room b) (day b) = slots).
    { unfold Ledger.slots_at. by rewrite Hr, Hd, Hs. }
    rewrite Hold. case_decide; [|done]. case_bool_decide; [done|].
    apply elem_of_app. by left. }
  unfold Ledger.slots_at in Hsl. unfold Ledger.recorded.
  destruct (u1 !! rtype b) as [rooms1|]; [|by apply elem_of_nil in Hsl].
  destruct (rooms1 !! room b) as [days1|] eqn:Hd1; [|by apply elem_of_nil in Hsl].
  destruct (days1 !! day b) as [slots1|] eqn:Hs1; [|by apply elem_of_nil in Hsl].
  exists rooms1, days1, slots1. done.
Qed.

Lemma merge_loop_keeps_recorded allocs : ∀ u u1 b,
  Ledger.merge_loop u allocs = Some u1 → Ledger.recorded u b → Ledger.recorded u1 b.
Proof.
  induction allocs as [|a rest IH]; intros u u1 b; simpl.
  - by intros [= <-].
  - destruct (Ledger.merge_step u a) as [u2|] eqn:Hstep; [|done].
    intros Hloop Hb. eapply IH; [done|]. by eapply merge_step_keeps_recorded.
Qed.

Lemma merge_loop_records allocs : ∀ u u1,
  Ledger.merge_loop u allocs = Some u1 → ∀ a, a ∈ allocs → Ledger.recorded u1 a.
Proof.
  induction allocs as [|a rest IH]; intros u u1; simpl.
  - intros _ a Ha. by apply elem_of_nil in Ha.
  - destruct (Ledger.merge_step u a) as [u2|] eqn:Hstep; [|done].
    intros Hloop b Hb. apply elem_of_cons in Hb as [->|Hb].
    + eapply merge_loop_keeps_recorded; [done|]. by eapply merge_step_records.
    + by eapply IH.
Qed.

Lemma merge_loop_recorded_id allocs u :
  (∀ a, a ∈ allocs → Ledger.recorded u a) → Ledger.merge_loop u allocs = Some u.
Proof.
  induction allocs as [|a rest IH]; intros Hrec; simpl; [done|].
  rewrite merge_step_recorded_id by (apply Hrec; left).
  apply IH. intros b Hb. apply Hrec. by right.
Qed.

Lemma merge_loop_keeps_kinds allocs : ∀ u u1 k,
  Ledger.merge_loop u allocs = Some u1 → is_Some (u !! k) → is_Some (u1 !! k).
Proof.
  induction allocs as [|a rest IH]; intros u u1 k; simpl.
  - by intros [= <-].
  - destruct (Ledger.merge_step u a) as [u2|] eqn:Hstep; [|done].
    intros Hloop Hk. eapply IH; [done|]. by eapply merge_step_keeps_kinds.
Qed.

(** C9: [merge_usage_data] is additive and duplicate inserts are no-ops.
    For allocations whose kinds the ledger can index, the merge returns a
    ledger in which a slot is listed under (kind, room, day) exactly when it
    was listed there before or occurs in the allocations; duplicate-free
    cells stay duplicate-free; and merging the same allocations into the
    result again returns the identical ledger. *)
Theorem merge_usage_data_additive (existing_usage : usage_t)
    (new_allocations : list allocation) :
  Ledger.kinds_known existing_usage new_allocations →
  ∃ merged,
    Ledger.merge_usage_data existing_usage new_allocations = Some merged
    ∧ (∀ kind r d s,
         s ∈ Ledger.slots_at merged kind r d ↔
           s ∈ Ledger.slots_at existing_usage kind r d
           ∨ Ledger.allocated new_allocations kind r d s)
    ∧ ((∀ kind r d, NoDup (Ledger.slots_at existing_usage kind r d)) →
       ∀ kind r d, NoDup (Ledger.slots_at merged kind r d))
    ∧ Ledger.merge_usage_data merged new_allocations = Some merged.
Proof.
  intros Hkinds. unfold Ledger.merge_usage_data.
  set (u0 := Ledger.ensure_kind "lab" (Ledger.ensure_kind "theory" existing_usage)).
  assert (Hth : is_Some (u0 !! "theory")).
  { apply ensure_kind_lookup_other, ensure_kind_lookup_self. }
  assert (Hlab : is_Some (u0 !! "lab")) by apply ensure_kind_lookup_self.
  destruct (merge_loop_total new_allocations u0) as [merged Hm].
  { intros a Ha. destruct (Hkinds a Ha) as [->|[->|Hs]]; [done..|].
    by do 2 apply ensure_kind_lookup_other. }
  exists merged. split; [done|]. split; [|split].
  - intros kind r d s. rewrite (slots_at_merge_loop _ _ _ kind r d s Hm).
    unfold u0. by rewrite !slots_at_ensure_kind.
  - intros Hnd. eapply NoDup_merge_loop; [done|].
    intros k r d. unfold u0. by rewrite !slots_at_ensure_kind.
  - rewrite (ensure_kind_id "theory") by (by eapply merge_loop_keeps_kinds).
    rewrite (ensure_kind_id "lab") by (by eapply merge_loop_keeps_kinds).
    apply merge_loop_recorded_id. by eapply merge_loop_records.
Qed.

Lemma merge_usage_data_additive_witness :
  Ledger.kinds_known Ledger.example_usage Ledger.example_allocations
  ∧ ∃ merged,
      Ledger.merge_usage_data Ledger.example_usage Ledger.example_allocations
        = Some merged
      ∧ (∀ kind r d s,
           s ∈ Ledger.slots_at merged kind r d ↔
             s ∈ Ledger.slots_at Ledger.example_usage kind r d
             ∨ Ledger.allocated Ledger.example_allocations kind r d s)
      ∧ ((∀ kind r d, NoDup (Ledger.slots_at Ledger.example_usage kind r d)) →
         ∀ kind r d, NoDup (Ledger.slots_at merged kind r d))
      ∧ Ledger.merge_usage_data merged Ledger.example_allocations = Some merged.
Proof.
  assert (Hk : Ledger.kinds_known Ledger.example_usage Ledger.example_allocations).
  { intros a Ha. unfold Ledger.example_allocations in Ha.
    repeat (apply elem_of_cons in Ha as [->|Ha]); simpl; auto.
    by apply elem_of_nil in Ha. }
  split; [exact Hk|].
  exact (merge_usage_data_additive _ _ Hk).
Defined.

(** ** Teacher assignment *)

Section teacher.
Variable a : Teacher.assigner.

Lemma matching_slots_sublist pref asg slots m :
  Teacher.matching_slots (Teacher.subject_map a) pref asg slots = Some m →
  sublist m slots ∧ ∀ s, s ∈ m → Teacher.id s ∉ asg.
Proof.
  revert m. induction slots as [|slot rest IH]; intros m; simpl.
  - intros [= <-]. split; [constructor|]. intros s Hs. by apply elem_of_nil in Hs.
  - case_bool_decide as Hin.
    + intros Hm. destruct (IH _ Hm) as [Hsub Hnot].
      split; [by apply sublist_cons|done].
    + destruct (Teacher.subject_map a !! Teacher.subject_id slot) as [subj|]; [|done].
      destruct (Teacher.matching_slots _ pref asg rest) as [m'|]; [|done].
      destruct (IH _ eq_refl) as [Hsub Hnot].
      intros [= <-]. destruct (Teacher.slot_matches pref subj).
      * split; [by apply sublist_skip|].
        intros s Hs. apply elem_of_cons in Hs as [->|Hs]; auto.
      * split; [by apply sublist_cons|done].
Qed.

Lemma matching_slots_total pref asg slots :
  (∀ s, s ∈ slots → is_Some (Teacher.subject_map a !! Teacher.subject_id s)) →
  is_Some (Teacher.matching_slots (Teacher.subject_map a) pref asg slots).
Proof.
  induction slots as [|slot rest IH]; intros Hsub; simpl; [eauto|].
  destruct IH as [m Hm]; [intros s Hs; apply Hsub; by right|].
  case_bool_decide; [eauto|].
  destruct (Hsub slot) as [subj ->]; [by left|]. rewrite Hm. eauto.
Qed.

Lemma group_append_perm key slot groups :
  concat ((Teacher.group_append key slot groups).*2) ≡ₚ concat (groups.*2) ++ [slot].
Proof.
  induction groups as [|[k g] rest IH]; simpl; [done|].
  case_bool_decide; simpl.
  - by rewrite <- !(assoc_L (++)), (Permutation_app_comm [slot]).
  - by rewrite IH, (assoc_L (++)).
Qed.

Lemma section_groups_perm matching :
  concat ((Teacher.section_groups matching).*2) ≡ₚ matching.
Proof.
  unfold Teacher.section_groups.
  assert (Hgen : ∀ groups,
    concat ((foldl (λ groups slot,
               Teacher.group_append
                 (Teacher.section_id slot, Teacher.subject_id slot) slot groups)
             groups matching).*2) ≡ₚ concat (groups.*2) ++ matching).
  { induction matching as [|s rest IH]; intros groups; simpl.
    - by rewrite (right_id_L [] (++)).
    - rewrite IH, group_append_perm. by rewrite <- (assoc_L (++)). }
  by rewrite Hgen.
Qed.

(** The slots a preference may take: slots of the timetable, each once,
    none of them assigned so far. *)
Lemma find_matching_slots_spec pref asg matching :
  NoDup (Teacher.id <$> Teacher.timetable_slots a) →
  Teacher.find_matching_slots a pref asg = Some matching →
  NoDup (Teacher.id <$> matching) ∧ ∀ s, s ∈ matching → Teacher.id s ∉ asg.
Proof.
  intros Hnd. unfold Teacher.find_matching_slots.
  destruct (Teacher.matching_slots _ pref asg _) as [m|] eqn:Hm; [|done].
  intros [= <-]. destruct (matching_slots_sublist _ _ _ _ Hm) as [Hsub Hnot].
  split.
  - rewrite section_groups_perm.
    eapply sublist_NoDup; [done|by apply fmap_sublist].
  - intros s Hs. apply Hnot. by rewrite <- (section_groups_perm m).
Qed.

Local Abbreviation inv := (Teacher.inv a).

Lemma inv_initial : inv (Teacher.initial_state a).
Proof.
  split; simpl.
  - intros e He. by apply elem_of_nil in He.
  - constructor.
  - intros s t He. by apply elem_of_nil in He.
  - intros i j s1 s2 t Hi. by rewrite lookup_nil in Hi.
  - intros t Ht. split.
    + destruct (list_to_map _ !! t) eqn:Hl; [eauto|].
      apply not_elem_of_list_to_map_2 in Hl. exfalso. apply Hl.
      rewrite <- list_fmap_compose. apply list_elem_of_fmap. by exists t.
    + destruct (list_to_map _ !! t) eqn:Hl; [eauto|].
      apply not_elem_of_list_to_map_2 in Hl. exfalso. apply Hl.
      rewrite <- list_fmap_compose. apply list_elem_of_fmap. by exists t.
Qed.

Lemma assign_loop_inv tid needed matching : ∀ cnt st st1,
  inv st →
  NoDup (Teacher.id <$> matching) →
  (∀ s, s ∈ matching → Teacher.id s ∉ Teacher.assigned_slots st) →
  Teacher.assign_loop tid needed matching cnt st = Some st1 →
  inv st1 ∧ ∃ ext, Teacher.assignments_to_save st1
                   = Teacher.assignments_to_save st ++ ext.
Proof.
  induction matching as [|slot rest IH]; intros cnt st st1 Hinv Hnd Hfree; simpl.
  - intros [= <-]. split; [done|]. exists []. by rewrite (right_id_L [] (++)).
  - destruct (needed <=? cnt)%nat.
    { intros [= <-]. split; [done|]. exists []. by rewrite (right_id_L [] (++)). }
    destruct (Teacher.teacher_timeslots st !! tid) as [busy|] eqn:Hbusy; [|done].
    destruct (Teacher.teacher_workload st !! tid) as [load|] eqn:Hload; [|done].
    rewrite fmap_cons in Hnd. apply NoDup_cons in Hnd as [Hslot Hnd].
    case_bool_decide as Hclash.
    + intros Hloop. eapply IH; [done..| |done].
      intros s Hs. apply Hfree. by right.
    + intros Hloop. eapply IH in Hloop as [Hinv1 [ext Hext]]; [| |done|].
      * split; [done|]. exists ((slot, tid) :: ext). simpl in Hext.
        by rewrite Hext, <- (assoc_L (++)).
      * (* the invariant after assigning [slot] to [tid] *)
        destruct Hinv as [Ha Ho Hb Hc Hk]. split; simpl.
        -- intros e He. apply elem_of_app in He as [He|He].
           ++ apply elem_of_union. right. by apply Ha.
           ++ apply list_elem_of_singleton in He as ->. simpl.
              apply elem_of_union. left. by apply elem_of_singleton.
        -- rewrite fmap_app. apply NoDup_app. split; [done|]. split.
           ++ intros x Hx Hx'. simpl in Hx'. apply list_elem_of_singleton in Hx' as ->.
              apply list_elem_of_fmap in Hx as (e & Hid & He). simpl in Hid.
              apply (Hfree slot); [by left|]. rewrite Hid. by apply Ha.
           ++ simpl. apply NoDup_singleton.
        -- intros s t He. apply elem_of_app in He as [He|He].
           ++ destruct (Hb s t He) as (busy' & Hl & Hin).
              destruct (decide (t = tid)) as [->|Hne].
              ** rewrite lookup_insert_eq. eexists. split; [done|].
                 rewrite Hbusy in Hl. injection Hl as <-.
                 apply elem_of_union. by right.
              ** rewrite lookup_insert_ne by done. eauto.
           ++ apply list_elem_of_singleton in He as [= -> ->].
              rewrite lookup_insert_eq. eexists. split; [done|].
              apply elem_of_union. left. by apply elem_of_singleton.
        -- intros i j s1 s2 t Hi Hj Hij.
           assert (Hold : ∀ k s, Teacher.assignments_to_save st !! k = Some (s, tid) →
                                 Teacher.timeslot_id s ≠ Teacher.timeslot_id slot).
           { intros k s Hk' Heq. apply Hclash.
             destruct (Hb s tid) as (busy' & Hl & Hin).
             { by eapply list_elem_of_lookup_2. }
             rewrite Hbusy in Hl. injection Hl as <-. by rewrite <- Heq. }
           apply lookup_app_Some in Hi as [Hi|[Hi1 Hi2]];
             apply lookup_app_Some in Hj as [Hj|[Hj1 Hj2]].
           ++ by eapply Hc.
           ++ apply list_lookup_singleton_Some in Hj2 as [Hj2 [= -> ->]].
              by eapply Hold.
           ++ apply list_lookup_singleton_Some in Hi2 as [Hi2 [= -> ->]].
              intros Heq. by eapply Hold.
           ++ apply list_lookup_singleton_Some in Hi2 as [Hi2 _].
              apply list_lookup_singleton_Some in Hj2 as [Hj2 _]. lia.
        -- intros t Ht. destruct (Hk t Ht) as [H1 H2]. split.
           ++ destruct (decide (tid = t)) as [->|Hne];
                [rewrite lookup_insert_eq; eauto | by rewrite lookup_insert_ne].
           ++ destruct (decide (tid = t)) as [->|Hne];
                [rewrite lookup_insert_eq; eauto | by rewrite lookup_insert_ne].
      * simpl. intros s Hs Hin. apply elem_of_union in Hin as [Hin|Hin].
        -- apply elem_of_singleton in Hin. apply Hslot.
           rewrite <- Hin. apply list_elem_of_fmap. by exists s.
        -- apply (Hfree s); [by right|done].
Qed.

Lemma assign_loop_total tid needed matching : ∀ cnt st,
  inv st → tid ∈ Teacher.teachers a →
  is_Some (Teacher.assign_loop tid needed matching cnt st).
Proof.
  induction matching as [|slot rest IH]; intros cnt st Hinv Ht; simpl; [eauto|].
  destruct (needed <=? cnt)%nat; [eauto|].
  destruct (Teacher.inv_keys a st Hinv tid Ht) as [[busy Hb] [load Hl]].
  rewrite Hb, Hl. case_bool_decide; [by apply IH|].
  (* totality only needs the dict keys, which an assignment keeps *)
  revert IH. generalize (S cnt). intros cnt' IH.
  clear -IH Hinv Ht Hb Hl.
  assert (Hkeys : ∀ st', (∀ t, t ∈ Teacher.teachers a →
               is_Some (Teacher.teacher_timeslots st' !! t)
               ∧ is_Some (Teacher.teacher_workload st' !! t)) →
            ∀ cnt, is_Some (Teacher.assign_loop tid needed rest cnt st')).
  { clear IH Hinv Hb Hl busy load st slot.
    induction rest as [|s r IHr]; intros st' Hk cnt; simpl; [eauto|].
    destruct (needed <=? cnt)%nat; [eauto|].
    destruct (Hk tid Ht) as [[busy Hb] [load Hl]]. rewrite Hb, Hl.
    case_bool_decide; [by apply IHr|]. apply IHr. simpl.
    intros t Ht'. destruct (Hk t Ht') as [H1 H2]. split.
    - destruct (decide (tid = t)) as [->|Hne];
        [rewrite lookup_insert_eq; eauto | by rewrite lookup_insert_ne].
    - destruct (decide (tid = t)) as [->|Hne];
        [rewrite lookup_insert_eq; eauto | by rewrite lookup_insert_ne]. }
  apply Hkeys. simpl. intros t Ht'.
  destruct (Teacher.inv_keys a st Hinv t Ht') as [H1 H2]. split.
  - destruct (decide (tid = t)) as [->|Hne];
      [rewrite lookup_insert_eq; eauto | by rewrite lookup_insert_ne].
  - destruct (decide (tid = t)) as [->|Hne];
      [rewrite lookup_insert_eq; eauto | by rewrite lookup_insert_ne].
Qed.

Hypothesis Hwf : Teacher.well_formed a.

Lemma process_preference_inv st pref st1 :
  inv st →
  Teacher.process_preference a st pref = Some st1 →
  inv st1 ∧ ∃ ext, Teacher.assignments_to_save st1
                   = Teacher.assignments_to_save st ++ ext.
Proof.
  intros Hinv. unfold Teacher.process_preference.
  destruct (Teacher.teacher_timeslots st !! Teacher.teacher_id pref); [|done].
  destruct (Teacher.find_matching_slots a pref _) as [matching|] eqn:Hm; [|done].
  destruct (find_matching_slots_spec _ _ _ (Teacher.wf_slot_ids a Hwf) Hm)
    as [Hnd Hfree].
  by apply assign_loop_inv.
Qed.

Lemma process_preference_total st pref :
  inv st → pref ∈ Teacher.preferences a →
  is_Some (Teacher.process_preference a st pref).
Proof.
  intros Hinv Hp. unfold Teacher.process_preference.
  pose proof (Teacher.wf_teachers a Hwf pref Hp) as Ht.
  destruct (Teacher.inv_keys a st Hinv _ Ht) as [[busy ->] _].
  unfold Teacher.find_matching_slots.
  destruct (matching_slots_total pref (Teacher.assigned_slots st)
              (Teacher.timetable_slots a) (Teacher.wf_subjects a Hwf)) as [m ->].
  by apply assign_loop_total.
Qed.

Lemma process_preferences_inv prefs : ∀ st st1,
  inv st →
  Teacher.process_preferences a st prefs = Some st1 →
  inv st1 ∧ ∃ ext, Teacher.assignments_to_save st1
                   = Teacher.assignments_to_save st ++ ext.
Proof.
  induction prefs as [|pref rest IH]; intros st st1 Hinv; simpl.
  - intros [= <-]. split; [done|]. exists []. by rewrite (right_id_L [] (++)).
  - destruct (Teacher.process_preference a st pref) as [st2|] eqn:Hp; [|done].
    destruct (process_preference_inv _ _ _ Hinv Hp) as [Hinv2 [ext2 Hext2]].
    intros Hrest. destruct (IH _ _ Hinv2 Hrest) as [Hinv1 [ext1 Hext1]].
    split; [done|]. exists (ext2 ++ ext1).
    by rewrite Hext1, Hext2, (assoc_L (++)).
Qed.

Lemma process_preferences_total prefs : ∀ st,
  inv st → (∀ p, p ∈ prefs → p ∈ Teacher.preferences a) →
  is_Some (Teacher.process_preferences a st prefs).
Proof.
  induction prefs as [|pref rest IH]; intros st Hinv Hsub; simpl; [eauto|].
  destruct (process_preference_total st pref Hinv) as [st2 Hp]; [apply Hsub; by left|].
  rewrite Hp. apply IH.
  - by destruct (process_preference_inv _ _ _ Hinv Hp).
  - intros p Hp'. apply Hsub. by right.
Qed.

Lemma process_preferences_app prefs1 prefs2 st :
  Teacher.process_preferences a st (prefs1 ++ prefs2) =
    match Teacher.process_preferences a st prefs1 with
    | None => None
    | Some st1 => Teacher.process_preferences a st1 prefs2
    end.
Proof.
  revert st. induction prefs1 as [|p rest IH]; intros st; simpl; [done|].
  destruct (Teacher.process_preference a st p); [apply IH|done].
Qed.

End teacher.

Lemma insert_sorted_elem p q l : q ∈ Teacher.insert_sorted p l ↔ q = p ∨ q ∈ l.
Proof.
  induction l as [|x rest IH]; simpl.
  - rewrite list_elem_of_singleton. split; [by left|].
    intros [?|H]; [done|]. by apply elem_of_nil in H.
  - destruct (Teacher.key_le p x).
    + by rewrite elem_of_cons.
    + rewrite !elem_of_cons, IH. tauto.
Qed.

Lemma sort_preferences_elem q prefs :
  q ∈ Teacher.sort_preferences_by_priority prefs ↔ q ∈ prefs.
Proof.
  unfold Teacher.sort_preferences_by_priority.
  induction prefs as [|p rest IH]; simpl; [done|].
  by rewrite insert_sorted_elem, elem_of_cons, IH.
Qed.

Lemma teacher_of_app st st1 ext sid t :
  Teacher.assignments_to_save st1 = Teacher.assignments_to_save st ++ ext →
  Teacher.teacher_of st sid = Some t → Teacher.teacher_of st1 sid = Some t.
Proof.
  unfold Teacher.teacher_of. intros -> Hfind.
  destruct (list_find _ (Teacher.assignments_to_save st)) as [[i e]|] eqn:Hf; [|done].
  simpl in Hfind. injection Hfind as <-.
  erewrite list_find_app_l; [done|]. by rewrite Hf.
Qed.


Lemma example_assigner_well_formed : Teacher.well_formed Teacher.example_assigner.
Proof.
  split.
  - apply (bool_decide_unpack _); vm_compute; exact I.
  - intros p Hp. unfold Teacher.example_assigner in Hp. simpl in Hp.
    repeat (apply elem_of_cons in Hp as [->|Hp]); simpl;
      [apply (bool_decide_unpack _); vm_compute; exact I ..|by apply elem_of_nil in Hp].
  - intros s Hs. unfold Teacher.example_assigner in Hs. simpl in Hs.
    repeat (apply elem_of_cons in Hs as [->|Hs]); simpl;
      [apply (bool_decide_unpack _); vm_compute; exact I ..|by apply elem_of_nil in Hs].
Defined.


(** ** Sums of Boolean variables *)

Lemma b2z_range b : 0 ≤ b2z b ≤ 1.
Proof. destruct b; simpl; lia. Qed.

Lemma sumZ_cons x l : sumZ (x :: l) = x + sumZ l.
Proof. done. Qed.

Lemma sumZ_app l1 l2 : sumZ (l1 ++ l2) = sumZ l1 + sumZ l2.
Proof. induction l1 as [|x l1 IH]; simpl; [done|]. rewrite IH. lia. Qed.

Lemma sumZ_nonneg l : Forall (λ x, 0 ≤ x) l → 0 ≤ sumZ l.
Proof. induction 1; simpl; lia. Qed.

Lemma sumZ_b2z_nonneg {A} (f : A → bool) l : 0 ≤ sumZ ((λ x, b2z (f x)) <$> l).
Proof.
  apply sumZ_nonneg, Forall_fmap, Forall_forall. intros x _. simpl.
  apply b2z_range.
Qed.

(** A sum of 0/1 values counts the variables that are set. *)
Lemma sumZ_b2z_filter {A} (f : A → bool) (l : list A) :
  sumZ ((λ x, b2z (f x)) <$> l) = Z.of_nat (length (filter (λ x, f x = true) l)).
Proof.
  induction l as [|x l IH]; [done|].
  rewrite fmap_cons, filter_cons, sumZ_cons, IH.
  destruct (decide (f x = true)) as [Hx|Hx].
  - rewrite Hx, length_cons. simpl b2z. lia.
  - apply not_true_is_false in Hx. rewrite Hx. simpl b2z. lia.
Qed.

Lemma elem_of_range c i : i ∈ range c ↔ 0 ≤ i < c.
Proof.
  unfold range. rewrite list_elem_of_fmap. split.
  - intros (n & -> & Hn). apply elem_of_seq in Hn. lia.
  - intros Hi. exists (Z.to_nat i). split; [lia|]. apply elem_of_seq. lia.
Qed.

(** A dict filled in a loop with values that depend on the key only. *)
Lemma lookup_foldl_insert `{Countable K} {A B} (k : B → K) (g : K → A)
    (l : list B) (m0 : gmap K A) (key : K) :
  foldl (λ m x, <[k x := g (k x)]> m) m0 l !! key =
    if bool_decide (key ∈ k <$> l) then Some (g key) else m0 !! key.
Proof.
  revert m0. induction l as [|x l IH]; intros m0; [done|].
  cbn [foldl]. rewrite IH, fmap_cons.
  destruct (decide (key ∈ k <$> l)) as [Hin|Hnin].
  - rewrite (bool_decide_eq_true_2 _ Hin).
    rewrite bool_decide_eq_true_2; [done|by right].
  - rewrite (bool_decide_eq_false_2 _ Hnin).
    destruct (decide (key = k x)) as [->|Hne].
    + rewrite lookup_insert_eq. rewrite bool_decide_eq_true_2; [done|left].
    + rewrite lookup_insert_ne by done.
      rewrite bool_decide_eq_false_2; [done|].
      rewrite elem_of_cons. naive_solver.
Qed.

(** ** Elective CP model *)

Lemma elem_of_sections inp elec idx :
  (elec, idx) ∈ Electives.sections inp ↔
    elec ∈ Electives.electives_list inp ∧ 0 ≤ idx < Electives.sections_count elec.
Proof.
  unfold Electives.sections. rewrite list_elem_of_bind. split.
  - intros (e & Hin & He). apply list_elem_of_fmap in Hin as (i & [= -> ->] & Hi).
    by apply elem_of_range in Hi.
  - intros [He Hi]. exists elec. split; [|done].
    apply list_elem_of_fmap. exists idx. split; [done|]. by apply elem_of_range.
Qed.

Lemma electives_schedule_map_lookup inp v elec idx :
  (elec, idx) ∈ Electives.sections inp →
  Electives.schedule_map_of inp v !! (Electives.code elec, idx)
    = Some (Electives.assigned_slots inp v (Electives.code elec) idx).
Proof.
  intros Hin. unfold Electives.schedule_map_of.
  rewrite (lookup_foldl_insert
             (λ ei : Electives.elective * Z, (Electives.code ei.1, ei.2))
             (λ key, Electives.assigned_slots inp v key.1 key.2)).
  rewrite bool_decide_eq_true_2; [done|].
  apply list_elem_of_fmap. by exists (elec, idx).
Qed.

Lemma electives_schedule_map_values inp v key slots :
  Electives.schedule_map_of inp v !! key = Some slots →
  slots = Electives.assigned_slots inp v key.1 key.2.
Proof.
  unfold Electives.schedule_map_of.
  rewrite (lookup_foldl_insert
             (λ ei : Electives.elective * Z, (Electives.code ei.1, ei.2))
             (λ key, Electives.assigned_slots inp v key.1 key.2)).
  case_bool_decide; [|by rewrite lookup_empty]. by intros [= <-].
Qed.

Lemma filter_fmap_all {A B} (f : A → B) (P : B → Prop) `{∀ x, Decision (P x)}
    (l : list A) :
  (∀ x, P (f x)) → filter P (f <$> l) = f <$> l.
Proof.
  intros HP. induction l as [|x l IH]; [done|].
  rewrite fmap_cons, filter_cons, decide_True by done. by rewrite IH.
Qed.

Lemma filter_fmap_none {A B} (f : A → B) (P : B → Prop) `{∀ x, Decision (P x)}
    (l : list A) :
  (∀ x, ¬ P (f x)) → filter P (f <$> l) = [].
Proof.
  intros HP. induction l as [|x l IH]; [done|].
  rewrite fmap_cons, filter_cons, decide_False by done. by rewrite IH.
Qed.

Lemma count_theory_assigned inp v e_code idx :
  Electives.count_kind "theory" (Electives.assigned_slots inp v e_code idx) =
    sumZ ((λ c, b2z (Electives.assign v (Electives.key_of e_code idx "theory" c)))
          <$> Electives.theory_combos inp).
Proof.
  unfold Electives.count_kind, Electives.assigned_slots.
  rewrite filter_app, filter_fmap_all, filter_fmap_none by done.
  rewrite (right_id_L [] (++)), length_fmap.
  by rewrite (sumZ_b2z_filter
                (λ c, Electives.assign v (Electives.key_of e_code idx "theory" c))).
Qed.

Lemma count_lab_assigned inp v e_code idx :
  Electives.count_kind "lab" (Electives.assigned_slots inp v e_code idx) =
    sumZ ((λ c, b2z (Electives.assign v (Electives.key_of e_code idx "lab" c)))
          <$> Electives.lab_combos inp).
Proof.
  unfold Electives.count_kind, Electives.assigned_slots.
  rewrite filter_app, filter_fmap_none, filter_fmap_all by done.
  rewrite (left_id_L [] (++)), length_fmap.
  by rewrite (sumZ_b2z_filter
                (λ c, Electives.assign v (Electives.key_of e_code idx "lab" c))).
Qed.

(** With pairwise distinct elective codes no section is created twice, so
    every section carries the constraints of its creation. *)
Lemma creation_loop_elim inp v electives elec idx :
  NoDup (Electives.code <$> electives) →
  Electives.creation_loop inp v electives →
  elec ∈ electives → 0 ≤ idx < Electives.sections_count elec →
  Electives.creation_constraints inp v elec idx.
Proof.
  induction electives as [|e later IH]; intros Hnd Hloop Hin Hidx.
  - by apply elem_of_nil in Hin.
  - rewrite fmap_cons in Hnd. apply NoDup_cons in Hnd as [Hfresh Hnd].
    destruct Hloop as [Hhere Hlater].
    apply elem_of_cons in Hin as [->|Hin]; [|by apply IH].
    rewrite Forall_forall in Hhere. apply Hhere; [by apply elem_of_range|].
    unfold Electives.recreated. rewrite Exists_exists.
    intros (e' & He' & Hcode & _). apply Hfresh.
    rewrite <- Hcode. apply list_elem_of_fmap. by exists e'.
Qed.

Lemma theory_combos_not_blackout inp r d ts :
  (r, d, ts) ∈ Electives.theory_combos inp → friday_slot3 d ts = false.
Proof.
  unfold Electives.theory_combos. rewrite list_elem_of_bind.
  intros (r' & Hin & _). apply list_elem_of_bind in Hin as (d' & Hin & _).
  apply list_elem_of_bind in Hin as (ts' & Hin & _).
  destruct (friday_slot3 d' ts') eqn:Hb; [by apply elem_of_nil in Hin|].
  destruct (Electives.used inp "theory" (r', d', ts'));
    [by apply elem_of_nil in Hin|].
  by apply list_elem_of_singleton in Hin as [= -> -> ->].
Qed.

Lemma friday_slot3_true d t : friday_slot3 d t = true ↔ d = "Friday" ∧ t = 3.
Proof.
  unfold friday_slot3. rewrite andb_true_iff, String.eqb_eq, Z.eqb_eq. done.
Qed.

Lemma friday_slot3_false d t : friday_slot3 d t = false ↔ ¬ (d = "Friday" ∧ t = 3).
Proof. rewrite <- friday_slot3_true. by destruct (friday_slot3 d t). Qed.

Lemma electives_theory_slot_not_blackout inp v e_code idx r d ts :
  ("theory", r, d, ts) ∈ Electives.assigned_slots inp v e_code idx →
  ¬ (d = "Friday" ∧ ts = 3).
Proof.
  unfold Electives.assigned_slots. rewrite elem_of_app. intros [Hin|Hin].
  - apply list_elem_of_fmap in Hin as ([[r' d'] ts'] & [= -> -> ->] & Hin).
    apply list_elem_of_filter in Hin as [_ Hin].
    apply friday_slot3_false. by eapply theory_combos_not_blackout.
  - by apply list_elem_of_fmap in Hin as ([[r' d'] ts'] & [=] & _).
Qed.

(** C5: in a schedule returned by [schedule_electives] every elective
    section realises one mode: it holds exactly [theory_needed] theory slots
    and no lab slot, or exactly [lab_needed] lab slots and no theory slot
    (never both, unless both counts are zero); with pairwise distinct
    elective codes, a section of an elective that cannot use theory rooms is
    placed as lab and one that cannot use labs is placed as theory. *)
Theorem elective_section_one_mode solve (inp : Electives.input) schedule_map allocs :
  Electives.sound solve →
  Electives.schedule_electives solve inp = Return (schedule_map, allocs) →
  ∀ elec idx,
    elec ∈ Electives.electives_list inp →
    0 ≤ idx < Electives.sections_count elec →
    ∃ slots,
      schedule_map !! (Electives.code elec, idx) = Some slots
      ∧ let as_theory :=
          Electives.count_kind "theory" slots = Electives.theory_needed inp
          ∧ Electives.count_kind "lab" slots = 0 in
        let as_lab :=
          Electives.count_kind "lab" slots = Electives.lab_needed inp
          ∧ Electives.count_kind "theory" slots = 0 in
        (as_theory ∨ as_lab)
        ∧ (Electives.theory_needed inp ≠ 0 ∨ Electives.lab_needed inp ≠ 0 →
           ¬ (as_theory ∧ as_lab))
        ∧ (NoDup (Electives.code <$> Electives.electives_list inp) →
           (Electives.can_theory elec = false → as_lab)
           ∧ (Electives.can_lab elec = false → as_theory)).
Proof.
  intros Hsound Hrun elec idx Helec Hidx.
  unfold Electives.schedule_electives in Hrun.
  destruct (Electives.usage_data inp !! "theory"); [|done].
  destruct (Electives.usage_data inp !! "lab"); [|done].
  destruct (solve _) as [v|] eqn:Hsolve; [|done].
  injection Hrun as <- <-.
  apply Hsound, bool_decide_eq_true in Hsolve.
  destruct Hsolve as (Hcreate & _ & Htimes & _).
  assert (Hsec : (elec, idx) ∈ Electives.sections inp) by by apply elem_of_sections.
  rewrite Forall_forall in Htimes. specialize (Htimes _ Hsec).
  destruct Htimes as [Hth Hlab]. simpl in Hth, Hlab.
  eexists. split; [by apply electives_schedule_map_lookup|].
  cbn zeta. rewrite count_theory_assigned, count_lab_assigned, Hth, Hlab.
  pose proof (b2z_range (Electives.choose_theory v (Electives.code elec, idx))) as Hc.
  split; [|split].
  - destruct (Electives.choose_theory v (Electives.code elec, idx)); simpl; [left|right]; lia.
  - intros Hneed [[H1 H2] [H3 H4]]. lia.
  - intros Hnd.
    pose proof (creation_loop_elim _ _ _ _ _ Hnd Hcreate Helec Hidx)
      as (Hno_th & Hno_lab & _).
    split.
    + intros Hcan. rewrite (Hno_th Hcan). lia.
    + intros Hcan. rewrite (Hno_lab Hcan). lia.
Qed.

Lemma electives_solve_with_sound v : Electives.sound (Electives.solve_with v).
Proof.
  intros m v'. unfold Electives.solve_with.
  destruct (m v) eqn:Hm; [|done]. by intros [= <-].
Qed.

Lemma elective_section_one_mode_witness :
  ∃ slots,
    Electives.schedule_map_of Electives.example_input Electives.example_valuation
      !! ("E2", 0) = Some slots
    ∧ Electives.count_kind "lab" slots = 1
    ∧ Electives.count_kind "theory" slots = 0.
Proof.
  destruct (elective_section_one_mode
              (Electives.solve_with Electives.example_valuation)
              Electives.example_input
              (Electives.schedule_map_of Electives.example_input
                 Electives.example_valuation)
              (Electives.new_allocations_of Electives.example_input
                 Electives.example_valuation)
              (electives_solve_with_sound _)
              ltac:(vm_compute; reflexivity)
              (Electives.Elective "E2" 1 false true) 0
              ltac:(apply (bool_decide_unpack _); vm_compute; exact I)
              ltac:(simpl; lia))
    as (slots & Hlookup & _ & _ & Hcan).
  exists slots. split; [exact Hlookup|].
  apply Hcan; [apply (bool_decide_unpack _); vm_compute; exact I | reflexivity].
Defined.

(** ** Main CP model: the capacity check *)

Lemma build_sections_no_value_error inp sems message :
  Solver.build_sections inp sems ≠ inl (ValueError message).
Proof.
  induction sems as [|sem rest IH]; simpl; [done|].
  destruct (Solver.section_sizes inp !! sem); [|done].
  unfold Utils.build_sections_for_semester, Utils.ceil_div, true_div.
  destruct (_ =? 0); [done|]. cbn zeta.
  destruct (_ =? 0); [|destruct (_ && _); [done|]];
    (destruct (Solver.build_sections inp rest) as [e|m]; [|done];
     intros [= ->]; by apply IH).
Qed.

Lemma model_errors_no_value_error inp ssm message :
  Solver.model_errors inp ssm ≠ Some (ValueError message).
Proof.
  unfold Solver.model_errors.
  repeat (case_bool_decide || case_match); done.
Qed.

(** The loop of step 3 over the selected semesters adds up the rows of a
    kind. *)
Lemma needed_slots_resolved inp :
  (∀ sem, sem ∈ Solver.selected_semesters inp →
          is_Some (Solver.semester_courses_map inp !! sem)) →
  Solver.needed_slots (Solver.semester_courses_map inp)
    (Solver.selected_semesters inp)
  = Some (Capacity.needed inp false, Capacity.needed inp true).
Proof.
  unfold Capacity.needed, Capacity.selected_rows, Solver.courses_of.
  induction (Solver.selected_semesters inp) as [|sem rest IH]; intros Hres;
    simpl; [done|].
  destruct (Hres sem ltac:(left)) as [courses Hc]. rewrite Hc. simpl.
  rewrite IH by (intros sem' Hin; apply Hres; by right).
  by rewrite !filter_app, !fmap_app, !sumZ_app.
Qed.

Lemma length_bind_sumZ {A B} (f : A → list B) (l : list A) :
  Z.of_nat (length (l ≫= f)) = sumZ ((λ x, Z.of_nat (length (f x))) <$> l).
Proof.
  induction l as [|x l IH]; [done|].
  rewrite bind_cons, length_app, Nat2Z.inj_add, IH. done.
Qed.

(** The nested loops of step 3 count the entries of the ledger. *)
Lemma used_entries_length usage kind rooms :
  usage !! kind = Some rooms →
  Solver.used_entries rooms = Z.of_nat (length (Capacity.entries usage kind)).
Proof.
  intros Hk. unfold Solver.used_entries, Capacity.entries. rewrite Hk. simpl.
  rewrite length_bind_sumZ, <- list_fmap_compose. f_equal.
  apply list_fmap_ext. intros _ [r days] _. simpl.
  rewrite length_bind_sumZ, <- list_fmap_compose. f_equal.
  apply list_fmap_ext. intros _ [d slots] _. simpl.
  by rewrite length_fmap.
Qed.

(** [list(set(normal_labs) | all_special_labs)] has one element for each
    lab room name. *)
Lemma length_combined_labs inp :
  length (Solver.combined_labs inp) = size (Capacity.lab_room_names inp).
Proof.
  unfold Solver.combined_labs, Capacity.lab_room_names.
  rewrite <- (size_list_to_set (C := gset string)) by apply NoDup_remove_dups.
  f_equal. apply set_eq. intros x.
  rewrite elem_of_list_to_set, elem_of_remove_dups, elem_of_app, elem_of_union,
    !elem_of_list_to_set.
  unfold Solver.normal_labs. rewrite list_elem_of_filter.
  destruct (decide (x ∈ Solver.all_special_labs inp)); naive_solver.
Qed.

(** C4: once the ledger and the roadmap resolve, [schedule_timetable]
    raises the capacity error, a [ValueError] whose message names the kind
    and the shortfall, exactly when the needed theory slots exceed the free
    theory slots (capacity minus the entries of the ledger) or the needed
    lab slots exceed the free lab slots.  It is raised whatever the solver
    is: no model is built, no solver is called.  Without a shortfall the
    function raises no [ValueError] at all, so the capacity error is told
    from every other failure. *)
Theorem capacity_error_iff solve (inp : Solver.input) :
  is_Some (Solver.usage_data inp !! "theory") →
  is_Some (Solver.usage_data inp !! "lab") →
  (∀ sem, sem ∈ Solver.selected_semesters inp →
          is_Some (Solver.semester_courses_map inp !! sem)) →
  let needed_theory := Capacity.needed inp false in
  let needed_lab := Capacity.needed inp true in
  let free_theory := Capacity.free_theory inp in
  let free_lab := Capacity.free_lab inp in
  (needed_theory > free_theory →
   Solver.schedule_timetable solve inp
     = Raise (ValueError (Solver.capacity_message "THEORY" needed_theory free_theory)))
  ∧ (needed_theory ≤ free_theory → needed_lab > free_lab →
     Solver.schedule_timetable solve inp
       = Raise (ValueError (Solver.capacity_message "LAB" needed_lab free_lab)))
  ∧ (needed_theory ≤ free_theory → needed_lab ≤ free_lab →
     ∀ message, Solver.schedule_timetable solve inp ≠ Raise (ValueError message))
  ∧ ((needed_theory > free_theory ∨ needed_lab > free_lab) ↔
     ∃ message, Solver.schedule_timetable solve inp = Raise (ValueError message)).
Proof.
  intros [theory_usage Hth] [lab_usage Hlab] Hres
    needed_theory needed_lab free_theory free_lab.
  assert (Hft : Solver.available_theory inp theory_usage = free_theory).
  { unfold Solver.available_theory, free_theory, Capacity.free_theory.
    cbn zeta. by rewrite (used_entries_length _ "theory" _ Hth). }
  assert (Hfl : Solver.available_lab inp lab_usage = free_lab).
  { unfold Solver.available_lab, free_lab, Capacity.free_lab.
    cbn zeta. by rewrite (used_entries_length _ "lab" _ Hlab), length_combined_labs. }
  assert (Hcheck : Solver.capacity_check inp =
    if needed_theory >? free_theory
    then Some (ValueError (Solver.capacity_message "THEORY" needed_theory free_theory))
    else if needed_lab >? free_lab
    then Some (ValueError (Solver.capacity_message "LAB" needed_lab free_lab))
    else None).
  { unfold Solver.capacity_check.
    by rewrite Hth, Hlab, (needed_slots_resolved inp Hres), Hft, Hfl. }
  assert (Hnone : needed_theory ≤ free_theory → needed_lab ≤ free_lab →
            ∀ message, Solver.schedule_timetable solve inp ≠ Raise (ValueError message)).
  { intros Ht Hl message. unfold Solver.schedule_timetable. rewrite Hcheck.
    destruct (Z.gtb_spec needed_theory free_theory); [lia|].
    destruct (Z.gtb_spec needed_lab free_lab); [lia|].
    destruct (Solver.build_sections inp _) as [e|ssm] eqn:Hb.
    { intros [= ->]. by eapply build_sections_no_value_error. }
    destruct (Solver.model_errors inp ssm) as [e|] eqn:He.
    { intros [= ->]. by eapply model_errors_no_value_error. }
    case_bool_decide; [|done]. by destruct (solve _). }
  assert (Hone : needed_theory > free_theory →
            Solver.schedule_timetable solve inp
            = Raise (ValueError (Solver.capacity_message "THEORY" needed_theory free_theory))).
  { intros Hshort. unfold Solver.schedule_timetable. rewrite Hcheck.
    by rewrite (proj2 (Z.gtb_lt _ _)) by lia. }
  assert (Htwo : needed_theory ≤ free_theory → needed_lab > free_lab →
            Solver.schedule_timetable solve inp
            = Raise (ValueError (Solver.capacity_message "LAB" needed_lab free_lab))).
  { intros Hok Hshort. unfold Solver.schedule_timetable. rewrite Hcheck.
    destruct (Z.gtb_spec needed_theory free_theory); [lia|].
    by rewrite (proj2 (Z.gtb_lt _ _)) by lia. }
  split; [done|]. split; [done|]. split; [done|]. split.
  - intros [Ht|Hl].
    + eexists. by apply Hone.
    + destruct (Z.le_gt_cases needed_theory free_theory) as [Ht|Ht].
      * eexists. by apply Htwo.
      * eexists. apply Hone. lia.
  - intros (message & Hrun).
    destruct (Z.le_gt_cases needed_theory free_theory) as [Ht|Ht]; [|left; lia].
    destruct (Z.le_gt_cases needed_lab free_lab) as [Hl|Hl]; [|right; lia].
    by destruct (Hnone Ht Hl message).
Qed.

Lemma capacity_error_iff_witness :
  Solver.schedule_timetable (Solver.solve_with Solver.base_valuation)
    Solver.crowded_input
  = Raise (ValueError "Not enough free THEORY slots. Need=50, Have=40.")
  ∧ Solver.schedule_timetable (Solver.solve_with Solver.base_valuation)
      Capacity.crowded_lab_input
    = Raise (ValueError "Not enough free LAB slots. Need=25, Have=24.").
Proof.
  split.
  - refine (proj1 (capacity_error_iff (Solver.solve_with Solver.base_valuation)
              Solver.crowded_input _ _ _) _).
    + vm_compute. eauto.
    + vm_compute. eauto.
    + intros sem Hsem. apply list_elem_of_singleton in Hsem as ->.
      vm_compute. eauto.
    + vm_compute. reflexivity.
  - refine (proj1 (proj2 (capacity_error_iff (Solver.solve_with Solver.base_valuation)
              Capacity.crowded_lab_input _ _ _)) _ _).
    + vm_compute. eauto.
    + vm_compute. eauto.
    + intros sem Hsem. apply list_elem_of_singleton in Hsem as ->.
      vm_compute. eauto.
    + vm_compute. discriminate.
    + vm_compute. reflexivity.
Defined.

(** ** Main CP model: classes after the cutoff hour *)

(** C7 fails for labs.  The cutoff loop decides the kind of a key by
    [slot in THEORY_TIMESLOTS], and the lab indices 0..3 are theory indices
    too: a lab variable is measured against the end of the theory slot of
    the same index.  With no classes after 10:00, the lab slot 0 (08:00 to
    10:30, end minute 630) stays allowed because the theory slot 0 ends at
    09:15, and the returned schedule holds a class that ends after 600. *)
Theorem cutoff_lab_escapes :
  ∃ sched,
    Solver.schedule_timetable (Solver.solve_with Solver.cutoff_valuation)
      Solver.cutoff_input = Return sched
    ∧ Solver.noClassesAfterHour (Solver.constraints Solver.cutoff_input) = Some 10
    ∧ ∃ a, a ∈ Solver.new_allocations sched
           ∧ rtype a = "lab"
           ∧ Solver.lab_end_times (slot a) = Some 630
           ∧ 630 > 10 * 60.
Proof.
  eexists. split; [vm_compute; reflexivity|]. split; [reflexivity|].
  eexists. split; [left|]. repeat split.
Qed.

(** ** Main CP model: sums over keys *)

Lemma sumZ_bind {A B} (f : B → Z) (g : A → list B) (l : list A) :
  sumZ (f <$> (l ≫= g)) = sumZ ((λ x, sumZ (f <$> g x)) <$> l).
Proof.
  induction l as [|x l IH]; [done|].
  rewrite bind_cons, fmap_app, sumZ_app, fmap_cons, sumZ_cons. by rewrite IH.
Qed.

Lemma sumZ_ge_elem {A} (f : A → Z) (l : list A) x :
  (∀ y, 0 ≤ f y) → x ∈ l → f x ≤ sumZ (f <$> l).
Proof.
  intros Hf. induction l as [|z l IH]; intros Hx; [by apply elem_of_nil in Hx|].
  rewrite fmap_cons, sumZ_cons. apply elem_of_cons in Hx as [->|Hx].
  - assert (0 ≤ sumZ (f <$> l)); [|lia].
    apply sumZ_nonneg, Forall_fmap, Forall_forall. intros y _. apply Hf.
  - specialize (IH Hx). specialize (Hf z). lia.
Qed.

Lemma sumZ_ge_two {A} (f : A → Z) (l : list A) x y :
  (∀ z, 0 ≤ f z) → x ∈ l → y ∈ l → x ≠ y → f x + f y ≤ sumZ (f <$> l).
Proof.
  intros Hf. induction l as [|z l IH]; intros Hx Hy Hne;
    [by apply elem_of_nil in Hx|].
  rewrite fmap_cons, sumZ_cons.
  apply elem_of_cons in Hx as [->|Hx]; apply elem_of_cons in Hy as [->|Hy].
  - done.
  - pose proof (sumZ_ge_elem f l y Hf Hy). lia.
  - pose proof (sumZ_ge_elem f l x Hf Hx). lia.
  - specialize (IH Hx Hy Hne). specialize (Hf z). lia.
Qed.

(** Termwise bounded sums that agree have equal terms. *)
Lemma sumZ_pointwise_eq {A} (f g : A → Z) (l : list A) :
  Forall (λ x, f x ≤ g x) l →
  sumZ (f <$> l) = sumZ (g <$> l) →
  Forall (λ x, f x = g x) l.
Proof.
  induction 1 as [|x l Hx Hl IH]; intros Hsum; [constructor|].
  rewrite !fmap_cons, !sumZ_cons in Hsum.
  assert (Hle : sumZ (f <$> l) ≤ sumZ (g <$> l)).
  { clear -Hl. induction Hl as [|y l Hy Hl IH]; [done|].
    rewrite !fmap_cons, !sumZ_cons. lia. }
  constructor; [lia|]. apply IH. lia.
Qed.

Lemma term_range v keys k : 0 ≤ Solver.term v keys k ≤ 1.
Proof.
  unfold Solver.term. case_bool_decide; [apply b2z_range|lia].
Qed.

Lemma term_one v keys k :
  Solver.term v keys k = 1 ↔ k ∈ keys ∧ Solver.assign v k = true.
Proof.
  unfold Solver.term. case_bool_decide as Hin.
  - destruct (Solver.assign v k); simpl; naive_solver.
  - split; [lia|naive_solver].
Qed.

(** A sum of terms counts the chosen keys. *)
Lemma sumZ_term_filter v keys (l : list Solver.akey) :
  sumZ (Solver.term v keys <$> l) =
    Z.of_nat (length (filter (λ k, k ∈ keys ∧ Solver.assign v k = true) l)).
Proof.
  induction l as [|k l IH]; [done|].
  rewrite fmap_cons, filter_cons, sumZ_cons, IH.
  pose proof (term_one v keys k) as Hone. pose proof (term_range v keys k).
  case_decide as Hk.
  - apply Hone in Hk. rewrite length_cons. lia.
  - assert (Solver.term v keys k ≠ 1) by (by rewrite Hone). lia.
Qed.

(** ** Main CP model: the keys and the schedule *)

Lemma elem_of_theory_keys_on inp sec c d k :
  k ∈ Solver.theory_keys_on inp sec c d ↔
    ∃ t r, k = (sec, c, d, t, r) ∧ t ∈ Solver.THEORY_TIMESLOTS inp
           ∧ friday_slot3 d t = false ∧ r ∈ Solver.theory_rooms inp.
Proof.
  unfold Solver.theory_keys_on. rewrite list_elem_of_bind. split.
  - intros (t & Hin & Ht). destruct (friday_slot3 d t) eqn:Hb;
      [by apply elem_of_nil in Hin|].
    apply list_elem_of_bind in Hin as (r & Hin & Hr).
    apply list_elem_of_singleton in Hin as ->. eauto 10.
  - intros (t & r & -> & Ht & Hb & Hr). exists t. split; [|done].
    rewrite Hb. apply list_elem_of_bind. exists r. split; [|done].
    by apply list_elem_of_singleton.
Qed.

Lemma elem_of_theory_keys inp sec c k :
  k ∈ Solver.theory_keys inp sec c ↔
    ∃ d, d ∈ Solver.DAYS inp ∧ k ∈ Solver.theory_keys_on inp sec c d.
Proof.
  unfold Solver.theory_keys. rewrite list_elem_of_bind. naive_solver.
Qed.

Lemma elem_of_lab_keys_on inp sec c d k :
  k ∈ Solver.lab_keys_on inp sec c d ↔
    ∃ ls labr, k = (sec, c, d, ls, labr) ∧ ls ∈ Solver.LAB_SLOTS inp
               ∧ labr ∈ Solver.valid_labs inp c.
Proof.
  unfold Solver.lab_keys_on. rewrite list_elem_of_bind. split.
  - intros (ls & Hin & Hls).
    apply list_elem_of_bind in Hin as (labr & Hin & Hlabr).
    apply list_elem_of_singleton in Hin as ->. eauto 10.
  - intros (ls & labr & -> & Hls & Hlabr). exists ls. split; [|done].
    apply list_elem_of_bind. exists labr. split; [|done].
    by apply list_elem_of_singleton.
Qed.

Lemma elem_of_lab_keys inp sec c k :
  k ∈ Solver.lab_keys inp sec c ↔
    ∃ d, d ∈ Solver.DAYS inp ∧ k ∈ Solver.lab_keys_on inp sec c d.
Proof.
  unfold Solver.lab_keys. rewrite list_elem_of_bind. naive_solver.
Qed.

Lemma elem_of_normal_iters inp ssm it :
  it ∈ Solver.normal_iters inp ssm ↔
    Solver.it_sem it ∈ Solver.selected_semesters inp
    ∧ Solver.it_sec it ∈ Solver.sections_of ssm (Solver.it_sem it)
    ∧ Solver.it_course it ∈ Solver.courses_of inp (Solver.it_sem it)
    ∧ Solver.is_cohort inp (Solver.it_sem it) (Solver.code (Solver.it_course it))
      = false.
Proof.
  unfold Solver.normal_iters. rewrite list_elem_of_bind. split.
  - intros (sem & Hin & Hsem).
    apply list_elem_of_bind in Hin as (sec & Hin & Hsec).
    apply list_elem_of_bind in Hin as (c & Hin & Hc).
    destruct (Solver.is_cohort inp sem (Solver.code c)) eqn:Hco;
      [by apply elem_of_nil in Hin|].
    apply list_elem_of_singleton in Hin as ->. done.
  - intros (Hsem & Hsec & Hc & Hco). destruct it as [sem sec c]. simpl in *.
    exists sem. split; [|done]. apply list_elem_of_bind. exists sec. split; [|done].
    apply list_elem_of_bind. exists c. split; [|done]. rewrite Hco.
    by apply list_elem_of_singleton.
Qed.

(** What a returned schedule is made of. *)
Lemma schedule_timetable_Return solve inp sched :
  Solver.sound solve →
  Solver.schedule_timetable solve inp = Return sched →
  ∃ v,
    Solver.model inp (Solver.semester_sections_map sched) v
    ∧ Solver.schedule_map sched
      = Solver.schedule_map_of
          (Solver.placements inp (Solver.semester_sections_map sched) v)
    ∧ Solver.new_allocations sched
      = Solver.new_allocations_of
          (Solver.placements inp (Solver.semester_sections_map sched) v).
Proof.
  intros Hsound. unfold Solver.schedule_timetable.
  destruct (Solver.capacity_check inp); [done|].
  destruct (Solver.build_sections inp _) as [e|ssm]; [done|].
  destruct (Solver.model_errors inp ssm); [done|].
  case_bool_decide; [|done].
  destruct (solve _) as [v|] eqn:Hsolve; [|done].
  intros [= <-]. simpl. exists v. split; [|done].
  by apply Hsound, bool_decide_eq_true in Hsolve.
Qed.

(** An entry of the schedule map is the last write to its key. *)
Lemma schedule_map_lookup_Some ps k val :
  Solver.schedule_map_of ps !! k = Some val →
  ∃ p, p ∈ ps ∧ Solver.placement_key p = k ∧ Solver.placement_value p = val.
Proof.
  unfold Solver.schedule_map_of.
  assert (Hgen : ∀ m0 : Solver.schedule_map_t,
    foldl (λ m p, <[Solver.placement_key p := Solver.placement_value p]> m) m0 ps
      !! k = Some val →
    m0 !! k = Some val
    ∨ ∃ p, p ∈ ps ∧ Solver.placement_key p = k ∧ Solver.placement_value p = val).
  { induction ps as [|p ps IH]; intros m0; cbn [foldl]; [by left|].
    intros Hl. apply IH in Hl as [Hl|(q & Hq & Hk & Hv)].
    - destruct (decide (Solver.placement_key p = k)) as [<-|Hne].
      + rewrite lookup_insert_eq in Hl. injection Hl as <-.
        right. exists p. split; [left|done].
      + rewrite lookup_insert_ne in Hl by done. by left.
    - right. exists q. split; [by right|done]. }
  intros Hl. apply Hgen in Hl as [Hl|Hl]; [by rewrite lookup_empty in Hl|done].
Qed.

(** When all writes to a key carry the same value, the key holds it. *)
Lemma schedule_map_lookup_agree ps k val :
  (∃ p, p ∈ ps ∧ Solver.placement_key p = k) →
  (∀ p, p ∈ ps → Solver.placement_key p = k → Solver.placement_value p = val) →
  Solver.schedule_map_of ps !! k = Some val.
Proof.
  unfold Solver.schedule_map_of.
  assert (Hgen : ∀ m0 : Solver.schedule_map_t,
    (m0 !! k = Some val ∨ ∃ p, p ∈ ps ∧ Solver.placement_key p = k) →
    (∀ p, p ∈ ps → Solver.placement_key p = k → Solver.placement_value p = val) →
    foldl (λ m p, <[Solver.placement_key p := Solver.placement_value p]> m) m0 ps
      !! k = Some val).
  { induction ps as [|p ps IH]; intros m0 Hex Hall; cbn [foldl].
    - destruct Hex as [?|(q & Hq & _)]; [done|by apply elem_of_nil in Hq].
    - apply IH; [|intros q Hq; apply Hall; by right].
      destruct (decide (Solver.placement_key p = k)) as [Hk|Hne].
      + left. rewrite <- Hk, lookup_insert_eq. f_equal. apply Hall; [left|done].
      + destruct Hex as [Hm|(q & Hq & Hk)].
        * left. by rewrite lookup_insert_ne.
        * apply elem_of_cons in Hq as [->|Hq]; [done|]. right. eauto. }
  intros Hex Hall. apply Hgen; [by right|done].
Qed.

(** A placement without a cohort section comes from a pass and a chosen key. *)
Lemma elem_of_placements_normal inp ssm v p :
  p ∈ Solver.placements inp ssm v → Solver.p_cohort p = None →
  ∃ it k, it ∈ Solver.normal_iters inp ssm
          ∧ k ∈ Solver.iter_keys inp it
          ∧ k ∈ Solver.assignment_keys inp ssm
          ∧ Solver.assign v k = true
          ∧ p = Solver.placement_of (Solver.kind_of it) k.
Proof.
  unfold Solver.placements. rewrite elem_of_app. intros [Hp|Hp] Hnone.
  - unfold Solver.normal_placements in Hp.
    apply list_elem_of_bind in Hp as (it & Hp & Hit).
    apply list_elem_of_fmap in Hp as (k & -> & Hk).
    apply list_elem_of_filter in Hk as [[HkA Hkv] Hk].
    eauto 10.
  - exfalso. unfold Solver.cohort_placements in Hp.
    apply list_elem_of_bind in Hp as (sc & Hp & _).
    apply list_elem_of_bind in Hp as (sec & Hp & _).
    destruct (Solver.chosen_data _ _ _ _ _ _) as [data|];
      [|by apply elem_of_nil in Hp].
    apply list_elem_of_bind in Hp as (dt & Hp & _).
    destruct (friday_slot3 dt.1 dt.2); [by apply elem_of_nil in Hp|].
    apply list_elem_of_singleton in Hp as ->. done.
Qed.

Lemma iter_keys_shape inp it k :
  k ∈ Solver.iter_keys inp it →
  k.1.1.1.1 = Solver.it_sec it ∧ k.1.1.1.2 = Solver.code (Solver.it_course it).
Proof.
  unfold Solver.iter_keys. destruct (Solver.is_lab (Solver.it_course it)).
  - intros Hk. apply elem_of_lab_keys in Hk as (d & _ & Hk).
    by apply elem_of_lab_keys_on in Hk as (ls & labr & -> & _).
  - intros Hk. apply elem_of_theory_keys in Hk as (d & _ & Hk).
    by apply elem_of_theory_keys_on in Hk as (t & r & -> & _).
Qed.

Lemma times_needed_constraints_elim inp ssm v it :
  Solver.model inp ssm v → it ∈ Solver.normal_iters inp ssm →
  if Solver.is_lab (Solver.it_course it)
  then Solver.lab_constraints inp ssm v (Solver.it_sec it) (Solver.it_course it)
  else Solver.theory_constraints inp ssm v (Solver.it_sec it) (Solver.it_course it).
Proof.
  intros (Htimes & _) Hit. unfold Solver.times_needed_constraints in Htimes.
  rewrite Forall_forall in Htimes. by apply Htimes.
Qed.

(** ** Main CP model: distinct and non-adjacent days *)

(** The theory key behind a schedule entry of a theory course. *)
Lemma theory_entry_key inp ssm v sec c k :
  Solver.is_lab c = false →
  Solver.one_kind inp ssm sec c →
  Solver.schedule_map_of (Solver.placements inp ssm v) !! k
    = Some (sec, Solver.code c, None) →
  let key : Solver.akey := (sec, Solver.code c, k.1.1, k.1.2, k.2) in
  k.1.1 ∈ Solver.DAYS inp
  ∧ key ∈ Solver.theory_keys_on inp sec (Solver.code c) k.1.1
  ∧ Solver.term v (Solver.assignment_keys inp ssm) key = 1.
Proof.
  intros Hth Hkind Hl.
  apply schedule_map_lookup_Some in Hl as (p & Hp & Hk & Hv).
  injection Hv as Hsec Hcode Hnone.
  apply elem_of_placements_normal in Hp as (it & key & Hit & Hkey & HA & Hval & ->);
    [|done].
  pose proof (iter_keys_shape _ _ _ Hkey) as [Hs Hc].
  simpl in Hsec, Hcode. rewrite Hs in Hsec. rewrite Hc in Hcode.
  unfold Solver.one_kind in Hkind. rewrite Forall_forall in Hkind.
  pose proof (Hkind it Hit Hsec Hcode) as Hlab. rewrite Hth in Hlab.
  unfold Solver.iter_keys in Hkey. rewrite Hlab, Hsec, Hcode in Hkey.
  apply elem_of_theory_keys in Hkey as (d & Hd & Hkey).
  pose proof Hkey as Hkey'.
  apply elem_of_theory_keys_on in Hkey' as (t & r & -> & _).
  subst k. cbn. split; [done|]. split; [done|]. by apply term_one.
Qed.

(** C3: in a returned schedule the placements of a theory course that
    meets more than once a week fall, for each section, on pairwise
    distinct days, no two of them adjacent in the day order [DAYS] (Monday
    to Saturday in both callers). *)
Theorem theory_days_distinct_nonadjacent solve (inp : Solver.input) sched
    sem sec (c : Solver.course) k1 k2 :
  Solver.sound solve →
  Solver.schedule_timetable solve inp = Return sched →
  sem ∈ Solver.selected_semesters inp →
  sec ∈ Solver.sections_of (Solver.semester_sections_map sched) sem →
  c ∈ Solver.courses_of inp sem →
  Solver.is_cohort inp sem (Solver.code c) = false →
  Solver.is_lab c = false →
  1 < Solver.times_needed c →
  Solver.one_kind inp (Solver.semester_sections_map sched) sec c →
  Solver.schedule_map sched !! k1 = Some (sec, Solver.code c, None) →
  Solver.schedule_map sched !! k2 = Some (sec, Solver.code c, None) →
  k1 ≠ k2 →
  k1.1.1 ≠ k2.1.1 ∧ ¬ Solver.adjacent_days (Solver.DAYS inp) k1.1.1 k2.1.1.
Proof.
  intros Hsound Hrun Hsem Hsec Hc Hco Hth Hmany Hkind Hk1 Hk2 Hne.
  destruct (schedule_timetable_Return _ _ _ Hsound Hrun) as (v & Hmodel & Hsm & _).
  set (ssm := Solver.semester_sections_map sched) in *.
  rewrite Hsm in Hk1, Hk2.
  assert (Hit : Solver.Iter sem sec c ∈ Solver.normal_iters inp ssm).
  { by apply elem_of_normal_iters. }
  pose proof (times_needed_constraints_elim _ _ _ _ Hmodel Hit) as Hcons.
  simpl in Hcons. rewrite Hth in Hcons.
  destruct Hcons as (Hsum & Hda & Hlink & Hadj).
  specialize (Hadj Hmany). rewrite Forall_forall in Hadj.
  set (A := Solver.assignment_keys inp ssm) in *.
  set (da := λ d, b2z (Solver.day_assigned v (sec, Solver.code c, d))) in *.
  set (rel := λ d, sumZ (Solver.term v A
                          <$> Solver.theory_keys_on inp sec (Solver.code c) d)).
  unfold Solver.theory_keys in Hsum. rewrite sumZ_bind in Hsum. fold rel in Hsum.
  assert (Heq : Forall (λ d, da d = rel d) (Solver.DAYS inp)).
  { apply sumZ_pointwise_eq; [|by rewrite Hda, Hsum].
    eapply Forall_impl; [exact Hlink|]. intros d [Hle _]. exact Hle. }
  rewrite Forall_forall in Heq.
  destruct (theory_entry_key _ _ _ _ _ _ Hth Hkind Hk1) as (Hd1 & Hkey1 & Hone1).
  destruct (theory_entry_key _ _ _ _ _ _ Hth Hkind Hk2) as (Hd2 & Hkey2 & Hone2).
  fold A in Hone1, Hone2.
  assert (Hnonneg : ∀ k, 0 ≤ Solver.term v A k) by (intros k; apply term_range).
  assert (Hda1 : da k1.1.1 = 1).
  { pose proof (sumZ_ge_elem _ _ _ Hnonneg Hkey1) as Hge. fold (rel k1.1.1) in Hge.
    rewrite <- (Heq _ Hd1) in Hge. pose proof (b2z_range
      (Solver.day_assigned v (sec, Solver.code c, k1.1.1))). unfold da in *. lia. }
  assert (Hda2 : da k2.1.1 = 1).
  { pose proof (sumZ_ge_elem _ _ _ Hnonneg Hkey2) as Hge. fold (rel k2.1.1) in Hge.
    rewrite <- (Heq _ Hd2) in Hge. pose proof (b2z_range
      (Solver.day_assigned v (sec, Solver.code c, k2.1.1))). unfold da in *. lia. }
  split.
  - intros Hday. rewrite <- Hday in Hkey2, Hone2.
    assert (Hkeys : ((sec, Solver.code c, k1.1.1, k1.1.2, k1.2) : Solver.akey)
                    ≠ (sec, Solver.code c, k1.1.1, k2.1.2, k2.2)).
    { intros [= Hs Hr]. apply Hne.
      destruct k1 as [[d1 t1] r1], k2 as [[d2 t2] r2]. simpl in *. congruence. }
    pose proof (sumZ_ge_two _ _ _ _ Hnonneg Hkey1 Hkey2 Hkeys) as Hge.
    fold (rel k1.1.1) in Hge. rewrite <- (Heq _ Hd1) in Hge. lia.
  - unfold da in Hda1, Hda2.
    intros [Hcons|Hcons]; apply Hadj in Hcons; simpl in Hcons; lia.
Qed.

(** ** Main CP model: as many placements as the course needs *)

Lemma NoDup_bind_unique {A B} (f : A → list B) (l : list A) a b y :
  NoDup (l ≫= f) → a ∈ l → b ∈ l → y ∈ f a → y ∈ f b → a = b.
Proof.
  induction l as [|x l IH]; intros Hnd Ha Hb Hya Hyb; [by apply elem_of_nil in Ha|].
  rewrite bind_cons in Hnd. apply NoDup_app in Hnd as (_ & Hdisj & Hnd).
  assert (Hin : ∀ z, z ∈ l → y ∈ f z → y ∈ l ≫= f).
  { intros z Hz Hyz. apply list_elem_of_bind. eauto. }
  apply elem_of_cons in Ha as [->|Ha]; apply elem_of_cons in Hb as [->|Hb].
  - done.
  - exfalso. eapply Hdisj; [exact Hya|]. by eapply Hin.
  - exfalso. eapply Hdisj; [exact Hyb|]. by eapply Hin.
  - by apply IH.
Qed.

Lemma NoDup_fmap_unique {A B} (f : A → B) (l : list A) x y :
  NoDup (f <$> l) → x ∈ l → y ∈ l → f x = f y → x = y.
Proof.
  induction l as [|z l IH]; intros Hnd Hx Hy Heq; [by apply elem_of_nil in Hx|].
  rewrite fmap_cons in Hnd. apply NoDup_cons in Hnd as [Hz Hnd].
  apply elem_of_cons in Hx as [->|Hx]; apply elem_of_cons in Hy as [->|Hy].
  - done.
  - exfalso. apply Hz. rewrite Heq. apply list_elem_of_fmap. eauto.
  - exfalso. apply Hz. rewrite <- Heq. apply list_elem_of_fmap. eauto.
  - by apply IH.
Qed.

Section counting.
Variable inp : Solver.input.
Variable ssm : gmap Z (list string).
Hypothesis Hwf : Solver.well_formed inp ssm.

(** A section and a course code name one pass. *)
Lemma normal_iters_unique it1 it2 :
  it1 ∈ Solver.normal_iters inp ssm → it2 ∈ Solver.normal_iters inp ssm →
  Solver.it_sec it1 = Solver.it_sec it2 →
  Solver.code (Solver.it_course it1) = Solver.code (Solver.it_course it2) →
  it1 = it2.
Proof.
  intros H1 H2 Hsec Hcode.
  apply elem_of_normal_iters in H1 as (Hsem1 & Hsec1 & Hc1 & _).
  apply elem_of_normal_iters in H2 as (Hsem2 & Hsec2 & Hc2 & _).
  destruct it1 as [sem1 sec1 c1], it2 as [sem2 sec2 c2]. simpl in *. subst sec2.
  assert (sem1 = sem2) as <-.
  { eapply (NoDup_bind_unique (Solver.sections_of ssm));
      [exact (Solver.wf_sections _ _ Hwf)|done..]. }
  f_equal. eapply NoDup_fmap_unique;
    [exact (Solver.wf_codes _ _ Hwf sem1 Hsem1)|done..].
Qed.

Lemma valid_labs_combined c labr :
  labr ∈ Solver.valid_labs inp c → labr ∈ Solver.combined_labs inp.
Proof.
  unfold Solver.valid_labs, Solver.combined_labs.
  rewrite elem_of_remove_dups, elem_of_app.
  destruct (Solver.special_lab_rooms inp !! c) as [rooms|] eqn:Hsp; [|by left].
  intros Hin. right. unfold Solver.all_special_labs.
  apply list_elem_of_fmap in Hin as (r & -> & Hr).
  apply list_elem_of_fmap. exists r. split; [done|].
  apply list_elem_of_join. exists rooms. split; [done|].
  apply list_elem_of_fmap. exists (c, rooms). split; [done|].
  by apply elem_of_map_to_list.
Qed.

Lemma NoDup_valid_labs c : NoDup (Solver.valid_labs inp c).
Proof.
  unfold Solver.valid_labs, Solver.normal_labs.
  destruct (Solver.special_lab_rooms inp !! c) as [rooms|] eqn:Hsp.
  - by eapply (Solver.wf_special_labs _ _ Hwf).
  - apply NoDup_filter, (Solver.wf_lab_rooms _ _ Hwf).
Qed.

Lemma NoDup_theory_keys sec c : NoDup (Solver.theory_keys inp sec c).
Proof.
  unfold Solver.theory_keys. apply NoDup_bind; [| |exact (Solver.wf_days _ _ Hwf)].
  - intros d1 d2 k _ _ H1 H2.
    apply elem_of_theory_keys_on in H1 as (t1 & r1 & -> & _).
    apply elem_of_theory_keys_on in H2 as (t2 & r2 & [= -> _ _] & _). done.
  - intros d _. unfold Solver.theory_keys_on.
    apply NoDup_bind; [| |exact (Solver.wf_theory_slots _ _ Hwf)].
    + intros t1 t2 k _ _ H1 H2.
      destruct (friday_slot3 d t1); [by apply elem_of_nil in H1|].
      destruct (friday_slot3 d t2); [by apply elem_of_nil in H2|].
      apply list_elem_of_bind in H1 as (r1 & H1 & _).
      apply list_elem_of_bind in H2 as (r2 & H2 & _).
      apply list_elem_of_singleton in H1 as ->.
      by apply list_elem_of_singleton in H2 as [= -> _].
    + intros t _. destruct (friday_slot3 d t); [constructor|].
      apply NoDup_bind; [| |exact (Solver.wf_theory_rooms _ _ Hwf)].
      * intros r1 r2 k _ _ H1 H2.
        apply list_elem_of_singleton in H1 as ->.
        by apply list_elem_of_singleton in H2 as [= ->].
      * intros r _. apply NoDup_singleton.
Qed.

Lemma NoDup_lab_keys sec c : NoDup (Solver.lab_keys inp sec c).
Proof.
  unfold Solver.lab_keys. apply NoDup_bind; [| |exact (Solver.wf_days _ _ Hwf)].
  - intros d1 d2 k _ _ H1 H2.
    apply elem_of_lab_keys_on in H1 as (t1 & r1 & -> & _).
    apply elem_of_lab_keys_on in H2 as (t2 & r2 & [= -> _ _] & _). done.
  - intros d _. unfold Solver.lab_keys_on.
    apply NoDup_bind; [| |exact (Solver.wf_lab_slots _ _ Hwf)].
    + intros t1 t2 k _ _ H1 H2.
      apply list_elem_of_bind in H1 as (r1 & H1 & _).
      apply list_elem_of_bind in H2 as (r2 & H2 & _).
      apply list_elem_of_singleton in H1 as ->.
      by apply list_elem_of_singleton in H2 as [= -> _].
    + intros t _. apply NoDup_bind; [| |apply NoDup_valid_labs].
      * intros r1 r2 k _ _ H1 H2.
        apply list_elem_of_singleton in H1 as ->.
        by apply list_elem_of_singleton in H2 as [= ->].
      * intros r _. apply NoDup_singleton.
Qed.

Lemma NoDup_iter_keys it : NoDup (Solver.iter_keys inp it).
Proof.
  unfold Solver.iter_keys. destruct (Solver.is_lab _);
    [apply NoDup_lab_keys|apply NoDup_theory_keys].
Qed.

(** The room of a key is a room of the kind of its pass. *)
Lemma iter_keys_room it k :
  k ∈ Solver.iter_keys inp it →
  k.1.1.2 ∈ Solver.DAYS inp
  ∧ if Solver.is_lab (Solver.it_course it)
    then k.1.2 ∈ Solver.LAB_SLOTS inp ∧ k.2 ∈ Solver.combined_labs inp
    else k.1.2 ∈ Solver.THEORY_TIMESLOTS inp
         ∧ friday_slot3 k.1.1.2 k.1.2 = false
         ∧ k.2 ∈ Solver.theory_rooms inp.
Proof.
  unfold Solver.iter_keys. destruct (Solver.is_lab (Solver.it_course it)).
  - intros Hk. apply elem_of_lab_keys in Hk as (d & Hd & Hk).
    apply elem_of_lab_keys_on in Hk as (ls & labr & -> & Hls & Hlabr).
    simpl. split; [done|]. split; [done|]. by eapply valid_labs_combined.
  - intros Hk. apply elem_of_theory_keys in Hk as (d & Hd & Hk).
    by apply elem_of_theory_keys_on in Hk as (t & r & -> & Ht & Hb & Hr).
Qed.

Lemma cohort_placement_room v p :
  p ∈ Solver.cohort_placements inp ssm v → Solver.p_room p ∈ Solver.cohort_rooms inp.
Proof.
  unfold Solver.cohort_placements. intros Hp.
  apply list_elem_of_bind in Hp as ([sem c] & Hp & Hsc).
  apply list_elem_of_bind in Hp as (sec & Hp & _). simpl in Hp.
  destruct (Solver.chosen_data _ _ _ _ _ _) as [data|] eqn:Hch;
    [|by apply elem_of_nil in Hp].
  apply list_elem_of_bind in Hp as (dt & Hp & _).
  destruct (friday_slot3 dt.1 dt.2); [by apply elem_of_nil in Hp|].
  apply list_elem_of_singleton in Hp as ->. simpl.
  unfold Solver.chosen_data in Hch.
  destruct (list_find _ _) as [[i data']|] eqn:Hfind; [|done].
  injection Hch as ->. apply list_find_Some in Hfind as (Hi & _ & _).
  apply list_elem_of_lookup_2 in Hi. unfold Solver.csections in Hi.
  destruct (Solver.cohorts inp !! (sem, Solver.code c)) as [datas|] eqn:Hco;
    [|by apply elem_of_nil in Hi].
  unfold Solver.cohort_rooms. apply list_elem_of_bind.
  exists ((sem, Solver.code c), datas). split; [|by apply elem_of_map_to_list].
  apply list_elem_of_fmap. by exists data.
Qed.
End counting.

Section counting_schedule.
Variable inp : Solver.input.
Variable ssm : gmap Z (list string).
Variable v : Solver.valuation.
Hypothesis Hwf : Solver.well_formed inp ssm.
Hypothesis Hmodel : Solver.model inp ssm v.

Let A := Solver.assignment_keys inp ssm.

(** Two chosen keys of different passes never share day, slot and room:
    the room constraints forbid it within a kind, and no room is of both
    kinds. *)
Lemma chosen_keys_same_cell it1 it2 k1 k2 :
  it1 ∈ Solver.normal_iters inp ssm → it2 ∈ Solver.normal_iters inp ssm →
  k1 ∈ Solver.chosen_keys inp ssm v it1 →
  k2 ∈ Solver.chosen_keys inp ssm v it2 →
  k1.1.1.2 = k2.1.1.2 → k1.1.2 = k2.1.2 → k1.2 = k2.2 →
  it1 = it2.
Proof.
  intros Hit1 Hit2 Hk1 Hk2 Hd Hs Hr.
  apply list_elem_of_filter in Hk1 as [[HA1 Hv1] Hk1].
  apply list_elem_of_filter in Hk2 as [[HA2 Hv2] Hk2].
  pose proof (iter_keys_shape _ _ _ Hk1) as [Hsec1 Hcode1].
  pose proof (iter_keys_shape _ _ _ Hk2) as [Hsec2 Hcode2].
  pose proof (iter_keys_room _ _ _ Hk1) as [Hday1 Hroom1].
  pose proof (iter_keys_room _ _ _ Hk2) as [Hday2 Hroom2].
  destruct k1 as [[[[sec1 c1] d] t] r], k2 as [[[[sec2 c2] d2] t2] r2].
  simpl in *. subst d2 t2 r2 sec1 c1 sec2 c2.
  destruct (decide (it1 = it2)) as [|Hne]; [done|]. exfalso.
  destruct Hmodel as (_ & [Hroom_th Hroom_lab] & _).
  assert (Hnonneg : ∀ d t r it,
    0 ≤ Solver.term v A
          (Solver.it_sec it, Solver.code (Solver.it_course it), d, t, r)).
  { intros. apply term_range. }
  destruct (Solver.is_lab (Solver.it_course it1)) eqn:Hlab1;
    destruct (Solver.is_lab (Solver.it_course it2)) eqn:Hlab2.
  - (* two labs in one lab room *)
    destruct Hroom1 as [Hls Hlabr].
    rewrite Forall_forall in Hroom_lab. specialize (Hroom_lab d Hday1).
    rewrite Forall_forall in Hroom_lab. specialize (Hroom_lab t Hls).
    rewrite Forall_forall in Hroom_lab. specialize (Hroom_lab r Hlabr).
    pose proof (sumZ_ge_two
      (λ it, Solver.term v A
               (Solver.it_sec it, Solver.code (Solver.it_course it), d, t, r))
      (Solver.lab_iters inp ssm) it1 it2 (Hnonneg d t r)) as Hge.
    cbn beta in Hge.
    rewrite (proj2 (term_one v A _) (conj HA1 Hv1)) in Hge.
    rewrite (proj2 (term_one v A _) (conj HA2 Hv2)) in Hge.
    unfold Solver.lab_iters in Hge. rewrite !list_elem_of_filter in Hge.
    specialize (Hge (conj Hlab1 Hit1) (conj Hlab2 Hit2) Hne).
    unfold Solver.lab_iters, A in *. lia.
  - destruct Hroom1 as [_ Hlabr]. destruct Hroom2 as (_ & _ & Hth).
    by apply (Solver.wf_room_kinds _ _ Hwf r).
  - destruct Hroom2 as [_ Hlabr]. destruct Hroom1 as (_ & _ & Hth).
    by apply (Solver.wf_room_kinds _ _ Hwf r).
  - (* two theory classes in one theory room *)
    destruct Hroom1 as (Ht & Hb & Hr).
    rewrite Forall_forall in Hroom_th. specialize (Hroom_th d Hday1).
    rewrite Forall_forall in Hroom_th. specialize (Hroom_th t Ht Hb).
    rewrite Forall_forall in Hroom_th. specialize (Hroom_th r Hr).
    pose proof (sumZ_ge_two
      (λ it, Solver.term v A
               (Solver.it_sec it, Solver.code (Solver.it_course it), d, t, r))
      (Solver.theory_iters inp ssm) it1 it2 (Hnonneg d t r)) as Hge.
    cbn beta in Hge.
    rewrite (proj2 (term_one v A _) (conj HA1 Hv1)) in Hge.
    rewrite (proj2 (term_one v A _) (conj HA2 Hv2)) in Hge.
    unfold Solver.theory_iters in Hge. rewrite !list_elem_of_filter in Hge.
    specialize (Hge (conj Hlab1 Hit1) (conj Hlab2 Hit2) Hne).
    unfold Solver.theory_iters, A in *. lia.
Qed.

(** A chosen key is an entry of the schedule map: nothing overwrites it. *)
Lemma chosen_key_entry it k :
  it ∈ Solver.normal_iters inp ssm →
  k ∈ Solver.chosen_keys inp ssm v it →
  Solver.schedule_map_of (Solver.placements inp ssm v) !! (k.1.1.2, k.1.2, k.2)
    = Some (Solver.it_sec it, Solver.code (Solver.it_course it), None).
Proof.
  intros Hit Hk. apply schedule_map_lookup_agree.
  - exists (Solver.placement_of (Solver.kind_of it) k). split; [|done].
    unfold Solver.placements, Solver.normal_placements.
    apply elem_of_app. left. apply list_elem_of_bind. exists it. split; [|done].
    apply list_elem_of_fmap. by exists k.
  - intros p Hp Hkey. unfold Solver.placements in Hp.
    apply elem_of_app in Hp as [Hp|Hp].
    + unfold Solver.normal_placements in Hp.
      apply list_elem_of_bind in Hp as (it' & Hp & Hit').
      apply list_elem_of_fmap in Hp as (k' & -> & Hk').
      injection Hkey as Hd Hs Hr.
      assert (it' = it) as ->.
      { by eapply (chosen_keys_same_cell it' it k' k). }
      apply list_elem_of_filter in Hk' as [_ Hk'].
      pose proof (iter_keys_shape _ _ _ Hk') as [Hsec Hcode].
      unfold Solver.placement_value. simpl. by rewrite Hsec, Hcode.
    + exfalso. pose proof (cohort_placement_room _ _ _ _ Hp) as Hroom.
      apply (Solver.wf_cohort_rooms _ _ Hwf) in Hroom as [Hnth Hnlab].
      injection Hkey as _ _ Hr. rewrite Hr in Hnth, Hnlab.
      apply list_elem_of_filter in Hk as [_ Hk].
      pose proof (iter_keys_room _ _ _ Hk) as [_ Hkind].
      destruct (Solver.is_lab (Solver.it_course it)); naive_solver.
Qed.

(** The entries of a section and course are the chosen keys of its pass. *)
Lemma placements_of_chosen it :
  it ∈ Solver.normal_iters inp ssm →
  Solver.placements_of (Solver.schedule_map_of (Solver.placements inp ssm v))
    (Solver.it_sec it) (Solver.code (Solver.it_course it))
  ≡ₚ (λ k : Solver.akey,
        ((k.1.1.2, k.1.2, k.2),
         (Solver.it_sec it, Solver.code (Solver.it_course it), None)))
     <$> Solver.chosen_keys inp ssm v it.
Proof.
  intros Hit. apply NoDup_Permutation.
  - apply NoDup_filter, NoDup_map_to_list.
  - apply NoDup_fmap_2_strong.
    + intros k1 k2 Hk1 Hk2 [= Hd Hs Hr].
      apply list_elem_of_filter in Hk1 as [_ Hk1].
      apply list_elem_of_filter in Hk2 as [_ Hk2].
      pose proof (iter_keys_shape _ _ _ Hk1) as [Hsec1 Hcode1].
      pose proof (iter_keys_shape _ _ _ Hk2) as [Hsec2 Hcode2].
      destruct k1 as [[[[sec1 c1] d1] t1] r1], k2 as [[[[sec2 c2] d2] t2] r2].
      simpl in *. congruence.
    + apply NoDup_filter. by eapply NoDup_iter_keys.
  - intros [cell val]. unfold Solver.placements_of.
    rewrite list_elem_of_filter, elem_of_map_to_list, list_elem_of_fmap. simpl.
    split.
    + intros [-> Hl].
      apply schedule_map_lookup_Some in Hl as (p & Hp & Hcell & Hval).
      injection Hval as Hsec Hcode Hnone.
      apply elem_of_placements_normal in Hp
        as (it' & k & Hit' & Hk & HA & Hv & ->); [|done].
      pose proof (iter_keys_shape _ _ _ Hk) as [Hs Hc].
      simpl in Hsec, Hcode. rewrite Hs in Hsec. rewrite Hc in Hcode.
      assert (it' = it) as -> by by eapply normal_iters_unique.
      exists k. split; [by rewrite <- Hcell|].
      apply list_elem_of_filter. done.
    + intros (k & [= -> ->] & Hk). split; [done|]. by apply chosen_key_entry.
Qed.
End counting_schedule.


Lemma solver_solve_with_sound v : Solver.sound (Solver.solve_with v).
Proof.
  intros m v'. unfold Solver.solve_with.
  destruct (m v) eqn:Hm; [|done]. by intros [= <-].
Qed.

Lemma base_run :
  Solver.schedule_timetable (Solver.solve_with Solver.base_valuation)
    Solver.base_input = Return Solver.base_schedule.
Proof. vm_compute. reflexivity. Qed.

Lemma base_input_well_formed :
  Solver.well_formed Solver.base_input Solver.base_sections.
Proof.
  split.
  - apply (bool_decide_unpack _); vm_compute; exact I.
  - apply (bool_decide_unpack _); vm_compute; exact I.
  - apply (bool_decide_unpack _); vm_compute; exact I.
  - apply (bool_decide_unpack _); vm_compute; exact I.
  - apply (bool_decide_unpack _); vm_compute; exact I.
  - intros c rooms Hc. simpl in Hc. by rewrite lookup_empty in Hc.
  - intros r Hr. simpl in Hr. apply list_elem_of_singleton in Hr as ->.
    apply (bool_decide_unpack _); vm_compute; exact I.
  - intros r Hr. assert (Hnil : Solver.cohort_rooms Solver.base_input = [])
      by (vm_compute; reflexivity).
    rewrite Hnil in Hr. by apply elem_of_nil in Hr.
  - apply (bool_decide_unpack _); vm_compute; exact I.
  - intros sem Hsem. simpl in Hsem. apply list_elem_of_singleton in Hsem as ->.
    apply (bool_decide_unpack _); vm_compute; exact I.
Qed.


Lemma theory_days_distinct_nonadjacent_witness :
  "Monday" ≠ "Wednesday" ∧ ¬ Solver.adjacent_days Solver.week "Monday" "Wednesday".
Proof.
  apply (theory_days_distinct_nonadjacent
           (Solver.solve_with Solver.base_valuation) Solver.base_input
           Solver.base_schedule 1 "S1A1" (Solver.Course "CS101" "Programming" false 2)
           ("Monday", 0, "R1") ("Wednesday", 3, "R1")).
  - apply solver_solve_with_sound.
  - apply base_run.
  - apply (bool_decide_unpack _); vm_compute; exact I.
  - apply (bool_decide_unpack _); vm_compute; exact I.
  - apply (bool_decide_unpack _); vm_compute; exact I.
  - vm_compute. reflexivity.
  - reflexivity.
  - simpl. lia.
  - apply (bool_decide_unpack _); vm_compute; exact I.
  - vm_compute. reflexivity.
  - vm_compute. reflexivity.
  - discriminate.
Defined.

(** ** The Friday blackout *)

Lemma schedule_timetable_Return_placements solve inp sched :
  Solver.schedule_timetable solve inp = Return sched →
  ∃ v,
    Solver.schedule_map sched
      = Solver.schedule_map_of
          (Solver.placements inp (Solver.semester_sections_map sched) v)
    ∧ Solver.new_allocations sched
      = Solver.new_allocations_of
          (Solver.placements inp (Solver.semester_sections_map sched) v).
Proof.
  unfold Solver.schedule_timetable.
  destruct (Solver.capacity_check inp); [done|].
  destruct (Solver.build_sections inp _) as [e|ssm]; [done|].
  destruct (Solver.model_errors inp ssm); [done|].
  case_bool_decide; [|done].
  destruct (solve _) as [v|] eqn:Hsolve; [|done].
  intros [= <-]. simpl. by exists v.
Qed.

(** A placement on Friday in slot 3 is a lab of a lab course. *)
Lemma placement_friday_slot3 inp ssm v p :
  p ∈ Solver.placements inp ssm v →
  Solver.p_day p = "Friday" → Solver.p_slot p = 3 →
  Solver.p_kind p = "lab"
  ∧ ∃ it, it ∈ Solver.normal_iters inp ssm
          ∧ Solver.is_lab (Solver.it_course it) = true
          ∧ Solver.placement_value p
            = (Solver.it_sec it, Solver.code (Solver.it_course it), None).
Proof.
  unfold Solver.placements. rewrite elem_of_app. intros [Hp|Hp] Hday Hslot.
  - unfold Solver.normal_placements in Hp.
    apply list_elem_of_bind in Hp as (it & Hp & Hit).
    apply list_elem_of_fmap in Hp as (k & -> & Hk).
    apply list_elem_of_filter in Hk as [_ Hk].
    pose proof (iter_keys_shape _ _ _ Hk) as [Hsec Hcode].
    pose proof (iter_keys_room _ _ _ Hk) as [_ Hroom].
    simpl in Hday, Hslot. unfold Solver.kind_of, Solver.placement_value. simpl.
    destruct (Solver.is_lab (Solver.it_course it)) eqn:Hlab.
    + split; [done|]. exists it. by rewrite Hsec, Hcode.
    + exfalso. destruct Hroom as (_ & Hb & _).
      apply friday_slot3_false in Hb. by apply Hb.
  - exfalso. unfold Solver.cohort_placements in Hp.
    apply list_elem_of_bind in Hp as (sc & Hp & _).
    apply list_elem_of_bind in Hp as (sec & Hp & _).
    destruct (Solver.chosen_data _ _ _ _ _ _) as [data|];
      [|by apply elem_of_nil in Hp].
    apply list_elem_of_bind in Hp as (dt & Hp & _).
    destruct (friday_slot3 dt.1 dt.2) eqn:Hb; [by apply elem_of_nil in Hp|].
    apply list_elem_of_singleton in Hp as ->. simpl in Hday, Hslot.
    apply friday_slot3_false in Hb. by apply Hb.
Qed.

Lemma assignment_keys_intro inp ssm it k :
  it ∈ Solver.normal_iters inp ssm →
  k ∈ Solver.iter_keys inp it →
  Solver.free inp (Solver.kind_of it) k →
  k ∈ Solver.assignment_keys inp ssm.
Proof.
  intros Hit Hk Hfree. unfold Solver.assignment_keys.
  apply list_elem_of_bind. exists it. split; [|done].
  by apply list_elem_of_filter.
Qed.

(** C2: no returned schedule, main or elective, holds a theory placement
    on Friday in theory slot 3: an allocation or schedule entry with day
    Friday and slot 3 is a lab.  The blackout applies to theory slots only:
    the solver has a variable for every free lab slot of every day, Friday
    included, and for every free theory slot other than (Friday, 3), so
    theory slot 3 of the other days stays usable. *)
Theorem friday_slot3_blackout :
  (∀ solve inp sched,
     Solver.schedule_timetable solve inp = Return sched →
     (∀ a, a ∈ Solver.new_allocations sched →
           day a = "Friday" → slot a = 3 → rtype a = "lab")
     ∧ (∀ r val, Solver.schedule_map sched !! ("Friday", 3, r) = Some val →
          ∃ it, it ∈ Solver.normal_iters inp (Solver.semester_sections_map sched)
                ∧ Solver.is_lab (Solver.it_course it) = true
                ∧ val = (Solver.it_sec it, Solver.code (Solver.it_course it), None)))
  ∧ (∀ solve einp eschedule_map eallocs,
       Electives.schedule_electives solve einp = Return (eschedule_map, eallocs) →
       (∀ key slots r, eschedule_map !! key = Some slots →
          ("theory", r, "Friday", 3) ∉ slots)
       ∧ (∀ a, a ∈ eallocs → day a = "Friday" → slot a = 3 → rtype a = "lab"))
  ∧ (∀ inp ssm it d t r,
       it ∈ Solver.normal_iters inp ssm →
       Solver.is_lab (Solver.it_course it) = false →
       d ∈ Solver.DAYS inp → t ∈ Solver.THEORY_TIMESLOTS inp →
       r ∈ Solver.theory_rooms inp →
       t ∉ Solver.used_slots inp "theory" r d →
       ¬ (d = "Friday" ∧ t = 3) →
       (Solver.it_sec it, Solver.code (Solver.it_course it), d, t, r)
         ∈ Solver.assignment_keys inp ssm)
  ∧ (∀ inp ssm it d ls labr,
       it ∈ Solver.normal_iters inp ssm →
       Solver.is_lab (Solver.it_course it) = true →
       d ∈ Solver.DAYS inp → ls ∈ Solver.LAB_SLOTS inp →
       labr ∈ Solver.valid_labs inp (Solver.code (Solver.it_course it)) →
       ls ∉ Solver.used_slots inp "lab" labr d →
       (Solver.it_sec it, Solver.code (Solver.it_course it), d, ls, labr)
         ∈ Solver.assignment_keys inp ssm)
  ∧ (∀ einp r d ts,
       r ∈ Electives.theory_rooms einp → d ∈ Electives.DAYS einp →
       ts ∈ Electives.THEORY_TIMESLOTS einp →
       Electives.used einp "theory" (r, d, ts) = false →
       ¬ (d = "Friday" ∧ ts = 3) →
       (r, d, ts) ∈ Electives.theory_combos einp)
  ∧ (∀ einp r d ls,
       r ∈ Electives.lab_rooms einp → d ∈ Electives.DAYS einp →
       ls ∈ Electives.LAB_SLOTS einp →
       Electives.used einp "lab" (r, d, ls) = false →
       (r, d, ls) ∈ Electives.lab_combos einp).
Proof.
  split; [|split; [|repeat split]].
  - intros solve inp sched Hmain.
    destruct (schedule_timetable_Return_placements _ _ _ Hmain) as (v & Hsm & Hal).
    split.
    + intros a Ha Hday Hslot. rewrite Hal in Ha.
      apply list_elem_of_fmap in Ha as (p & -> & Hp). simpl in *.
      by destruct (placement_friday_slot3 _ _ _ _ Hp Hday Hslot).
    + intros r val Hl. rewrite Hsm in Hl.
      apply schedule_map_lookup_Some in Hl as (p & Hp & [= Hday Hslot Hroom] & <-).
      by destruct (placement_friday_slot3 _ _ _ _ Hp Hday Hslot).
  - intros solve einp eschedule_map eallocs Helec.
    unfold Electives.schedule_electives in Helec.
    destruct (Electives.usage_data einp !! "theory"); [|done].
    destruct (Electives.usage_data einp !! "lab"); [|done].
    destruct (solve _) as [ev|]; [|done].
    injection Helec as <- <-. split.
    + intros key slots r Hl Hin.
      apply electives_schedule_map_values in Hl as ->.
      apply electives_theory_slot_not_blackout in Hin. by apply Hin.
    + intros a Ha Hday Hslot. unfold Electives.new_allocations_of in Ha.
      apply list_elem_of_bind in Ha as (ei & Ha & _).
      apply list_elem_of_fmap in Ha as ([[[kind r] d] ts] & -> & Hp).
      simpl in *. subst d ts.
      unfold Electives.assigned_slots in Hp. apply elem_of_app in Hp as [Hp|Hp].
      * exfalso. apply list_elem_of_fmap in Hp as ([[r' d'] ts'] & Heq & Hin).
        simpl in Heq. injection Heq as _ _ <- <-.
        apply list_elem_of_filter in Hin as [_ Hin].
        apply theory_combos_not_blackout in Hin.
        apply friday_slot3_false in Hin. by apply Hin.
      * by apply list_elem_of_fmap in Hp as ([[r' d'] ts'] & [= -> _ _ _] & _).
  - intros inp ssm it d t r Hit Hlab Hd Ht Hr Hfree Hnb.
    apply (assignment_keys_intro _ _ it); [done| |].
    + unfold Solver.iter_keys. rewrite Hlab.
      apply elem_of_theory_keys. exists d. split; [done|].
      apply elem_of_theory_keys_on. exists t, r.
      by rewrite friday_slot3_false.
    + unfold Solver.kind_of. by rewrite Hlab.
  - intros inp ssm it d ls labr Hit Hlab Hd Hls Hlabr Hfree.
    apply (assignment_keys_intro _ _ it); [done| |].
    + unfold Solver.iter_keys. rewrite Hlab.
      apply elem_of_lab_keys. exists d. split; [done|].
      apply elem_of_lab_keys_on. by exists ls, labr.
    + unfold Solver.kind_of. by rewrite Hlab.
  - intros einp r d ts Hr Hd Hts Hfree Hnb. unfold Electives.theory_combos.
    apply list_elem_of_bind. exists r. split; [|done].
    apply list_elem_of_bind. exists d. split; [|done].
    apply list_elem_of_bind. exists ts. split; [|done].
    apply friday_slot3_false in Hnb. rewrite Hnb, Hfree.
    by apply list_elem_of_singleton.
  - intros einp r d ls Hr Hd Hls Hfree. unfold Electives.lab_combos.
    apply list_elem_of_bind. exists r. split; [|done].
    apply list_elem_of_bind. exists d. split; [|done].
    apply list_elem_of_bind. exists ls. split; [|done].
    rewrite Hfree. by apply list_elem_of_singleton.
Qed.

Lemma friday_slot3_blackout_witness :
  (∀ a, a ∈ Solver.new_allocations Solver.base_schedule →
        day a = "Friday" → slot a = 3 → rtype a = "lab")
  ∧ (∀ key slots r,
       Electives.schedule_map_of Electives.example_input Electives.example_valuation
         !! key = Some slots →
       ("theory", r, "Friday", 3) ∉ slots)
  ∧ ("S1A1", "CS101L", "Friday", 3, "LAB1")
      ∈ Solver.assignment_keys Solver.base_input Solver.base_sections
  ∧ ("S1A1", "CS101", "Wednesday", 3, "R1")
      ∈ Solver.assignment_keys Solver.base_input Solver.base_sections.
Proof.
  destruct friday_slot3_blackout as (Hmain & Helec & Htheory & Hlab & _).
  split; [|split; [|split]].
  - apply (Hmain (Solver.solve_with Solver.base_valuation) Solver.base_input
             Solver.base_schedule base_run).
  - apply (Helec (Electives.solve_with Electives.example_valuation)
             Electives.example_input _
             (Electives.new_allocations_of Electives.example_input
                Electives.example_valuation)).
    vm_compute. reflexivity.
  - apply (Hlab Solver.base_input Solver.base_sections
             (Solver.Iter 1 "S1A1" (Solver.Course "CS101L" "Programming Lab" true 1))
             "Friday" 3 "LAB1");
      first [reflexivity | apply (bool_decide_unpack _); vm_compute; exact I].
  - apply (Htheory Solver.base_input Solver.base_sections
             (Solver.Iter 1 "S1A1" (Solver.Course "CS101" "Programming" false 2))
             "Wednesday" 3 "R1");
      first [reflexivity | apply (bool_decide_unpack _); vm_compute; exact I].
Defined.

(** ** The cutoff on theory classes *)

(** X9: what the cutoff loop does achieve: a theory variable is measured
    against the end of its own slot, so a theory class of a returned
    schedule ends at or before the cutoff, and a slot that ends exactly at
    the cutoff is not disabled. *)
Lemma cutoff_theory_respected solve inp sched h a :
  Solver.sound solve →
  Solver.schedule_timetable solve inp = Return sched →
  Solver.noClassesAfterHour (Solver.constraints inp) = Some h →
  a ∈ Solver.new_allocations sched →
  rtype a = "theory" →
  slot a ∈ Solver.THEORY_TIMESLOTS inp
  ∧ default 0 (Solver.theory_end_times (slot a)) ≤ h * 60.
Proof.
  intros Hsound Hrun Hh Ha Hkind.
  destruct (schedule_timetable_Return _ _ _ Hsound Hrun) as (v & Hmodel & _ & Hal).
  rewrite Hal in Ha. apply list_elem_of_fmap in Ha as (p & -> & Hp).
  simpl in *. unfold Solver.placements in Hp. apply elem_of_app in Hp as [Hp|Hp].
  - unfold Solver.normal_placements in Hp.
    apply list_elem_of_bind in Hp as (it & Hp & Hit).
    apply list_elem_of_fmap in Hp as (k & -> & Hk).
    apply list_elem_of_filter in Hk as [[HkA Hkv] Hk].
    simpl in *. unfold Solver.kind_of in Hkind. unfold Solver.iter_keys in Hk.
    destruct (Solver.is_lab (Solver.it_course it)); [done|].
    apply elem_of_theory_keys in Hk as (d & _ & Hk).
    apply elem_of_theory_keys_on in Hk as (t & r & -> & Ht & _ & _).
    simpl. split; [done|].
    destruct Hmodel as (_ & _ & _ & _ & _ & _ & _ & Hcut & _).
    unfold Solver.cutoff_constraints in Hcut. rewrite Hh in Hcut.
    destruct Hcut as [Hcut _].
    rewrite Forall_forall in Hcut. specialize (Hcut _ HkA). simpl in Hcut.
    rewrite bool_decide_eq_true_2 in Hcut by done.
    rewrite Hkv in Hcut. simpl in Hcut.
    destruct (decide (default 0 (Solver.theory_end_times t) > h * 60)) as [Hgt|Hle];
      [by specialize (Hcut Hgt)|lia].
  - exfalso. unfold Solver.cohort_placements in Hp.
    apply list_elem_of_bind in Hp as (sc & Hp & _).
    apply list_elem_of_bind in Hp as (sec & Hp & _).
    destruct (Solver.chosen_data _ _ _ _ _ _) as [data|];
      [|by apply elem_of_nil in Hp].
    apply list_elem_of_bind in Hp as (dt & Hp & _).
    destruct (friday_slot3 dt.1 dt.2); [by apply elem_of_nil in Hp|].
    by apply list_elem_of_singleton in Hp as ->.
Qed.

(** ** The usage ledger as Python objects: [merge_usage_data] and its argument *)

Lemma hoare_ret {A} (P : Store.store → Prop) (Q : A → Prop) x :
  Q x → Store.hoare P (Store.ret x) Q.
Proof. intros HQ h HP. split; [done|]. by intros y [= <-]. Qed.

Lemma hoare_raise {A} (P : Store.store → Prop) (Q : A → Prop) :
  Store.hoare P Store.raise Q.
Proof. intros h HP. split; [done|]. by intros y. Qed.

Lemma hoare_bind {A B} (P : Store.store → Prop) (c : Store.M A)
    (k : A → Store.M B) (Q : A → Prop) (R : B → Prop) :
  Store.hoare P c Q → (∀ x, Q x → Store.hoare P (k x) R) →
  Store.hoare P (Store.bind c k) R.
Proof.
  intros Hc Hk h HP. unfold Store.bind.
  destruct (Hc h HP) as [HP1 HQ].
  destruct (c h) as [h1 [x|]]; simpl in *.
  - apply Hk; auto.
  - split; [done|]. by intros y.
Qed.

Lemma hoare_conseq {A} (P : Store.store → Prop) (c : Store.M A)
    (Q Q' : A → Prop) :
  Store.hoare P c Q → (∀ x, Q x → Q' x) → Store.hoare P c Q'.
Proof. intros Hc Himp h HP. destruct (Hc h HP). split; auto. Qed.

Lemma hoare_for_each {A S} (P : Store.store → Prop)
    (body : S → A → Store.M S) (I : S → Prop) (l : list A) : ∀ s,
  (∀ s x, I s → x ∈ l → Store.hoare P (body s x) I) →
  I s → Store.hoare P (Store.for_each body s l) I.
Proof.
  induction l as [|x rest IH]; intros s Hbody Hs; simpl.
  - by apply hoare_ret.
  - eapply hoare_bind; [apply Hbody; [done|by left]|].
    intros s1 Hs1. apply IH; [|done].
    intros s2 y Hs2 Hy. apply Hbody; [done|by right].
Qed.

Section frame.
Variable h0 : Store.store.

Local Abbreviation inv := (Store.inv h0).
Local Abbreviation fresh := (Store.fresh h0).

Lemma inv_initial_store : inv h0.
Proof.
  split; [done|]. intros l o Hl Hlook.
  apply lookup_lt_Some in Hlook. unfold Store.fresh in Hl. lia.
Qed.

Lemma hoare_read l :
  Store.hoare inv (Store.read l) (λ o, fresh l → Store.closed_obj h0 o).
Proof.
  intros h Hinv. split; [done|]. simpl. intros o Hlook Hl.
  by eapply Store.inv_closed.
Qed.

Lemma hoare_alloc o :
  Store.closed_obj h0 o → Store.hoare inv (Store.alloc o) fresh.
Proof.
  intros Ho h [Hpre Hcl]. simpl. split.
  - split; [by apply prefix_app_r|].
    intros l o' Hl Hlook. apply lookup_app_Some in Hlook as [Hlook|[_ Hlook]].
    + by eapply Hcl.
    + apply list_lookup_singleton_Some in Hlook as [_ <-]. done.
  - intros l [= <-]. by apply prefix_length.
Qed.

Lemma hoare_write l o :
  fresh l → Store.closed_obj h0 o →
  Store.hoare inv (Store.write l o) (λ _, True).
Proof.
  intros Hl Ho h [Hpre Hcl]. unfold Store.write.
  case_bool_decide as Hlt; simpl; [|done]. split; [|done]. split.
  - destruct Hpre as [k ->]. exists (<[(l - length h0)%nat := o]> k).
    unfold Store.fresh in Hl. by apply insert_app_r_alt.
  - intros l' o' Hl' Hlook.
    destruct (decide (l = l')) as [<-|Hne].
    + rewrite list_lookup_insert_eq in Hlook by done. by injection Hlook as <-.
    + rewrite list_lookup_insert_ne in Hlook by done. by eapply Hcl.
Qed.

Lemma hoare_contains_key d k :
  Store.hoare inv (Store.contains_key d k) (λ _, True).
Proof.
  eapply hoare_bind; [apply hoare_read|]. intros [items|entries] _; by apply hoare_ret.
Qed.

Lemma hoare_contains_slot l x :
  Store.hoare inv (Store.contains_slot l x) (λ _, True).
Proof.
  eapply hoare_bind; [apply hoare_read|]. intros [items|entries] _; by apply hoare_ret.
Qed.

Lemma hoare_get_item d k :
  fresh d → Store.hoare inv (Store.get_item d k) fresh.
Proof.
  intros Hd. eapply hoare_bind; [apply hoare_read|].
  intros [items|entries] Hcl; [apply hoare_raise|].
  destruct (entries !! k) as [v|] eqn:Hk; [|apply hoare_raise].
  apply hoare_ret. by apply (Hcl Hd k v).
Qed.

Lemma hoare_set_item d k v :
  fresh d → fresh v → Store.hoare inv (Store.set_item d k v) (λ _, True).
Proof.
  intros Hd Hv. eapply hoare_bind; [apply hoare_read|].
  intros [items|entries] Hcl; [apply hoare_raise|].
  apply hoare_write; [done|]. simpl. apply map_Forall_insert_2; [done|by apply Hcl].
Qed.

Lemma hoare_append l x :
  fresh l → Store.hoare inv (Store.append l x) (λ _, True).
Proof.
  intros Hl. eapply hoare_bind; [apply hoare_read|].
  intros [items|entries] _; [|apply hoare_raise].
  by apply hoare_write.
Qed.

Lemma hoare_deepcopy fuel : ∀ memo x,
  Store.memo_fresh h0 memo →
  Store.hoare inv (Store.deepcopy fuel memo x)
    (λ r, Store.memo_fresh h0 r.1 ∧ fresh r.2).
Proof.
  induction fuel as [|fuel IH]; intros memo x Hmemo; simpl; [apply hoare_raise|].
  destruct (memo !! x) as [y|] eqn:Hx.
  { apply hoare_ret. split; [done|]. by apply (Hmemo x y). }
  eapply hoare_bind; [apply hoare_read|]. intros [items|entries] _.
  - eapply hoare_bind; [by apply hoare_alloc|]. intros y Hy.
    apply hoare_ret. split; [|done]. by apply map_Forall_insert_2.
  - eapply hoare_bind; [apply hoare_alloc; simpl; apply map_Forall_empty|].
    intros y Hy.
    eapply hoare_bind.
    + apply (hoare_for_each _ _ (Store.memo_fresh h0)).
      * intros memo1 [k v] Hmemo1 _. simpl.
        eapply hoare_bind; [by apply IH|]. intros [memo2 r] [Hmemo2 Hr]. simpl in *.
        eapply hoare_bind; [by apply hoare_set_item|]. intros _ _.
        by apply hoare_ret.
      * by apply map_Forall_insert_2.
    + intros memo1 Hmemo1. by apply hoare_ret.
Qed.

Lemma hoare_ensure_kind usage kind :
  fresh usage → Store.hoare inv (Store.ensure_kind usage kind) (λ _, True).
Proof.
  intros Hu. eapply hoare_bind; [apply hoare_contains_key|].
  intros [|] _; [by apply hoare_ret|].
  eapply hoare_bind; [apply hoare_alloc; simpl; apply map_Forall_empty|].
  intros d Hd. by apply hoare_set_item.
Qed.

Lemma hoare_merge_step usage a :
  fresh usage → Store.hoare inv (Store.merge_step usage a) (λ _, True).
Proof.
  intros Hu. unfold Store.merge_step.
  eapply hoare_bind; [by apply hoare_get_item|]. intros rooms Hrooms.
  eapply hoare_bind; [apply hoare_contains_key|]. intros has_room _.
  eapply hoare_bind.
  { instantiate (1 := λ _, True). destruct has_room; [by apply hoare_ret|].
    eapply hoare_bind; [apply hoare_alloc; simpl; apply map_Forall_empty|].
    intros d Hd. by apply hoare_set_item. }
  intros _ _.
  eapply hoare_bind; [by apply hoare_get_item|]. intros rooms' Hrooms'.
  eapply hoare_bind; [by apply hoare_get_item|]. intros days Hdays.
  eapply hoare_bind; [apply hoare_contains_key|]. intros has_day _.
  eapply hoare_bind.
  { instantiate (1 := λ _, True). destruct has_day; [by apply hoare_ret|].
    eapply hoare_bind; [by apply hoare_alloc|].
    intros l Hl. by apply hoare_set_item. }
  intros _ _.
  eapply hoare_bind; [by apply hoare_get_item|]. intros rooms2 Hrooms2.
  eapply hoare_bind; [by apply hoare_get_item|]. intros days2 Hdays2.
  eapply hoare_bind; [by apply hoare_get_item|]. intros slots Hslots.
  eapply hoare_bind; [apply hoare_contains_slot|]. intros [|] _; [by apply hoare_ret|].
  eapply hoare_bind; [by apply hoare_get_item|]. intros rooms3 Hrooms3.
  eapply hoare_bind; [by apply hoare_get_item|]. intros days3 Hdays3.
  eapply hoare_bind; [by apply hoare_get_item|]. intros slots3 Hslots3.
  by apply hoare_append.
Qed.

Lemma hoare_merge_usage_data existing_usage new_allocations :
  Store.hoare inv (Store.merge_usage_data existing_usage new_allocations) fresh.
Proof.
  unfold Store.merge_usage_data.
  eapply hoare_bind; [apply hoare_deepcopy, map_Forall_empty|].
  intros [memo usage] [_ Hu]. simpl in *.
  eapply hoare_bind; [by apply hoare_ensure_kind|]. intros _ _.
  eapply hoare_bind; [by apply hoare_ensure_kind|]. intros _ _.
  eapply hoare_bind.
  - apply (hoare_for_each _ _ (λ _, True)); [|done].
    intros _ a _ _. by apply hoare_merge_step.
  - intros _ _. by apply hoare_ret.
Qed.

End frame.

Lemma merge_usage_data_inv h existing_usage new_allocations :
  Store.inv h (Store.merge_usage_data existing_usage new_allocations h).1
  ∧ ∀ usage,
      (Store.merge_usage_data existing_usage new_allocations h).2 = Some usage →
      Store.fresh h usage.
Proof. apply hoare_merge_usage_data, inv_initial_store. Qed.

(** X17: The returned reference is a new object, and every dict reachable from it
    is new as well: the result shares nothing with the argument. *)
Lemma merge_usage_data_returns_fresh h existing_usage new_allocations usage :
  (Store.merge_usage_data existing_usage new_allocations h).2 = Some usage →
  Store.fresh h usage
  ∧ ∀ l o, Store.fresh h l →
      (Store.merge_usage_data existing_usage new_allocations h).1 !! l = Some o →
      Store.closed_obj h o.
Proof.
  intros Hres.
  destruct (merge_usage_data_inv h existing_usage new_allocations) as [Hinv Hfresh].
  split; [by apply Hfresh|]. intros l o. apply (Store.inv_closed _ _ Hinv).
Qed.

(** On the example store the call returns a new ledger at reference 5 in
    which slot 1 is added on Monday in R1; the argument at reference 4 still
    lists slots 0 and 2 only. *)
Lemma merge_usage_data_example :
  let out :=
    Store.merge_usage_data 4%nat [Allocation "theory" "R1" "Monday" 1 "S1A1-CS101"]
      Store.example_store in
  out.2 = Some 5%nat
  ∧ Store.slots_at out.1 5%nat "theory" "R1" "Monday" = [0; 2; 1]
  ∧ Store.slots_at out.1 4%nat "theory" "R1" "Monday" = [0; 2].
Proof. vm_compute. done. Qed.

(** C10.  [merge_usage_data] never mutates its [existing_usage] argument:
    for every store, every reference passed as [existing_usage] and every
    allocation list, each object of the store at the call (the argument dict
    and every nested room dict, day dict and slot list among them) is the
    same object after the call, whether the call returns or raises. *)
Theorem merge_usage_data_keeps_argument h existing_usage new_allocations l o :
  h !! l = Some o →
  (Store.merge_usage_data existing_usage new_allocations h).1 !! l = Some o.
Proof.
  intros Hlook.
  destruct (merge_usage_data_inv h existing_usage new_allocations) as [[Hpre _] _].
  by eapply prefix_lookup_Some.
Qed.

Lemma merge_usage_data_keeps_argument_witness :
  (Store.merge_usage_data 4%nat [Allocation "theory" "R1" "Monday" 1 "S1A1-CS101"]
     Store.example_store).1 !! 0%nat = Some (Store.OList [0; 2]).
Proof.
  apply (merge_usage_data_keeps_argument Store.example_store 4%nat
           [Allocation "theory" "R1" "Monday" 1 "S1A1-CS101"] 0%nat (Store.OList [0; 2])).
  reflexivity.
Defined.

(** ** Main CP model: what a returned schedule guarantees *)

(** A theory or lab allocation is written for a key of one pass whose
    variable exists and has value 1. *)
Lemma normal_allocation_origin inp ssm v a :
  a ∈ Solver.new_allocations_of (Solver.placements inp ssm v) →
  rtype a ≠ "cohort" →
  ∃ it k,
    it ∈ Solver.normal_iters inp ssm
    ∧ k ∈ Solver.iter_keys inp it
    ∧ k ∈ Solver.assignment_keys inp ssm
    ∧ Solver.assign v k = true
    ∧ a = Allocation (Solver.kind_of it) k.2 k.1.1.2 k.1.2
            (Solver.it_sec it +:+ "-" +:+ Solver.code (Solver.it_course it)).
Proof.
  intros Ha Hkind. apply list_elem_of_fmap in Ha as (p & -> & Hp). simpl in *.
  unfold Solver.placements in Hp. apply elem_of_app in Hp as [Hp|Hp].
  - unfold Solver.normal_placements in Hp.
    apply list_elem_of_bind in Hp as (it & Hp & Hit).
    apply list_elem_of_fmap in Hp as (k & -> & Hk).
    apply list_elem_of_filter in Hk as [[HkA Hkv] Hk].
    exists it, k. repeat (split; [done|]).
    pose proof (iter_keys_shape _ _ _ Hk) as [Hsec Hcode].
    simpl. by rewrite Hsec, Hcode.
  - exfalso. unfold Solver.cohort_placements in Hp.
    apply list_elem_of_bind in Hp as (sc & Hp & _).
    apply list_elem_of_bind in Hp as (sec & Hp & _).
    destruct (Solver.chosen_data _ _ _ _ _ _) as [data|];
      [|by apply elem_of_nil in Hp].
    apply list_elem_of_bind in Hp as (dt & Hp & _).
    destruct (friday_slot3 dt.1 dt.2); [by apply elem_of_nil in Hp|].
    apply list_elem_of_singleton in Hp as ->. by apply Hkind.
Qed.

(** The key behind a schedule entry without cohort section. *)
Lemma normal_entry_origin inp ssm v key sec c :
  Solver.schedule_map_of (Solver.placements inp ssm v) !! key = Some (sec, c, None) →
  ∃ it,
    it ∈ Solver.normal_iters inp ssm
    ∧ Solver.it_sec it = sec ∧ Solver.code (Solver.it_course it) = c
    ∧ (sec, c, key.1.1, key.1.2, key.2) ∈ Solver.iter_keys inp it
    ∧ (sec, c, key.1.1, key.1.2, key.2) ∈ Solver.assignment_keys inp ssm
    ∧ Solver.assign v (sec, c, key.1.1, key.1.2, key.2) = true.
Proof.
  intros Hl. apply schedule_map_lookup_Some in Hl as (p & Hp & Hk & Hv).
  injection Hv as Hsec Hcode Hnone.
  apply elem_of_placements_normal in Hp as (it & k & Hit & Hkey & HA & Hval & ->);
    [|done].
  pose proof (iter_keys_shape _ _ _ Hkey) as [Hs Hc].
  simpl in Hsec, Hcode. exists it.
  destruct k as [[[[s0 c0] d0] t0] r0]. simpl in *. subst.
  unfold Solver.placement_key. simpl. done.
Qed.

Section solver_guarantees.
Variable inp : Solver.input.
Variable ssm : gmap Z (list string).
Hypothesis Hwf : Solver.well_formed inp ssm.

(** A variable is created by the pass that looks it up, so it passed the
    usage test of the kind of that pass. *)
Lemma assignment_key_free it k :
  it ∈ Solver.normal_iters inp ssm →
  k ∈ Solver.iter_keys inp it →
  k ∈ Solver.assignment_keys inp ssm →
  Solver.free inp (Solver.kind_of it) k.
Proof.
  intros Hit Hk HA. unfold Solver.assignment_keys in HA.
  apply list_elem_of_bind in HA as (it' & HA & Hit').
  apply list_elem_of_filter in HA as [Hfree Hk'].
  pose proof (iter_keys_shape _ _ _ Hk) as [Hsec Hcode].
  pose proof (iter_keys_shape _ _ _ Hk') as [Hsec' Hcode'].
  assert (it' = it) as ->; [|done].
  apply (normal_iters_unique inp ssm Hwf); [done|done|congruence|congruence].
Qed.

(** A room is a theory room or a lab: the kind of a pass shows in the room
    of its keys. *)
Lemma iter_kind_by_room it k :
  k ∈ Solver.iter_keys inp it →
  (k.2 ∈ Solver.theory_rooms inp → Solver.is_lab (Solver.it_course it) = false)
  ∧ (k.2 ∈ Solver.combined_labs inp → Solver.is_lab (Solver.it_course it) = true).
Proof.
  intros Hk. pose proof (iter_keys_room _ _ _ Hk) as [_ Hroom].
  destruct (Solver.is_lab (Solver.it_course it)).
  - destruct Hroom as [_ Hlab]. split; [|done].
    intros Hth. by destruct (Solver.wf_room_kinds _ _ Hwf _ Hth).
  - destruct Hroom as (_ & _ & Hth). split; [done|].
    intros Hlab. by destruct (Solver.wf_room_kinds _ _ Hwf _ Hth).
Qed.

End solver_guarantees.

(** X1: No solver-placed class sits on a slot the usage ledger lists for its
    room and day under the kind of the class. *)
Theorem allocations_avoid_used_slots solve inp sched a :
  Solver.schedule_timetable solve inp = Return sched →
  Solver.well_formed inp (Solver.semester_sections_map sched) →
  a ∈ Solver.new_allocations sched →
  rtype a ≠ "cohort" →
  slot a ∉ Solver.used_slots inp (rtype a) (room a) (day a).
Proof.
  intros Hrun Hwf Ha Hkind.
  destruct (schedule_timetable_Return_placements _ _ _ Hrun) as (v & _ & Hal).
  rewrite Hal in Ha.
  apply normal_allocation_origin in Ha as (it & k & Hit & Hk & HA & _ & ->); [|done].
  simpl. by apply (assignment_key_free _ _ Hwf it k).
Qed.

Lemma allocations_avoid_used_slots_witness :
  (0 : Z) ∉ Solver.used_slots Solver.base_input "theory" "R1" "Monday".
Proof.
  apply (allocations_avoid_used_slots
           (Solver.solve_with Solver.base_valuation) Solver.base_input
           Solver.base_schedule
           (Allocation "theory" "R1" "Monday" 0 "S1A1-CS101")
           base_run base_input_well_formed).
  - vm_compute. apply list_elem_of_here.
  - discriminate.
Defined.

(** X2: Every theory or lab allocation is a class of a course of a selected
    semester for a section of that semester, of the kind of the course, on
    a day and slot of the catalog and in a room the course may use: a theory
    room, or, for a lab, one of [valid_labs]. *)
Theorem allocations_in_catalog solve inp sched a :
  Solver.schedule_timetable solve inp = Return sched →
  a ∈ Solver.new_allocations sched →
  rtype a ≠ "cohort" →
  ∃ sem sec c,
    sem ∈ Solver.selected_semesters inp
    ∧ sec ∈ Solver.sections_of (Solver.semester_sections_map sched) sem
    ∧ c ∈ Solver.courses_of inp sem
    ∧ label a = sec +:+ "-" +:+ Solver.code c
    ∧ day a ∈ Solver.DAYS inp
    ∧ if Solver.is_lab c
      then rtype a = "lab" ∧ slot a ∈ Solver.LAB_SLOTS inp
           ∧ room a ∈ Solver.valid_labs inp (Solver.code c)
      else rtype a = "theory" ∧ slot a ∈ Solver.THEORY_TIMESLOTS inp
           ∧ room a ∈ Solver.theory_rooms inp.
Proof.
  intros Hrun Ha Hkind.
  destruct (schedule_timetable_Return_placements _ _ _ Hrun) as (v & _ & Hal).
  rewrite Hal in Ha.
  apply normal_allocation_origin in Ha as (it & k & Hit & Hk & _ & _ & ->); [|done].
  apply elem_of_normal_iters in Hit as (Hsem & Hsec & Hc & _).
  exists (Solver.it_sem it), (Solver.it_sec it), (Solver.it_course it).
  repeat (split; [done|]). simpl.
  unfold Solver.iter_keys, Solver.kind_of in *.
  destruct (Solver.is_lab (Solver.it_course it)).
  - apply elem_of_lab_keys in Hk as (d & Hd & Hk).
    by apply elem_of_lab_keys_on in Hk as (ls & labr & -> & Hls & Hlabr).
  - apply elem_of_theory_keys in Hk as (d & Hd & Hk).
    by apply elem_of_theory_keys_on in Hk as (t & r & -> & Ht & _ & Hr).
Qed.

Lemma allocations_in_catalog_witness :
  ∃ sem sec c,
    sem ∈ Solver.selected_semesters Solver.base_input
    ∧ sec ∈ Solver.sections_of Solver.base_sections sem
    ∧ c ∈ Solver.courses_of Solver.base_input sem
    ∧ "S1A1-CS101L" = sec +:+ "-" +:+ Solver.code c
    ∧ "Friday" ∈ Solver.DAYS Solver.base_input
    ∧ if Solver.is_lab c
      then "lab" = "lab" ∧ 3 ∈ Solver.LAB_SLOTS Solver.base_input
           ∧ "LAB1" ∈ Solver.valid_labs Solver.base_input (Solver.code c)
      else "lab" = "theory" ∧ 3 ∈ Solver.THEORY_TIMESLOTS Solver.base_input
           ∧ "LAB1" ∈ Solver.theory_rooms Solver.base_input.
Proof.
  apply (allocations_in_catalog
           (Solver.solve_with Solver.base_valuation) Solver.base_input
           Solver.base_schedule
           (Allocation "lab" "LAB1" "Friday" 3 "S1A1-CS101L") base_run).
  - vm_compute. do 2 apply list_elem_of_further. apply list_elem_of_here.
  - discriminate.
Defined.



Lemma NoDup_bind_nested {A B C} (g : A → list B) (h : A → B → list C) (l : list A) :
  NoDup (l ≫= g) →
  (∀ x y, x ∈ l → y ∈ g x → NoDup (h x y)) →
  (∀ x x' y y' z, x ∈ l → x' ∈ l → y ∈ g x → y' ∈ g x' →
                  z ∈ h x y → z ∈ h x' y' → y = y') →
  NoDup (l ≫= λ x, g x ≫= h x).
Proof.
  induction l as [|x l IH]; intros Hnd Hh Hinj; [constructor|].
  rewrite bind_cons in Hnd. apply NoDup_app in Hnd as (Hx & Hdisj & Hl).
  rewrite bind_cons. apply NoDup_app. split; [|split].
  - apply NoDup_bind; [|intros y Hy; apply Hh; [by left|done]|done].
    intros y y' z Hy Hy' Hz Hz'.
    apply (Hinj x x y y' z); [by left|by left|done..].
  - intros z Hz Hz'.
    apply list_elem_of_bind in Hz as (y & Hz & Hy).
    apply list_elem_of_bind in Hz' as (x' & Hz' & Hx').
    apply list_elem_of_bind in Hz' as (y' & Hz' & Hy').
    assert (y = y') as <-.
    { apply (Hinj x x' y y' z); [by left|by right|done..]. }
    apply (Hdisj y Hy). apply list_elem_of_bind. eauto.
  - apply IH; [done| |].
    + intros x' y Hx' Hy. apply Hh; [by right|done].
    + intros x1 x2 y1 y2 z Hx1 Hx2. apply Hinj; by right.
Qed.

Lemma filter_fmap_app_kinds {A B} (f : A → B) (P : B → Prop)
    `{∀ b, Decision (P b)} (l1 l2 : list A) :
  (∀ x, x ∈ l1 → P (f x)) → (∀ x, x ∈ l2 → ¬ P (f x)) →
  filter P (f <$> (l1 ++ l2)) = f <$> l1.
Proof.
  intros H1 H2. rewrite fmap_app, filter_app.
  assert (filter P (f <$> l1) = f <$> l1) as ->.
  { clear H2. induction l1 as [|x l1 IH]; [done|].
    rewrite fmap_cons, filter_cons, decide_True by (apply H1; by left).
    rewrite IH; [done|]. intros y Hy. apply H1. by right. }
  assert (filter P (f <$> l2) = []) as ->.
  { clear H1. induction l2 as [|x l2 IH]; [done|].
    rewrite fmap_cons, filter_cons, decide_False by (apply H2; by left).
    apply IH. intros y Hy. apply H2. by right. }
  by rewrite app_nil_r.
Qed.

Lemma fmap_bind_list {A B C} (f : B → C) (g : A → list B) (l : list A) :
  f <$> (l ≫= g) = l ≫= (λ x, f <$> g x).
Proof.
  induction l as [|x l IH]; [done|].
  by rewrite !bind_cons, fmap_app, IH.
Qed.

Section no_double_booking.
Variable inp : Solver.input.
Variable ssm : gmap Z (list string).
Variable v : Solver.valuation.
Hypothesis Hwf : Solver.well_formed inp ssm.
Hypothesis Hmodel : Solver.model inp ssm v.

Lemma NoDup_normal_iters : NoDup (Solver.normal_iters inp ssm).
Proof.
  unfold Solver.normal_iters.
  apply (NoDup_bind_nested (Solver.sections_of ssm)
           (λ sem sec, c ← Solver.courses_of inp sem;
                       if Solver.is_cohort inp sem (Solver.code c) then []
                       else [Solver.Iter sem sec c])).
  - exact (Solver.wf_sections _ _ Hwf).
  - intros sem sec Hsem _. apply NoDup_bind.
    + intros c1 c2 it _ _ H1 H2.
      destruct (Solver.is_cohort inp sem (Solver.code c1)); [by apply elem_of_nil in H1|].
      destruct (Solver.is_cohort inp sem (Solver.code c2)); [by apply elem_of_nil in H2|].
      apply list_elem_of_singleton in H1 as ->.
      by apply list_elem_of_singleton in H2 as [= ->].
    + intros c _. destruct (Solver.is_cohort _ _ _); [constructor|apply NoDup_singleton].
    + eapply NoDup_fmap_1. exact (Solver.wf_codes _ _ Hwf sem Hsem).
  - intros sem sem' sec sec' it _ _ _ _ H1 H2.
    apply list_elem_of_bind in H1 as (c1 & H1 & _).
    apply list_elem_of_bind in H2 as (c2 & H2 & _).
    destruct (Solver.is_cohort inp sem (Solver.code c1)); [by apply elem_of_nil in H1|].
    destruct (Solver.is_cohort inp sem' (Solver.code c2)); [by apply elem_of_nil in H2|].
    apply list_elem_of_singleton in H1 as ->.
    by apply list_elem_of_singleton in H2 as [= _ -> _].
Qed.

(** The cells [(day, slot, room)] written by the normal passes are pairwise
    distinct: no write to [schedule_map] replaces an earlier one. *)
Lemma NoDup_normal_placement_keys :
  NoDup (Solver.placement_key <$> Solver.normal_placements inp ssm v).
Proof.
  unfold Solver.normal_placements. rewrite fmap_bind_list.
  apply NoDup_bind; [| |apply NoDup_normal_iters].
  - intros it1 it2 cell Hit1 Hit2 H1 H2. simpl in H1, H2.
    apply list_elem_of_fmap in H1 as (p1 & -> & H1).
    apply list_elem_of_fmap in H1 as (k1 & -> & H1).
    apply list_elem_of_fmap in H2 as (p2 & Heq & H2).
    apply list_elem_of_fmap in H2 as (k2 & -> & H2).
    injection Heq as Hd Hs Hr.
    by apply (chosen_keys_same_cell inp ssm v Hwf Hmodel it1 it2 k1 k2).
  - intros it Hit. simpl. rewrite <- list_fmap_compose.
    apply NoDup_fmap_2_strong.
    + intros k1 k2 Hk1 Hk2 [= Hd Hs Hr].
      apply list_elem_of_filter in Hk1 as [_ Hk1].
      apply list_elem_of_filter in Hk2 as [_ Hk2].
      pose proof (iter_keys_shape _ _ _ Hk1) as [Hsec1 Hcode1].
      pose proof (iter_keys_shape _ _ _ Hk2) as [Hsec2 Hcode2].
      destruct k1 as [[[[s1 c1] d1] t1] r1], k2 as [[[[s2 c2] d2] t2] r2].
      simpl in *. congruence.
    + apply NoDup_filter, (NoDup_iter_keys inp ssm Hwf).
Qed.

End no_double_booking.

Lemma non_cohort_allocations inp ssm v :
  filter (λ a, rtype a ≠ "cohort")
         (Solver.new_allocations_of (Solver.placements inp ssm v))
  = Solver.new_allocations_of (Solver.normal_placements inp ssm v).
Proof.
  unfold Solver.new_allocations_of, Solver.placements.
  apply filter_fmap_app_kinds.
  - intros p Hp. simpl. unfold Solver.normal_placements in Hp.
    apply list_elem_of_bind in Hp as (it & Hp & _).
    apply list_elem_of_fmap in Hp as (k & -> & _). simpl.
    unfold Solver.kind_of. by destruct (Solver.is_lab _).
  - intros p Hp. simpl. unfold Solver.cohort_placements in Hp.
    apply list_elem_of_bind in Hp as (sc & Hp & _).
    apply list_elem_of_bind in Hp as (sec & Hp & _).
    destruct (Solver.chosen_data _ _ _ _ _ _) as [data|];
      [|by apply elem_of_nil in Hp].
    apply list_elem_of_bind in Hp as (dt & Hp & _).
    destruct (friday_slot3 dt.1 dt.2); [by apply elem_of_nil in Hp|].
    apply list_elem_of_singleton in Hp as ->. simpl. by intros [].
Qed.




Lemma iter_section inp ssm it :
  it ∈ Solver.normal_iters inp ssm →
  Solver.it_sec it ∈ Solver.all_sections inp ssm
  ∧ Solver.it_course it
      ∈ Solver.courses_of_kind inp (Solver.is_lab (Solver.it_course it)).
Proof.
  intros Hit. apply elem_of_normal_iters in Hit as (Hsem & Hsec & Hc & Hnc).
  split.
  - unfold Solver.all_sections. apply list_elem_of_bind. eauto.
  - unfold Solver.courses_of_kind. apply list_elem_of_bind.
    exists (Solver.it_sem it). split; [|done]. by apply list_elem_of_filter.
Qed.

(** What stands behind a schedule entry in a theory room, and behind one in
    any other room. *)
Lemma theory_entry_facts inp ssm v key sec c :
  Solver.well_formed inp ssm →
  Solver.schedule_map_of (Solver.placements inp ssm v) !! key = Some (sec, c, None) →
  key.2 ∈ Solver.theory_rooms inp →
  sec ∈ Solver.all_sections inp ssm
  ∧ key.1.1 ∈ Solver.DAYS inp
  ∧ key.1.2 ∈ Solver.THEORY_TIMESLOTS inp
  ∧ friday_slot3 key.1.1 key.1.2 = false
  ∧ (∃ c0, c0 ∈ Solver.courses_of_kind inp false ∧ Solver.code c0 = c)
  ∧ (∃ it, it ∈ Solver.normal_iters inp ssm ∧ Solver.it_sec it = sec
           ∧ (sec, c, key.1.1, key.1.2, key.2) ∈ Solver.iter_keys inp it)
  ∧ (sec, c, key.1.1, key.1.2, key.2) ∈ Solver.assignment_keys inp ssm
  ∧ Solver.assign v (sec, c, key.1.1, key.1.2, key.2) = true.
Proof.
  intros Hwf Hl Hroom.
  apply normal_entry_origin in Hl as (it & Hit & Hsec & Hcode & Hk & HA & Hv).
  pose proof (iter_kind_by_room _ _ Hwf _ _ Hk) as [Hth _].
  specialize (Hth Hroom).
  pose proof (iter_keys_room _ _ _ Hk) as [Hday Hrest]. rewrite Hth in Hrest.
  destruct Hrest as (Hslot & Hb & _).
  pose proof (iter_section _ _ _ Hit) as [Hall Hkind]. rewrite Hth in Hkind.
  rewrite Hsec in Hall. simpl in *. repeat (split; [done|]).
  split; [by exists (Solver.it_course it)|].
  split; [by exists it|done].
Qed.

Lemma lab_entry_facts inp ssm v key sec c :
  Solver.schedule_map_of (Solver.placements inp ssm v) !! key = Some (sec, c, None) →
  key.2 ∉ Solver.theory_rooms inp →
  sec ∈ Solver.all_sections inp ssm
  ∧ key.1.1 ∈ Solver.DAYS inp
  ∧ key.1.2 ∈ Solver.LAB_SLOTS inp
  ∧ key.2 ∈ Solver.combined_labs inp
  ∧ key.2 ∈ Solver.valid_labs inp c
  ∧ (∃ c0, c0 ∈ Solver.courses_of_kind inp true ∧ Solver.code c0 = c)
  ∧ (∃ it, it ∈ Solver.normal_iters inp ssm ∧ Solver.it_sec it = sec
           ∧ (sec, c, key.1.1, key.1.2, key.2) ∈ Solver.iter_keys inp it)
  ∧ (sec, c, key.1.1, key.1.2, key.2) ∈ Solver.assignment_keys inp ssm
  ∧ Solver.assign v (sec, c, key.1.1, key.1.2, key.2) = true.
Proof.
  intros Hl Hroom.
  apply normal_entry_origin in Hl as (it & Hit & Hsec & Hcode & Hk & HA & Hv).
  pose proof (iter_keys_room _ _ _ Hk) as [Hday Hrest].
  pose proof (iter_section _ _ _ Hit) as [Hall Hkind].
  pose proof Hk as Hk'. unfold Solver.iter_keys in Hk'.
  destruct (Solver.is_lab (Solver.it_course it)) eqn:Hlab.
  - destruct Hrest as [Hslot Hcomb].
    apply elem_of_lab_keys in Hk' as (d & _ & Hk').
    apply elem_of_lab_keys_on in Hk' as (ls & labr & Heq & _ & Hlabr).
    assert (key.2 = labr) as Hr by congruence.
    rewrite Hsec in Hall. simpl in *. repeat (split; [done|]).
    split; [by rewrite Hr, <- Hcode|].
    split; [by exists (Solver.it_course it)|].
    split; [by exists it|done].
  - by destruct Hrest as (_ & _ & Hth).
Qed.

Section section_timetable.
Variable inp : Solver.input.
Variable ssm : gmap Z (list string).
Variable v : Solver.valuation.

Let A := Solver.assignment_keys inp ssm.

Lemma has_theory_ge sec c0 d t r :
  c0 ∈ Solver.courses_of_kind inp false → r ∈ Solver.theory_rooms inp →
  Solver.term v A (sec, Solver.code c0, d, t, r)
    ≤ Solver.has_theory inp ssm v sec d t.
Proof.
  intros Hc Hr. unfold Solver.has_theory.
  apply (sumZ_ge_elem (Solver.term v A)); [intros k; apply term_range|].
  unfold Solver.section_theory_keys.
  apply list_elem_of_bind. exists c0. split; [|done].
  apply list_elem_of_bind. exists r. split; [|done].
  by apply list_elem_of_singleton.
Qed.

Lemma has_lab_ge sec c0 d ls labr :
  c0 ∈ Solver.courses_of_kind inp true → labr ∈ Solver.combined_labs inp →
  Solver.term v A (sec, Solver.code c0, d, ls, labr)
    ≤ Solver.has_lab inp ssm v sec d ls.
Proof.
  intros Hc Hr. unfold Solver.has_lab.
  apply (sumZ_ge_elem (Solver.term v A)); [intros k; apply term_range|].
  unfold Solver.section_lab_keys.
  apply list_elem_of_bind. exists c0. split; [|done].
  apply list_elem_of_bind. exists labr. split; [|done].
  by apply list_elem_of_singleton.
Qed.

Lemma has_theory_ge_two sec c1 c2 d t r1 r2 :
  c1 ∈ Solver.courses_of_kind inp false → r1 ∈ Solver.theory_rooms inp →
  c2 ∈ Solver.courses_of_kind inp false → r2 ∈ Solver.theory_rooms inp →
  (Solver.code c1, r1) ≠ (Solver.code c2, r2) →
  Solver.term v A (sec, Solver.code c1, d, t, r1)
  + Solver.term v A (sec, Solver.code c2, d, t, r2)
    ≤ Solver.has_theory inp ssm v sec d t.
Proof.
  intros Hc1 Hr1 Hc2 Hr2 Hne. unfold Solver.has_theory.
  apply (sumZ_ge_two (Solver.term v A)); [intros k; apply term_range| | |].
  - unfold Solver.section_theory_keys.
    apply list_elem_of_bind. exists c1. split; [|done].
    apply list_elem_of_bind. exists r1. split; [|done].
    by apply list_elem_of_singleton.
  - unfold Solver.section_theory_keys.
    apply list_elem_of_bind. exists c2. split; [|done].
    apply list_elem_of_bind. exists r2. split; [|done].
    by apply list_elem_of_singleton.
  - intros [= Hc Hr]. apply Hne. by rewrite Hc, Hr.
Qed.

Lemma has_lab_ge_two sec c1 c2 d ls r1 r2 :
  c1 ∈ Solver.courses_of_kind inp true → r1 ∈ Solver.combined_labs inp →
  c2 ∈ Solver.courses_of_kind inp true → r2 ∈ Solver.combined_labs inp →
  (Solver.code c1, r1) ≠ (Solver.code c2, r2) →
  Solver.term v A (sec, Solver.code c1, d, ls, r1)
  + Solver.term v A (sec, Solver.code c2, d, ls, r2)
    ≤ Solver.has_lab inp ssm v sec d ls.
Proof.
  intros Hc1 Hr1 Hc2 Hr2 Hne. unfold Solver.has_lab.
  apply (sumZ_ge_two (Solver.term v A)); [intros k; apply term_range| | |].
  - unfold Solver.section_lab_keys.
    apply list_elem_of_bind. exists c1. split; [|done].
    apply list_elem_of_bind. exists r1. split; [|done].
    by apply list_elem_of_singleton.
  - unfold Solver.section_lab_keys.
    apply list_elem_of_bind. exists c2. split; [|done].
    apply list_elem_of_bind. exists r2. split; [|done].
    by apply list_elem_of_singleton.
  - intros [= Hc Hr]. apply Hne. by rewrite Hc, Hr.
Qed.

End section_timetable.

(** X5: A section is never in two places at once: two of its solver-placed
    classes on one day are not in the same theory slot, not in the same lab
    slot, and a lab does not run while a theory slot it overlaps (by
    [LAB_OVERLAP_MAP]) holds a class of the section. *)
Theorem section_never_overlaps solve inp sched k1 k2 sec c1 c2 :
  Solver.sound solve →
  Solver.schedule_timetable solve inp = Return sched →
  Solver.well_formed inp (Solver.semester_sections_map sched) →
  Solver.schedule_map sched !! k1 = Some (sec, c1, None) →
  Solver.schedule_map sched !! k2 = Some (sec, c2, None) →
  k1 ≠ k2 →
  k1.1.1 = k2.1.1 →
  let theory (k : string * Z * string) := k.2 ∈ Solver.theory_rooms inp in
  (theory k1 → theory k2 → k1.1.2 ≠ k2.1.2)
  ∧ (¬ theory k1 → ¬ theory k2 → k1.1.2 ≠ k2.1.2)
  ∧ (¬ theory k1 → theory k2 → k2.1.2 ∉ Solver.overlap_list inp k1.1.2).
Proof.
  intros Hsound Hrun Hwf Hl1 Hl2 Hne Hday theory.
  destruct (schedule_timetable_Return _ _ _ Hsound Hrun) as (v & Hmodel & Hsm & _).
  rewrite Hsm in Hl1, Hl2.
  destruct Hmodel as (_ & _ & Hsection & Hoverlap & _).
  destruct k1 as [[d t1] r1], k2 as [[d2 t2] r2]. simpl in Hday. subst d2.
  unfold theory. simpl. split; [|split].
  - intros Hr1 Hr2 Ht. subst t2.
    apply (theory_entry_facts _ _ _ _ _ _ Hwf) in Hl1
      as (Hsec & Hd & Ht & Hb & (c1' & Hc1 & <-) & _ & HA1 & Hv1); [|done].
    apply (theory_entry_facts _ _ _ _ _ _ Hwf) in Hl2
      as (_ & _ & _ & _ & (c2' & Hc2 & <-) & _ & HA2 & Hv2); [|done].
    simpl in *.
    unfold Solver.section_constraints in Hsection.
    rewrite Forall_forall in Hsection. specialize (Hsection _ Hsec).
    rewrite Forall_forall in Hsection. destruct (Hsection _ Hd) as [Hth _].
    rewrite Forall_forall in Hth. specialize (Hth _ Ht Hb).
    pose proof (has_theory_ge_two inp (Solver.semester_sections_map sched) v sec c1' c2' d t1 r1 r2 Hc1 Hr1 Hc2 Hr2) as Hge.
    assert (Solver.term v (Solver.assignment_keys inp (Solver.semester_sections_map sched))
              (sec, Solver.code c1', d, t1, r1) = 1) as H1 by (by apply term_one).
    assert (Solver.term v (Solver.assignment_keys inp (Solver.semester_sections_map sched))
              (sec, Solver.code c2', d, t1, r2) = 1) as H2 by (by apply term_one).
    assert ((Solver.code c1', r1) ≠ (Solver.code c2', r2)) as Hcr.
    { intros [= Hc Hr]. apply Hne. by rewrite Hr. }
    specialize (Hge Hcr). lia.
  - intros Hr1 Hr2 Ht. subst t2.
    apply lab_entry_facts in Hl1
      as (Hsec & Hd & Hls & Hcomb1 & _ & (c1' & Hc1 & <-) & _ & HA1 & Hv1); [|done].
    apply lab_entry_facts in Hl2
      as (_ & _ & _ & Hcomb2 & _ & (c2' & Hc2 & <-) & _ & HA2 & Hv2); [|done].
    simpl in *.
    unfold Solver.section_constraints in Hsection.
    rewrite Forall_forall in Hsection. specialize (Hsection _ Hsec).
    rewrite Forall_forall in Hsection. destruct (Hsection _ Hd) as [_ Hlab].
    rewrite Forall_forall in Hlab. specialize (Hlab _ Hls).
    pose proof (has_lab_ge_two inp (Solver.semester_sections_map sched) v sec c1' c2' d t1 r1 r2 Hc1 Hcomb1 Hc2 Hcomb2)
      as Hge.
    assert (Solver.term v (Solver.assignment_keys inp (Solver.semester_sections_map sched))
              (sec, Solver.code c1', d, t1, r1) = 1) as H1 by (by apply term_one).
    assert (Solver.term v (Solver.assignment_keys inp (Solver.semester_sections_map sched))
              (sec, Solver.code c2', d, t1, r2) = 1) as H2 by (by apply term_one).
    assert ((Solver.code c1', r1) ≠ (Solver.code c2', r2)) as Hcr.
    { intros [= Hc Hr]. apply Hne. by rewrite Hr. }
    specialize (Hge Hcr). lia.
  - intros Hr1 Hr2 Hov.
    apply lab_entry_facts in Hl1
      as (Hsec & Hd & Hls & _ & Hvalid & (c1' & Hc1 & <-) & _ & HA1 & Hv1); [|done].
    apply (theory_entry_facts _ _ _ _ _ _ Hwf) in Hl2
      as (_ & _ & Ht & Hb & (c2' & Hc2 & <-) & _ & HA2 & Hv2); [|done].
    simpl in *.
    unfold Solver.overlap_constraints in Hoverlap.
    rewrite Forall_forall in Hoverlap. specialize (Hoverlap _ Hsec).
    rewrite Forall_forall in Hoverlap. specialize (Hoverlap _ Hd).
    rewrite Forall_forall in Hoverlap. specialize (Hoverlap _ Hc1).
    rewrite Forall_forall in Hoverlap. specialize (Hoverlap _ Hls).
    rewrite Forall_forall in Hoverlap. specialize (Hoverlap _ Hvalid HA1).
    rewrite Forall_forall in Hoverlap. specialize (Hoverlap _ Hc2).
    rewrite Forall_forall in Hoverlap. specialize (Hoverlap _ Hov Hb).
    rewrite Forall_forall in Hoverlap. specialize (Hoverlap _ Hr2 HA2).
    simpl in Hoverlap. rewrite Hv1, Hv2 in Hoverlap. simpl in Hoverlap. lia.
Qed.

Lemma timetable_example_run :
  Solver.schedule_timetable (Solver.solve_with Timetable.example_valuation)
    Timetable.example_input = Return Timetable.example_schedule.
Proof. vm_compute. reflexivity. Qed.

Lemma timetable_example_well_formed :
  Solver.well_formed Timetable.example_input Solver.base_sections.
Proof.
  split.
  - apply (bool_decide_unpack _); vm_compute; exact I.
  - apply (bool_decide_unpack _); vm_compute; exact I.
  - apply (bool_decide_unpack _); vm_compute; exact I.
  - apply (bool_decide_unpack _); vm_compute; exact I.
  - apply (bool_decide_unpack _); vm_compute; exact I.
  - intros c rooms Hc. simpl in Hc. by rewrite lookup_empty in Hc.
  - intros r Hr. simpl in Hr. apply list_elem_of_singleton in Hr as ->.
    apply (bool_decide_unpack _); vm_compute; exact I.
  - intros r Hr. assert (Hnil : Solver.cohort_rooms Timetable.example_input = [])
      by (vm_compute; reflexivity).
    rewrite Hnil in Hr. by apply elem_of_nil in Hr.
  - apply (bool_decide_unpack _); vm_compute; exact I.
  - intros sem Hsem. simpl in Hsem. apply list_elem_of_singleton in Hsem as ->.
    apply (bool_decide_unpack _); vm_compute; exact I.
Qed.

Lemma section_never_overlaps_witness :
  (0 : Z) ≠ 2.
Proof.
  destruct (section_never_overlaps
              (Solver.solve_with Timetable.example_valuation) Timetable.example_input
              Timetable.example_schedule ("Monday", 0, "R1") ("Monday", 2, "R1")
              "S1A1" "CS101" "MA101"
              (solver_solve_with_sound _) timetable_example_run
              timetable_example_well_formed)
    as (Hth & _ & _).
  - vm_compute. reflexivity.
  - vm_compute. reflexivity.
  - discriminate.
  - reflexivity.
  - apply Hth; apply (bool_decide_unpack _); vm_compute; exact I.
Defined.

(** In each table a slot ends after it starts; a slot the table does not
    have counts as 0 to 0. *)
Lemma theory_slot_order t :
  default 0 (Solver.theory_start_times t) ≤ default 0 (Solver.theory_end_times t).
Proof.
  destruct t as [|[[[]|[]|]|[[]|[]|]|]|]; simpl; lia.
Qed.

Lemma lab_slot_order ls :
  default 0 (Solver.lab_start_times ls) ≤ default 0 (Solver.lab_end_times ls).
Proof.
  destruct ls as [|[[[]|[]|]|[[]|[]|]|]|]; simpl; lia.
Qed.

(** X6: With a positive minimum gap a section never has a theory class and a
    lab on the same day: for every theory slot and lab slot one of the two
    gaps (lab after theory, theory after lab) is below the minimum, so the
    pair is excluded, whatever the times. *)
Theorem theory_and_lab_on_different_days solve inp sched k1 k2 sec c1 c2 :
  Solver.sound solve →
  Solver.schedule_timetable solve inp = Return sched →
  Solver.well_formed inp (Solver.semester_sections_map sched) →
  0 < Solver.minGapMinutes (Solver.constraints inp) →
  Solver.schedule_map sched !! k1 = Some (sec, c1, None) →
  Solver.schedule_map sched !! k2 = Some (sec, c2, None) →
  k1.2 ∈ Solver.theory_rooms inp →
  k2.2 ∉ Solver.theory_rooms inp →
  k1.1.1 ≠ k2.1.1.
Proof.
  intros Hsound Hrun Hwf Hgap Hl1 Hl2 Hr1 Hr2 Hday.
  destruct (schedule_timetable_Return _ _ _ Hsound Hrun) as (v & Hmodel & Hsm & _).
  rewrite Hsm in Hl1, Hl2.
  destruct Hmodel as (_ & _ & _ & _ & _ & _ & _ & _ & Hgaps & _).
  destruct k1 as [[d t] r1], k2 as [[d2 ls] r2]. simpl in *. subst d2.
  apply (theory_entry_facts _ _ _ _ _ _ Hwf) in Hl1
    as (Hsec & Hd & Ht & Hb & (c1' & Hc1 & <-) & _ & HA1 & Hv1); [|done].
  apply lab_entry_facts in Hl2
    as (_ & _ & Hls & Hcomb & _ & (c2' & Hc2 & <-) & _ & HA2 & Hv2); [|done].
  simpl in *.
  specialize (Hgaps Hgap).
  rewrite Forall_forall in Hgaps. specialize (Hgaps _ Hsec).
  rewrite Forall_forall in Hgaps. destruct (Hgaps _ Hd) as (_ & _ & Hpairs).
  rewrite Forall_forall in Hpairs. specialize (Hpairs _ Ht Hb).
  rewrite Forall_forall in Hpairs. destruct (Hpairs _ Hls) as [Hg1 Hg2].
  pose proof (has_theory_ge inp (Solver.semester_sections_map sched) v
                sec c1' d t r1 Hc1 Hr1) as Hth.
  pose proof (has_lab_ge inp (Solver.semester_sections_map sched) v
                sec c2' d ls r2 Hc2 Hcomb) as Hlab.
  assert (Solver.term v (Solver.assignment_keys inp (Solver.semester_sections_map sched))
            (sec, Solver.code c1', d, t, r1) = 1) as H1 by (by apply term_one).
  assert (Solver.term v (Solver.assignment_keys inp (Solver.semester_sections_map sched))
            (sec, Solver.code c2', d, ls, r2) = 1) as H2 by (by apply term_one).
  pose proof (theory_slot_order t). pose proof (lab_slot_order ls).
  destruct (decide (default 0 (Solver.lab_start_times ls)
                    - default 0 (Solver.theory_end_times t)
                    < Solver.minGapMinutes (Solver.constraints inp))) as [Hlt|Hge].
  - specialize (Hg1 Hlt). lia.
  - assert (default 0 (Solver.theory_start_times t)
            - default 0 (Solver.lab_end_times ls)
            < Solver.minGapMinutes (Solver.constraints inp)) as Hlt by lia.
    specialize (Hg2 Hlt). lia.
Qed.

Lemma theory_and_lab_on_different_days_witness : "Monday" ≠ "Tuesday".
Proof.
  apply (theory_and_lab_on_different_days
           (Solver.solve_with Timetable.example_valuation) Timetable.example_input
           Timetable.example_schedule ("Monday", 0, "R1") ("Tuesday", 0, "LAB1")
           "S1A1" "CS101" "CS101L"
           (solver_solve_with_sound _) timetable_example_run
           timetable_example_well_formed).
  - simpl. lia.
  - vm_compute. reflexivity.
  - vm_compute. reflexivity.
  - apply (bool_decide_unpack _); vm_compute; exact I.
  - apply (bool_decide_unpack _); vm_compute; exact I.
Defined.

Lemma length_filter_le_sumZ {A} (P : A → Prop) `{∀ x, Decision (P x)}
    (f : A → Z) (l : list A) :
  (∀ x, 0 ≤ f x) → (∀ x, x ∈ l → P x → 1 ≤ f x) →
  Z.of_nat (length (filter P l)) ≤ sumZ (f <$> l).
Proof.
  intros Hf HP. induction l as [|x l IH]; [done|].
  rewrite fmap_cons, sumZ_cons, filter_cons.
  assert (Z.of_nat (length (filter P l)) ≤ sumZ (f <$> l)) as Hl.
  { apply IH. intros y Hy. apply HP. by right. }
  destruct (decide (P x)) as [Hx|Hx].
  - rewrite length_cons. specialize (HP x (list_elem_of_here _ _) Hx). lia.
  - specialize (Hf x). lia.
Qed.

(** X7: A section has solver-placed classes on at most [workingDaysPerWeek]
    days of the week. *)
Theorem working_days_bounded solve inp sched sec :
  Solver.sound solve →
  Solver.schedule_timetable solve inp = Return sched →
  sec ∈ Solver.all_sections inp (Solver.semester_sections_map sched) →
  Z.of_nat (length (filter (Timetable.busy_day (Solver.schedule_map sched) sec)
                           (Solver.DAYS inp)))
    ≤ Solver.workingDaysPerWeek (Solver.constraints inp).
Proof.
  intros Hsound Hrun Hsec.
  destruct (schedule_timetable_Return _ _ _ Hsound Hrun) as (v & Hmodel & Hsm & _).
  destruct Hmodel as (_ & _ & _ & _ & _ & _ & [Huse Hweek] & _).
  rewrite Forall_forall in Hweek. specialize (Hweek _ Hsec).
  etransitivity; [|exact Hweek].
  apply (length_filter_le_sumZ _ (λ d, b2z (Solver.day_in_use v (sec, d)))).
  { intros d. apply b2z_range. }
  intros d Hd Hbusy. unfold Timetable.busy_day in Hbusy.
  apply Exists_exists in Hbusy as ([key [[sec' c] coh]] & He & Hday & Hs & Hc).
  simpl in Hday, Hs, Hc. subst sec' coh.
  apply elem_of_map_to_list in He. rewrite Hsm in He.
  apply normal_entry_origin in He as (it & Hit & Hitsec & Hcode & Hk & HA & Hv).
  rewrite Hday in Hk, HA, Hv.
  pose proof Hit as Hit'.
  apply elem_of_normal_iters in Hit' as (Hsem & Hsecs & Hcourse & Hnc).
  rewrite Forall_forall in Huse. specialize (Huse _ Hsem).
  rewrite Forall_forall in Huse. specialize (Huse _ Hsecs).
  rewrite Forall_forall in Huse. specialize (Huse _ Hd).
  cbn zeta in Huse. destruct Huse as [_ Hbig]. rewrite Hitsec in Hbig.
  set (K := (sec, c, d, key.1.2, key.2) : Solver.akey) in *.
  assert (Solver.term v (Solver.assignment_keys inp (Solver.semester_sections_map sched)) K
          ≤ sumZ (Solver.term v (Solver.assignment_keys inp
                                   (Solver.semester_sections_map sched))
                  <$> (c0 ← filter (λ c0, Solver.is_cohort inp (Solver.it_sem it)
                                            (Solver.code c0) = false)
                                   (Solver.courses_of inp (Solver.it_sem it));
                       Solver.iter_keys_on inp
                         (Solver.Iter (Solver.it_sem it) sec c0) d))) as Hge.
  { apply (sumZ_ge_elem (Solver.term v _)); [intros k; apply term_range|].
    apply list_elem_of_bind. exists (Solver.it_course it).
    split; [|by apply list_elem_of_filter].
    unfold Solver.iter_keys in Hk. unfold Solver.iter_keys_on. simpl.
    rewrite Hitsec in Hk.
    destruct (Solver.is_lab (Solver.it_course it)).
    - apply elem_of_lab_keys in Hk as (d' & _ & Hk). pose proof Hk as Hk'.
      apply elem_of_lab_keys_on in Hk' as (ls & labr & Heq & _).
      assert (d' = d) as -> by (unfold K in Heq; congruence). done.
    - apply elem_of_theory_keys in Hk as (d' & _ & Hk). pose proof Hk as Hk'.
      apply elem_of_theory_keys_on in Hk' as (t & r & Heq & _).
      assert (d' = d) as -> by (unfold K in Heq; congruence). done. }
  assert (Solver.term v (Solver.assignment_keys inp (Solver.semester_sections_map sched)) K
          = 1) as Hone by (by apply term_one).
  pose proof (b2z_range (Solver.day_in_use v (sec, d))). lia.
Qed.

Lemma working_days_bounded_witness :
  Z.of_nat (length (filter (Timetable.busy_day
                              (Solver.schedule_map Timetable.example_schedule) "S1A1")
                           Solver.week)) ≤ 6.
Proof.
  apply (working_days_bounded
           (Solver.solve_with Timetable.example_valuation) Timetable.example_input
           Timetable.example_schedule "S1A1"
           (solver_solve_with_sound _) timetable_example_run).
  apply (bool_decide_unpack _); vm_compute; exact I.
Defined.

Lemma foldr_min_le (b : Z) (l : list Z) x : x ∈ l → foldr Z.min b l ≤ x.
Proof.
  induction l as [|y l IH]; intros Hx; [by apply elem_of_nil in Hx|].
  simpl. apply elem_of_cons in Hx as [->|Hx]; [lia|]. specialize (IH Hx). lia.
Qed.

Lemma foldr_max_ge (b : Z) (l : list Z) x : x ∈ l → x ≤ foldr Z.max b l.
Proof.
  induction l as [|y l IH]; intros Hx; [by apply elem_of_nil in Hx|].
  simpl. apply elem_of_cons in Hx as [->|Hx]; [lia|]. specialize (IH Hx). lia.
Qed.

Section daily_span.
Variable inp : Solver.input.
Variable ssm : gmap Z (list string).
Variable v : Solver.valuation.
Hypothesis Hwf : Solver.well_formed inp ssm.

(** The start and end of the slot of an entry are among the start and end
    variables of its section and day. *)
Lemma entry_span_vars key sec c :
  Solver.schedule_map_of (Solver.placements inp ssm v) !! key = Some (sec, c, None) →
  let d := key.1.1 in
  let theory_slots :=
    filter (λ t, friday_slot3 d t = false) (Solver.THEORY_TIMESLOTS inp) in
  let start_vars :=
    ((λ t, Solver.start_var (Solver.has_theory inp ssm v sec d t)
             (default 0 (Solver.theory_start_times t))) <$> theory_slots)
    ++ ((λ ls, Solver.start_var (Solver.has_lab inp ssm v sec d ls)
                 (default 0 (Solver.lab_start_times ls))) <$> Solver.LAB_SLOTS inp) in
  let end_vars :=
    ((λ t, Solver.end_var (Solver.has_theory inp ssm v sec d t)
             (default 0 (Solver.theory_end_times t))) <$> theory_slots)
    ++ ((λ ls, Solver.end_var (Solver.has_lab inp ssm v sec d ls)
                 (default 0 (Solver.lab_end_times ls))) <$> Solver.LAB_SLOTS inp) in
  sec ∈ Solver.all_sections inp ssm
  ∧ d ∈ Solver.DAYS inp
  ∧ Timetable.start_minute inp key ∈ start_vars
  ∧ Timetable.end_minute inp key ∈ end_vars.
Proof.
  intros Hl d theory_slots start_vars end_vars.
  unfold Timetable.start_minute, Timetable.end_minute.
  destruct (decide (key.2 ∈ Solver.theory_rooms inp)) as [Hr|Hr].
  - rewrite !bool_decide_eq_true_2 by done.
    apply (theory_entry_facts _ _ _ _ _ _ Hwf) in Hl
      as (Hsec & Hd & Ht & Hb & (c' & Hc & <-) & _ & HA & Hv); [|done].
    pose proof (has_theory_ge inp ssm v sec c' d key.1.2 key.2 Hc Hr) as Hge.
    assert (Solver.term v (Solver.assignment_keys inp ssm)
              (sec, Solver.code c', d, key.1.2, key.2) = 1) as Hone
      by (by apply term_one).
    assert ((Solver.has_theory inp ssm v sec d key.1.2 =? 0) = false) as Hnz
      by (apply Z.eqb_neq; lia).
    repeat (split; [done|]). split.
    + apply elem_of_app. left. apply list_elem_of_fmap. exists key.1.2.
      unfold Solver.start_var. rewrite Hnz. split; [done|].
      by apply list_elem_of_filter.
    + apply elem_of_app. left. apply list_elem_of_fmap. exists key.1.2.
      unfold Solver.end_var. rewrite Hnz. split; [done|].
      by apply list_elem_of_filter.
  - rewrite !bool_decide_eq_false_2 by done.
    apply lab_entry_facts in Hl
      as (Hsec & Hd & Hls & Hcomb & _ & (c' & Hc & <-) & _ & HA & Hv); [|done].
    pose proof (has_lab_ge inp ssm v sec c' d key.1.2 key.2 Hc Hcomb) as Hge.
    assert (Solver.term v (Solver.assignment_keys inp ssm)
              (sec, Solver.code c', d, key.1.2, key.2) = 1) as Hone
      by (by apply term_one).
    assert ((Solver.has_lab inp ssm v sec d key.1.2 =? 0) = false) as Hnz
      by (apply Z.eqb_neq; lia).
    repeat (split; [done|]). split.
    + apply elem_of_app. right. apply list_elem_of_fmap. exists key.1.2.
      unfold Solver.start_var. by rewrite Hnz.
    + apply elem_of_app. right. apply list_elem_of_fmap. exists key.1.2.
      unfold Solver.end_var. by rewrite Hnz.
Qed.

End daily_span.

(** X8: The day of a section is no longer than [maxHoursPerDay]: from the start
    of any of its solver-placed classes to the end of any other on the same
    day (or of the same class) at most [max(0, maxHoursPerDay * 60)] minutes
    pass. *)
Theorem daily_span_bounded solve inp sched k1 k2 sec c1 c2 :
  Solver.sound solve →
  Solver.schedule_timetable solve inp = Return sched →
  Solver.well_formed inp (Solver.semester_sections_map sched) →
  Solver.schedule_map sched !! k1 = Some (sec, c1, None) →
  Solver.schedule_map sched !! k2 = Some (sec, c2, None) →
  k1.1.1 = k2.1.1 →
  Timetable.end_minute inp k2 - Timetable.start_minute inp k1
    ≤ Z.max 0 (Solver.maxHoursPerDay (Solver.constraints inp) * 60).
Proof.
  intros Hsound Hrun Hwf Hl1 Hl2 Hday.
  destruct (schedule_timetable_Return _ _ _ Hsound Hrun) as (v & Hmodel & Hsm & _).
  rewrite Hsm in Hl1, Hl2.
  destruct Hmodel as (_ & _ & _ & _ & _ & _ & _ & _ & _ & Hspan & _).
  apply (entry_span_vars _ _ _ Hwf) in Hl1 as (Hsec & Hd & Hstart & _).
  apply (entry_span_vars _ _ _ Hwf) in Hl2 as (_ & _ & _ & Hend).
  rewrite <- Hday in Hend.
  unfold Solver.span_constraints in Hspan. cbn zeta in Hspan.
  rewrite Forall_forall in Hspan. specialize (Hspan _ Hsec).
  rewrite Forall_forall in Hspan. specialize (Hspan _ Hd).
  apply (foldr_min_le Solver.BIG_M) in Hstart.
  apply (foldr_max_ge 0) in Hend.
  lia.
Qed.

Lemma daily_span_bounded_witness :
  Timetable.end_minute Timetable.example_input ("Monday", 2, "R1")
  - Timetable.start_minute Timetable.example_input ("Monday", 0, "R1")
    ≤ Z.max 0 (8 * 60).
Proof.
  apply (daily_span_bounded
           (Solver.solve_with Timetable.example_valuation) Timetable.example_input
           Timetable.example_schedule ("Monday", 0, "R1") ("Monday", 2, "R1")
           "S1A1" "CS101" "MA101"
           (solver_solve_with_sound _) timetable_example_run
           timetable_example_well_formed).
  - vm_compute. reflexivity.
  - vm_compute. reflexivity.
  - reflexivity.
Defined.

Lemma cutoff_theory_respected_witness :
  (2 : Z) ∈ Solver.THEORY_TIMESLOTS Timetable.example_input
  ∧ default 0 (Solver.theory_end_times 2) ≤ 13 * 60.
Proof.
  apply (cutoff_theory_respected
           (Solver.solve_with Timetable.example_valuation) Timetable.example_input
           Timetable.example_schedule 13
           (Allocation "theory" "R1" "Monday" 2 "S1A1-MA101")
           (solver_solve_with_sound _) timetable_example_run).
  - reflexivity.
  - vm_compute. apply list_elem_of_further, list_elem_of_here.
  - reflexivity.
Defined.

(** ** Main CP model: errors before the model is built *)

Lemma needed_slots_None courses_map sems :
  Solver.needed_slots courses_map sems = None ↔
    ∃ sem, sem ∈ sems ∧ courses_map !! sem = None.
Proof.
  induction sems as [|sem rest IH]; simpl.
  - split; [done|]. intros (sem & Hsem & _). by apply elem_of_nil in Hsem.
  - destruct (courses_map !! sem) as [courses|] eqn:Hsem.
    + destruct (Solver.needed_slots courses_map rest) as [[nt nl]|].
      * split; [done|]. intros (sem' & Hin & Hnone).
        apply elem_of_cons in Hin as [->|Hin]; [congruence|].
        assert (Some (nt, nl) = None) as Habs; [|done].
        apply IH. eauto.
      * split; [|done]. intros _.
        destruct (proj1 IH eq_refl) as (sem' & Hin & Hnone).
        exists sem'. split; [by right|done].
    + split; [|done]. intros _. exists sem. split; [by left|done].
Qed.

Lemma build_sections_lookup inp sems m sem :
  Solver.build_sections inp sems = inr m →
  m !! sem =
    if bool_decide (sem ∈ sems)
    then n ← Solver.section_sizes inp !! sem;
         returned (Utils.build_sections_for_semester sem n
                     (Solver.section_size inp) (Solver.program_code inp))
    else None.
Proof.
  revert m. induction sems as [|s rest IH]; intros m; simpl.
  - intros [= <-]. by rewrite lookup_empty.
  - destruct (Solver.section_sizes inp !! s) as [n|] eqn:Hn; [|done].
    destruct (Utils.build_sections_for_semester s n _ _) as [e|secs] eqn:Hsecs; [done|].
    destruct (Solver.build_sections inp rest) as [e|m'] eqn:Hrest; [done|].
    intros [= <-]. specialize (IH m' eq_refl).
    destruct (decide (sem = s)) as [->|Hne].
    + rewrite lookup_insert_eq, bool_decide_eq_true_2 by (by left).
      rewrite Hn. simpl. by rewrite Hsecs.
    + rewrite lookup_insert_ne by done. rewrite IH.
      destruct (decide (sem ∈ rest)) as [Hin|Hnin].
      * rewrite !bool_decide_eq_true_2; [done|by right|done].
      * rewrite !bool_decide_eq_false_2; [done| |done].
        intros Hin. apply elem_of_cons in Hin as [?|?]; done.
Qed.

Lemma true_div_inl a b e :
  true_div a b = inl e →
  (e = ZeroDivisionError ∧ b = 0) ∨ (e = OverflowError ∧ b ≠ 0).
Proof.
  unfold true_div. destruct (b =? 0) eqn:Hb.
  - intros [= <-]. left. split; [done|]. by apply Z.eqb_eq.
  - apply Z.eqb_neq in Hb. destruct (a =? 0); [done|]. simpl.
    case_match; [|done]. intros [= <-]. by right.
Qed.

Lemma ceil_div_inl n s e :
  Utils.ceil_div n s = inl e →
  (e = ZeroDivisionError ∧ s = 0) ∨ (e = OverflowError ∧ s ≠ 0).
Proof.
  unfold Utils.ceil_div. destruct (true_div n s) as [e'|x] eqn:Hdiv; [|done].
  intros [= <-]. by apply (true_div_inl n s).
Qed.

Lemma build_sections_inl inp sems e :
  Solver.build_sections inp sems = inl e →
  (e = KeyError ∧ ∃ sem, sem ∈ sems ∧ Solver.section_sizes inp !! sem = None)
  ∨ (e = ZeroDivisionError ∧ Solver.section_size inp = 0)
  ∨ (e = OverflowError ∧ Solver.section_size inp ≠ 0
     ∧ ∃ sem n, sem ∈ sems ∧ Solver.section_sizes inp !! sem = Some n
                ∧ Utils.ceil_div n (Solver.section_size inp) = inl OverflowError).
Proof.
  induction sems as [|s rest IH]; simpl; [done|].
  destruct (Solver.section_sizes inp !! s) as [n|] eqn:Hn.
  - destruct (Utils.build_sections_for_semester s n _ _) as [e'|secs] eqn:Hsecs.
    + intros [= <-]. right.
      unfold Utils.build_sections_for_semester in Hsecs.
      destruct (Utils.ceil_div n (Solver.section_size inp)) as [e2|c] eqn:Hc;
        [|done].
      injection Hsecs as ->.
      destruct (ceil_div_inl _ _ _ Hc) as [[-> Hz]|[-> Hz]]; [by left|].
      right. split; [done|]. split; [done|]. exists s, n.
      split; [by left|done].
    + destruct (Solver.build_sections inp rest) as [e'|m']; [|done].
      intros [= <-].
      destruct (IH eq_refl)
        as [[-> (sem & Hin & Hnone)]|[[-> Hz]|(-> & Hz & sem & n' & Hin & Hs & Hc)]].
      * left. split; [done|]. exists sem. split; [by right|done].
      * right. by left.
      * right. right. split; [done|]. split; [done|]. exists sem, n'.
        split; [by right|done].
  - intros [= <-]. left. split; [done|]. exists s. split; [by left|done].
Qed.

(** X10: The errors [schedule_timetable] raises before it builds the model, in
    the order the code meets them.  A ledger without a theory or a lab
    entry, or a selected semester without a roadmap, is a [KeyError]
    whatever the rest of the input; once the capacity check has passed, a
    selected semester without a student count is a [KeyError] when the
    section size is not 0 and the student counts that are there are below
    [2 ^ 1023] in absolute value (a larger one can make the float quotient
    of [ceil_div] an [OverflowError] first), and a section size of 0 is a
    [ZeroDivisionError] when every selected semester has a student count
    (and there is one).  In none of these cases is the solver used. *)
Theorem schedule_timetable_errors solve inp :
  (Solver.usage_data inp !! "theory" = None
   ∨ Solver.usage_data inp !! "lab" = None
   ∨ (∃ sem, sem ∈ Solver.selected_semesters inp
             ∧ Solver.semester_courses_map inp !! sem = None) →
   Solver.schedule_timetable solve inp = Raise KeyError)
  ∧ (Solver.capacity_check inp = None →
     Solver.section_size inp ≠ 0 →
     (∀ sem n, sem ∈ Solver.selected_semesters inp →
               Solver.section_sizes inp !! sem = Some n → Z.abs n < 2 ^ 1023) →
     (∃ sem, sem ∈ Solver.selected_semesters inp
             ∧ Solver.section_sizes inp !! sem = None) →
     Solver.schedule_timetable solve inp = Raise KeyError)
  ∧ (Solver.capacity_check inp = None →
     Solver.section_size inp = 0 →
     Solver.selected_semesters inp ≠ [] →
     (∀ sem, sem ∈ Solver.selected_semesters inp →
             is_Some (Solver.section_sizes inp !! sem)) →
     Solver.schedule_timetable solve inp = Raise ZeroDivisionError).
Proof.
  split; [|split].
  - intros Hmiss. unfold Solver.schedule_timetable, Solver.capacity_check.
    destruct (Solver.usage_data inp !! "theory") as [tu|]; [|done].
    destruct (Solver.usage_data inp !! "lab") as [lu|]; [|done].
    destruct Hmiss as [?|[?|Hsem]]; [done|done|].
    apply needed_slots_None in Hsem. by rewrite Hsem.
  - intros Hcap Hsize Hbound Hmiss. unfold Solver.schedule_timetable.
    rewrite Hcap.
    destruct (Solver.build_sections inp _) as [e|m] eqn:Hb.
    + apply build_sections_inl in Hb
        as [[-> _]|[[_ Hz]|(_ & _ & sem & n & Hin & Hn & Hc)]]; [done|done|].
      destruct (ceil_div_no_overflow n (Solver.section_size inp)) as [c Hc'];
        [by apply (Hbound sem)|done|congruence].
    + exfalso. destruct Hmiss as (sem & Hin & Hnone).
      clear -Hb Hin Hnone. revert m Hb.
      induction (Solver.selected_semesters inp) as [|s rest IH]; intros m Hb;
        [by apply elem_of_nil in Hin|].
      simpl in Hb.
      destruct (Solver.section_sizes inp !! s) as [n|] eqn:Hn; [|done].
      destruct (Utils.build_sections_for_semester s n _ _); [done|].
      destruct (Solver.build_sections inp rest) as [e|m'] eqn:Hrest; [done|].
      apply elem_of_cons in Hin as [->|Hin]; [congruence|].
      by apply (IH Hin m').
  - intros Hcap Hsize Hne Hall. unfold Solver.schedule_timetable. rewrite Hcap.
    destruct (Solver.selected_semesters inp) as [|s rest]; [done|]. simpl.
    destruct (Hall s) as [n ->]; [by left|].
    unfold Utils.build_sections_for_semester.
    by rewrite Hsize, ceil_div_by_zero.
Qed.

Lemma schedule_timetable_errors_witness :
  Solver.schedule_timetable (Solver.solve_with Solver.base_valuation)
    (Hierarchical.with_semester Solver.base_input 1 ∅) = Raise KeyError
  ∧ Solver.schedule_timetable (Solver.solve_with Solver.base_valuation)
      Timetable.uncounted_input = Raise KeyError
  ∧ Solver.schedule_timetable (Solver.solve_with Solver.base_valuation)
      Timetable.zero_size_input = Raise ZeroDivisionError.
Proof.
  split; [|split].
  - apply (proj1 (schedule_timetable_errors _ _)). left. reflexivity.
  - apply (proj1 (proj2 (schedule_timetable_errors _ _))).
    + vm_compute. reflexivity.
    + discriminate.
    + intros sem n _. unfold Timetable.uncounted_input. simpl.
      intros Hn. apply lookup_singleton_Some in Hn as [_ <-]. by apply Z.ltb_lt.
    + exists 2. split; [apply list_elem_of_further, list_elem_of_here|].
      vm_compute. reflexivity.
  - apply (proj2 (proj2 (schedule_timetable_errors _ _))).
    + vm_compute. reflexivity.
    + reflexivity.
    + discriminate.
    + intros sem Hsem. apply list_elem_of_singleton in Hsem as ->.
      vm_compute. eauto.
Defined.

(** X11: The returned [semester_sections_map] has the selected semesters as its
    keys, each with the names [build_sections_for_semester] gives for its
    student count. *)
Theorem sections_map_of_selected solve inp sched sem :
  Solver.schedule_timetable solve inp = Return sched →
  Solver.semester_sections_map sched !! sem =
    if bool_decide (sem ∈ Solver.selected_semesters inp)
    then n ← Solver.section_sizes inp !! sem;
         returned (Utils.build_sections_for_semester sem n
                     (Solver.section_size inp) (Solver.program_code inp))
    else None.
Proof.
  unfold Solver.schedule_timetable.
  destruct (Solver.capacity_check inp); [done|].
  destruct (Solver.build_sections inp _) as [e|ssm] eqn:Hb; [done|].
  destruct (Solver.model_errors inp ssm); [done|].
  case_bool_decide; [|done].
  destruct (solve _) as [v|]; [|done].
  intros [= <-]. simpl. by apply build_sections_lookup.
Qed.

Lemma sections_map_of_selected_witness :
  Solver.semester_sections_map Solver.base_schedule !! 1 = Some ["S1A1"]
  ∧ Solver.semester_sections_map Solver.base_schedule !! 2 = None.
Proof.
  split.
  - apply (sections_map_of_selected
             (Solver.solve_with Solver.base_valuation) Solver.base_input
             Solver.base_schedule 1 base_run).
  - apply (sections_map_of_selected
             (Solver.solve_with Solver.base_valuation) Solver.base_input
             Solver.base_schedule 2 base_run).
Defined.



(** ** Section builder: the names are pairwise distinct *)

Lemma str_of_Z_inj a b : str_of_Z a = str_of_Z b → a = b.
Proof.
  unfold str_of_Z. intros Heq. apply DecimalZ.to_int_inj.
  assert (Hnn : ∀ z, Z.to_int z ≠ Decimal.Pos Decimal.Nil
                     ∧ Z.to_int z ≠ Decimal.Neg Decimal.Nil).
  { intros [|p|p]; simpl; split; try discriminate;
      intros [= Hp]; by apply DecimalPos.Unsigned.to_uint_nonnil in Hp. }
  destruct (Hnn a) as [Ha1 Ha2]. destruct (Hnn b) as [Hb1 Hb2].
  pose proof (NilZero.isi _ Ha1 Ha2) as Ha.
  pose proof (NilZero.isi _ Hb1 Hb2) as Hb.
  rewrite Heq in Ha. congruence.
Qed.

Lemma append_inj_l (p a b : string) : p +:+ a = p +:+ b → a = b.
Proof. induction p as [|c p IH]; simpl; [done|]. intros [= H]. by apply IH. Qed.

Lemma section_name_inj semester_num program_code i j :
  Utils.section_name semester_num program_code i
  = Utils.section_name semester_num program_code j → i = j.
Proof.
  unfold Utils.section_name. intros Heq.
  do 3 apply append_inj_l in Heq. apply str_of_Z_inj in Heq. lia.
Qed.

Lemma NoDup_range c : NoDup (range c).
Proof.
  unfold range. apply (NoDup_fmap_2_strong Z.of_nat); [|apply NoDup_seq].
  intros x y _ _. lia.
Qed.

Lemma build_sections_for_semester_inr semester_num n s program_code l :
  Utils.build_sections_for_semester semester_num n s program_code = inr l →
  ∃ count, Utils.ceil_div n s = inr count
           ∧ l = map (Utils.section_name semester_num program_code) (range count).
Proof.
  unfold Utils.build_sections_for_semester.
  destruct (Utils.ceil_div n s) as [e|count]; [done|].
  intros [= <-]. by exists count.
Qed.

(** X13: The names [build_sections_for_semester] returns are pairwise distinct. *)
Theorem section_names_distinct semester_num num_students section_size program_code l :
  Utils.build_sections_for_semester semester_num num_students section_size
    program_code = inr l →
  NoDup l.
Proof.
  intros Hl. apply build_sections_for_semester_inr in Hl as (count & _ & ->).
  apply (NoDup_fmap_2_strong (Utils.section_name semester_num program_code));
    [|apply NoDup_range].
  intros i j _ _. apply section_name_inj.
Qed.

Lemma section_names_distinct_witness : NoDup ["S3A1"; "S3A2"; "S3A3"].
Proof.
  apply (section_names_distinct 3 120 50 "A" ["S3A1"; "S3A2"; "S3A3"]).
  reflexivity.
Defined.

Lemma numeric_string_of_uint u : Names.numeric (NilEmpty.string_of_uint u) = true.
Proof. induction u; simpl; by rewrite ?IHu. Qed.

Lemma numeric_str_of_Z z : Names.numeric (str_of_Z z) = true.
Proof.
  unfold str_of_Z, NilZero.string_of_int, NilZero.string_of_uint.
  destruct (Z.to_int z) as [u|u]; destruct u; simpl;
    by rewrite ?numeric_string_of_uint.
Qed.

(** Two printed integers followed by a non-numeric character: the integers
    end at the same place. *)
Lemma numeric_prefix_inj p p' c r c' r' :
  Names.numeric p = true → Names.numeric p' = true →
  Names.is_digit_or_sign c = false → Names.is_digit_or_sign c' = false →
  p +:+ String c r = p' +:+ String c' r' → p = p'.
Proof.
  revert p'. induction p as [|x p IH]; intros [|x' p'] Hp Hp' Hc Hc'; simpl.
  - done.
  - intros [= -> _]. simpl in Hp'. apply andb_true_iff in Hp' as [Hx _]. congruence.
  - intros [= -> _]. simpl in Hp. apply andb_true_iff in Hp as [Hx _]. congruence.
  - intros [= -> Heq]. simpl in Hp, Hp'.
    apply andb_true_iff in Hp as [_ Hp]. apply andb_true_iff in Hp' as [_ Hp'].
    f_equal. by apply IH.
Qed.

Lemma section_name_semester sem sem' c rest i j :
  Names.is_digit_or_sign c = false →
  Utils.section_name sem (String c rest) i = Utils.section_name sem' (String c rest) j →
  sem = sem'.
Proof.
  unfold Utils.section_name. intros Hc Heq. apply append_inj_l in Heq.
  simpl in Heq. apply str_of_Z_inj.
  eapply numeric_prefix_inj; [apply numeric_str_of_Z..|exact Hc|exact Hc|exact Heq].
Qed.

Lemma returned_sections solve inp sched :
  Solver.schedule_timetable solve inp = Return sched →
  Solver.build_sections inp (Solver.selected_semesters inp)
    = inr (Solver.semester_sections_map sched).
Proof.
  unfold Solver.schedule_timetable.
  destruct (Solver.capacity_check inp); [done|].
  destruct (Solver.build_sections inp _) as [e|ssm] eqn:Hb; [done|].
  destruct (Solver.model_errors inp ssm); [done|].
  case_bool_decide; [|done].
  destruct (solve _) as [v|]; [|done].
  by intros [= <-].
Qed.

(** X14: With a program code that starts with a letter (anything but a digit or
    a minus sign) the section names of different semesters differ: the
    sections of a returned schedule have pairwise distinct names. *)
Theorem all_sections_distinct solve inp sched c rest :
  Solver.schedule_timetable solve inp = Return sched →
  NoDup (Solver.selected_semesters inp) →
  Solver.program_code inp = String c rest →
  Names.is_digit_or_sign c = false →
  NoDup (Solver.all_sections inp (Solver.semester_sections_map sched)).
Proof.
  intros Hrun Hsems Hcode Hc.
  assert (Hsec : ∀ sem sec,
    sec ∈ Solver.sections_of (Solver.semester_sections_map sched) sem →
    ∃ n l, Utils.build_sections_for_semester sem n (Solver.section_size inp)
             (String c rest) = inr l
           ∧ Solver.sections_of (Solver.semester_sections_map sched) sem = l).
  { intros sem sec Hin. unfold Solver.sections_of in *.
    rewrite (build_sections_lookup _ _ _ sem (returned_sections _ _ _ Hrun)) in *.
    case_bool_decide; [|by apply elem_of_nil in Hin].
    destruct (Solver.section_sizes inp !! sem) as [n|]; [|by apply elem_of_nil in Hin].
    simpl in *. rewrite Hcode in *.
    destruct (Utils.build_sections_for_semester sem n _ _) as [e|l] eqn:Hl;
      [by apply elem_of_nil in Hin|].
    by exists n, l. }
  unfold Solver.all_sections. apply NoDup_bind; [| |done].
  - intros sem1 sem2 sec _ _ H1 H2.
    destruct (Hsec _ _ H1) as (n1 & l1 & Hb1 & Hl1).
    destruct (Hsec _ _ H2) as (n2 & l2 & Hb2 & Hl2).
    rewrite Hl1 in H1. rewrite Hl2 in H2.
    apply build_sections_for_semester_inr in Hb1 as (c1 & _ & ->).
    apply build_sections_for_semester_inr in Hb2 as (c2 & _ & ->).
    apply list_elem_of_fmap in H1 as (i & -> & _).
    apply list_elem_of_fmap in H2 as (j & Heq & _).
    by eapply section_name_semester.
  - intros sem Hsem.
    destruct (Solver.sections_of (Solver.semester_sections_map sched) sem)
      as [|sec l0] eqn:Hl; [constructor|].
    destruct (Hsec sem sec) as (n & l & Hb & Hl'); [rewrite Hl; by left|].
    rewrite <- Hl, Hl'.
    apply build_sections_for_semester_inr in Hb as (count & _ & ->).
    apply (NoDup_fmap_2_strong (Utils.section_name sem (String c rest)));
      [|apply NoDup_range].
    intros i j _ _. apply section_name_inj.
Qed.

Lemma all_sections_distinct_witness :
  NoDup (Solver.all_sections Solver.base_input
           (Solver.semester_sections_map Solver.base_schedule)).
Proof.
  apply (all_sections_distinct
           (Solver.solve_with Solver.base_valuation) Solver.base_input
           Solver.base_schedule "A" "" base_run).
  - apply (bool_decide_unpack _); vm_compute; exact I.
  - reflexivity.
  - reflexivity.
Defined.

(** ** Usage ledger: the [KeyError] of the merge, and merging in two steps *)

Lemma merge_step_None u a :
  Ledger.merge_step u a = None ↔ u !! rtype a = None.
Proof.
  unfold Ledger.merge_step. destruct (u !! rtype a); [|done].
  split; intros; done.
Qed.

(** An iteration neither adds nor removes a kind. *)
Lemma merge_step_kinds u a u1 k :
  Ledger.merge_step u a = Some u1 → u1 !! k = None ↔ u !! k = None.
Proof.
  intros Hstep. destruct (u !! rtype a) as [rooms|] eqn:Hk.
  - rewrite (merge_step_unfold _ _ _ Hk) in Hstep. cbn zeta in Hstep.
    injection Hstep as <-.
    destruct (decide (k = rtype a)) as [->|Hne].
    + rewrite lookup_insert_eq, Hk. split; intros; done.
    + by rewrite lookup_insert_ne.
  - apply merge_step_None in Hk. congruence.
Qed.

Lemma merge_loop_None allocs : ∀ u,
  Ledger.merge_loop u allocs = None ↔
    ∃ a, a ∈ allocs ∧ u !! rtype a = None.
Proof.
  induction allocs as [|a rest IH]; intros u; simpl.
  - split; [done|]. intros (a & Ha & _). by apply elem_of_nil in Ha.
  - destruct (Ledger.merge_step u a) as [u1|] eqn:Hstep.
    + rewrite IH. split.
      * intros (b & Hb & Hnone). exists b. split; [by right|].
        by apply (merge_step_kinds _ _ _ _ Hstep).
      * intros (b & Hb & Hnone). apply elem_of_cons in Hb as [->|Hb].
        -- apply merge_step_None in Hnone. congruence.
        -- exists b. split; [done|]. by apply (merge_step_kinds _ _ _ _ Hstep).
    + split; [|done]. intros _. exists a. split; [by left|].
      by apply merge_step_None.
Qed.

Lemma ensure_kind_None kind u k :
  Ledger.ensure_kind kind u !! k = None ↔ k ≠ kind ∧ u !! k = None.
Proof.
  unfold Ledger.ensure_kind. destruct (u !! kind) as [x|] eqn:Hkind.
  - split; [|by intros [_ ?]]. intros Hk. split; [|done]. intros ->. congruence.
  - destruct (decide (k = kind)) as [->|Hne].
    + rewrite lookup_insert_eq. split; [done|]. by intros [? _].
    + rewrite lookup_insert_ne by done. split; [done|]. by intros [_ ?].
Qed.

(** X15: [merge_usage_data] raises [KeyError] exactly when some allocation has a
    kind other than theory and lab that is not a key of the ledger: the
    cohort allocations of [schedule_timetable] on a ledger read from file,
    for one. *)
Theorem merge_usage_data_key_error existing_usage new_allocations :
  Ledger.merge_usage_data existing_usage new_allocations = None ↔
    ∃ a, a ∈ new_allocations
         ∧ rtype a ≠ "theory" ∧ rtype a ≠ "lab"
         ∧ existing_usage !! rtype a = None.
Proof.
  unfold Ledger.merge_usage_data. cbn zeta. rewrite merge_loop_None.
  split; intros (a & Ha & Hk); exists a; (split; [done|]).
  - apply ensure_kind_None in Hk as [Hlab Hk].
    by apply ensure_kind_None in Hk as [Hth Hk].
  - destruct Hk as (Hth & Hlab & Hk). by rewrite !ensure_kind_None.
Qed.

Lemma merge_loop_app l1 l2 : ∀ u,
  Ledger.merge_loop u (l1 ++ l2) = Ledger.merge_loop u l1 ≫= λ m, Ledger.merge_loop m l2.
Proof.
  induction l1 as [|a l1 IH]; intros u; simpl; [done|].
  destruct (Ledger.merge_step u a); [apply IH|done].
Qed.

(** X16: Merging a list of allocations in two steps, the second into the result
    of the first, gives the ledger (or the [KeyError]) of merging the whole
    list at once. *)
Theorem merge_usage_data_app existing_usage l1 l2 :
  Ledger.merge_usage_data existing_usage (l1 ++ l2)
  = Ledger.merge_usage_data existing_usage l1
      ≫= λ merged, Ledger.merge_usage_data merged l2.
Proof.
  unfold Ledger.merge_usage_data. cbn zeta. rewrite merge_loop_app.
  destruct (Ledger.merge_loop _ l1) as [merged|] eqn:Hloop; [|done]. simpl.
  assert (Hth : is_Some (merged !! "theory")).
  { eapply merge_loop_keeps_kinds; [exact Hloop|].
    apply ensure_kind_lookup_other, ensure_kind_lookup_self. }
  assert (Hlab : is_Some (merged !! "lab")).
  { eapply merge_loop_keeps_kinds; [exact Hloop|]. apply ensure_kind_lookup_self. }
  rewrite (ensure_kind_id "theory" merged Hth).
  by rewrite (ensure_kind_id "lab" merged Hlab).
Qed.

(** ** The usage ledger as Python objects: the result is a new structure *)

Lemma merge_usage_data_returns_fresh_witness :
  Store.fresh Store.example_store 5%nat
  ∧ ∀ l o, Store.fresh Store.example_store l →
      (Store.merge_usage_data 4%nat
         [Allocation "theory" "R1" "Monday" 1 "S1A1-CS101"]
         Store.example_store).1 !! l = Some o →
      Store.closed_obj Store.example_store o.
Proof.
  apply (merge_usage_data_returns_fresh Store.example_store 4%nat
           [Allocation "theory" "R1" "Monday" 1 "S1A1-CS101"] 5%nat).
  vm_compute. reflexivity.
Defined.

(** ** Cohort capacities: what [validate_input_files] rejects cannot be scheduled *)

(** ** Section generator *)

(** X19: For a non-negative student count and a positive section size below
    [2 ^ 1022] the section generator asks for the very names the solver
    builds with [build_sections_for_semester], or raises the same exception
    (a larger section size can make the float quotient 0.0, where the
    generator still asks for one name and the solver for none). *)
Theorem generated_names_match_solver number students section_size program_code :
  0 ≤ students → 0 < section_size < 2 ^ 1022 →
  SectionGenerator.names_for number students section_size program_code
  = Utils.build_sections_for_semester number students section_size program_code.
Proof.
  intros Hn Hs. unfold SectionGenerator.names_for, Utils.build_sections_for_semester.
  destruct (students =? 0) eqn:Hz.
  - apply Z.eqb_eq in Hz as ->. by rewrite ceil_div_zero by lia.
  - apply Z.eqb_neq in Hz.
    destruct (Utils.ceil_div students section_size) as [e|c] eqn:Hc; [done|].
    pose proof (ceil_div_pos students section_size c ltac:(lia) Hs Hc).
    by rewrite Z.max_r by lia.
Qed.

Lemma generated_names_match_solver_witness :
  SectionGenerator.names_for 3 120 50 "A"
  = Utils.build_sections_for_semester 3 120 50 "A".
Proof.
  apply generated_names_match_solver; [lia|].
  split; [lia|by apply Z.ltb_lt].
Defined.

Lemma get_or_create_all_spec number names : ∀ db created db1 created1,
  SectionGenerator.get_or_create_all number names db created = (db1, created1) →
  db ⊆ db1
  ∧ (∀ name, name ∈ names → (number, name) ∈ db1)
  ∧ (size db1 + created = size db + created1)%nat.
Proof.
  induction names as [|name rest IH]; intros db created db1 created1; simpl.
  - intros [= <- <-]. split; [done|]. split; [|done].
    intros name Hin. by apply elem_of_nil in Hin.
  - case_bool_decide as Hin.
    + intros Hrest. destruct (IH _ _ _ _ Hrest) as (Hsub & Hall & Hsize).
      split; [done|]. split; [|done].
      intros name' Hname. apply elem_of_cons in Hname as [->|Hname]; [|by apply Hall].
      by apply Hsub.
    + intros Hrest. destruct (IH _ _ _ _ Hrest) as (Hsub & Hall & Hsize).
      split; [set_solver|]. split.
      * intros name' Hname. apply elem_of_cons in Hname as [->|Hname]; [|by apply Hall].
        apply Hsub. set_solver.
      * rewrite size_union in Hsize by set_solver.
        rewrite size_singleton in Hsize. lia.
Qed.

Lemma get_or_create_all_present number names : ∀ db created,
  (∀ name, name ∈ names → (number, name) ∈ db) →
  SectionGenerator.get_or_create_all number names db created = (db, created).
Proof.
  induction names as [|name rest IH]; intros db created Hall; simpl; [done|].
  rewrite bool_decide_eq_true_2 by (apply Hall; by left).
  apply IH. intros name' Hname. apply Hall. by right.
Qed.

Lemma generate_loop_spec capacities section_size program_code :
  ∀ db created db1 created1,
  SectionGenerator.generate_loop capacities section_size program_code db created
    = (db1, inr created1) →
  db ⊆ db1
  ∧ (size db1 + created = size db + created1)%nat
  ∧ ∀ db2 created2, db1 ⊆ db2 →
      SectionGenerator.generate_loop capacities section_size program_code db2 created2
        = (db2, inr created2).
Proof.
  induction capacities as [|[number students] rest IH];
    intros db created db1 created1; simpl.
  - intros [= <- <-]. done.
  - destruct (SectionGenerator.names_for number students section_size program_code)
      as [e|names]; [done|].
    destruct (SectionGenerator.get_or_create_all number names db created)
      as [dbm createdm] eqn:Hgoc.
    intros Hrest.
    destruct (get_or_create_all_spec _ _ _ _ _ _ Hgoc) as (Hsub1 & Hall & Hsize1).
    destruct (IH _ _ _ _ Hrest) as (Hsub2 & Hsize2 & Hidem).
    split; [set_solver|]. split; [lia|].
    intros db2 created2 Hsub.
    rewrite get_or_create_all_present; [by apply Hidem|].
    intros name Hname. apply Hsub, Hsub2. by apply Hall.
Qed.

(** X20: [generate_sections_default] leaves the existing rows as they are,
    returns the number of rows it added, and is idempotent: run again on
    its result it adds nothing and returns 0. *)
Theorem generate_sections_idempotent capacities section_size program_code db db1 created :
  SectionGenerator.generate_sections_default capacities section_size program_code db
    = (db1, inr created) →
  db ⊆ db1
  ∧ size db1 = (size db + created)%nat
  ∧ SectionGenerator.generate_sections_default capacities section_size program_code db1
    = (db1, inr 0%nat).
Proof.
  unfold SectionGenerator.generate_sections_default. intros Hrun.
  destruct (generate_loop_spec _ _ _ _ _ _ _ Hrun) as (Hsub & Hsize & Hidem).
  split; [done|]. split; [lia|]. by apply Hidem.
Qed.

Lemma generate_sections_idempotent_witness :
  (∅ : SectionGenerator.table) ⊆ {[ (1, "S1A1"); (1, "S1A2") ]}
  ∧ size ({[ (1, "S1A1"); (1, "S1A2") ]} : SectionGenerator.table)
    = (size (∅ : SectionGenerator.table) + 2)%nat
  ∧ SectionGenerator.generate_sections_default [(1, 60); (2, 0)] 50 "A"
      {[ (1, "S1A1"); (1, "S1A2") ]}
    = ({[ (1, "S1A1"); (1, "S1A2") ]}, inr 0%nat).
Proof.
  apply (generate_sections_idempotent [(1, 60); (2, 0)] 50 "A" ∅
           {[ (1, "S1A1"); (1, "S1A2") ]} 2%nat).
  vm_compute. reflexivity.
Defined.

(** ** Teacher assignment: who gets what, and how much *)

(** What the loop over the matching slots does: it appends some of them,
    in order, for the teacher, at most up to the number asked for, and
    books them. *)
Lemma assign_loop_ext tid needed matching : ∀ cnt st st1,
  Teacher.assign_loop tid needed matching cnt st = Some st1 →
  ∃ ext,
    sublist ext matching
    ∧ Teacher.assignments_to_save st1
      = Teacher.assignments_to_save st ++ ((λ s, (s, tid)) <$> ext)
    ∧ (cnt + length ext ≤ Nat.max cnt needed)%nat
    ∧ Teacher.assigned_slots st1
      = list_to_set (Teacher.id <$> ext) ∪ Teacher.assigned_slots st
    ∧ ∀ t, Teacher.teacher_workload st1 !! t
           = (λ n, if decide (t = tid) then (n + length ext)%nat else n)
             <$> Teacher.teacher_workload st !! t.
Proof.
  assert (Hid : ∀ st t,
    Teacher.teacher_workload st !! t
    = (λ n, if decide (t = tid) then (n + 0)%nat else n)
      <$> Teacher.teacher_workload st !! t).
  { intros st t. destruct (Teacher.teacher_workload st !! t) as [n|]; [|done].
    simpl. f_equal. case_decide; lia. }
  induction matching as [|slot rest IH]; intros cnt st st1; simpl.
  - intros [= <-]. exists []. split; [constructor|]. simpl.
    rewrite (right_id_L [] (++)). split; [done|]. split; [lia|].
    split; [set_solver|]. apply Hid.
  - destruct (needed <=? cnt)%nat eqn:Hcnt.
    { intros [= <-]. exists []. split; [apply sublist_nil_l|]. simpl.
      rewrite (right_id_L [] (++)). split; [done|]. split; [lia|].
      split; [set_solver|]. apply Hid. }
    apply Nat.leb_gt in Hcnt.
    destruct (Teacher.teacher_timeslots st !! tid) as [busy|]; [|done].
    destruct (Teacher.teacher_workload st !! tid) as [load|] eqn:Hload; [|done].
    case_bool_decide.
    + intros Hloop. destruct (IH _ _ _ Hloop) as (ext & Hsub & Hext & Hlen & Hids & Hw).
      exists ext. split; [by apply sublist_cons|done].
    + intros Hloop. destruct (IH _ _ _ Hloop) as (ext & Hsub & Hext & Hlen & Hids & Hw).
      simpl in *. exists (slot :: ext). split; [by apply sublist_skip|].
      split; [by rewrite Hext, <- (assoc_L (++))|].
      split; [simpl; lia|]. split; [rewrite Hids; set_solver|].
      intros t. rewrite Hw. destruct (decide (t = tid)) as [->|Hne].
      * rewrite lookup_insert_eq, Hload. simpl. f_equal. lia.
      * rewrite lookup_insert_ne by done.
        destruct (Teacher.teacher_workload st !! t); [|done]. done.
Qed.

Lemma matching_slots_match subjects pref asg slots m :
  Teacher.matching_slots subjects pref asg slots = Some m →
  ∀ s, s ∈ m →
    ∃ subj, subjects !! Teacher.subject_id s = Some subj
            ∧ Teacher.slot_matches pref subj = true.
Proof.
  revert m. induction slots as [|slot rest IH]; intros m; simpl.
  - intros [= <-] s Hs. by apply elem_of_nil in Hs.
  - case_bool_decide; [apply IH|].
    destruct (subjects !! Teacher.subject_id slot) as [subj|] eqn:Hsubj; [|done].
    destruct (Teacher.matching_slots subjects pref asg rest) as [m'|]; [|done].
    intros [= <-] s Hs.
    destruct (Teacher.slot_matches pref subj) eqn:Hm; [|by apply (IH m')].
    apply elem_of_cons in Hs as [->|Hs]; [eauto|by apply (IH m')].
Qed.

Lemma find_matching_slots_match a pref asg matching s :
  Teacher.find_matching_slots a pref asg = Some matching →
  s ∈ matching →
  s ∈ Teacher.timetable_slots a
  ∧ ∃ subj, Teacher.subject_map a !! Teacher.subject_id s = Some subj
            ∧ Teacher.slot_matches pref subj = true.
Proof.
  unfold Teacher.find_matching_slots.
  destruct (Teacher.matching_slots _ pref asg _) as [m|] eqn:Hm; [|done].
  intros [= <-] Hs. rewrite section_groups_perm in Hs. split.
  - destruct (matching_slots_sublist a _ _ _ _ Hm) as [Hsub _].
    by eapply elem_of_sublist.
  - by eapply matching_slots_match.
Qed.

Lemma assigned_to_app st st1 tid ext t :
  Teacher.assignments_to_save st1
    = Teacher.assignments_to_save st ++ ((λ s, (s, tid)) <$> ext) →
  Workload.assigned_to st1 t
  = Workload.assigned_to st t ++ (if decide (t = tid) then ext else []).
Proof.
  intros Hext. unfold Workload.assigned_to. rewrite Hext, filter_app, fmap_app.
  f_equal. clear Hext. induction ext as [|s ext IH].
  - by case_decide.
  - rewrite fmap_cons, filter_cons. simpl.
    destruct (decide (t = tid)) as [->|Hne].
    + rewrite decide_True by done. rewrite fmap_cons. simpl. by f_equal.
    + rewrite decide_False by done. done.
Qed.

Lemma quota_snoc processed pref t :
  Workload.quota (processed ++ [pref]) t
  = (Workload.quota processed t
     + if decide (Teacher.teacher_id pref = t) then Teacher.sections_count pref else 0)%nat.
Proof.
  unfold Workload.quota. rewrite filter_app, fmap_app, sum_list_with_app.
  f_equal. rewrite filter_cons, filter_nil.
  case_decide; simpl; lia.
Qed.

Lemma audit_initial a : Workload.audit a [] (Teacher.initial_state a).
Proof.
  split; simpl.
  - intros s t He. by apply elem_of_nil in He.
  - intros t n Hl. unfold Workload.assigned_to. simpl.
    apply elem_of_list_to_map_2 in Hl.
    by apply list_elem_of_fmap in Hl as (t' & [= _ ->] & _).
  - done.
  - intros t. unfold Workload.assigned_to. simpl. lia.
Qed.

Lemma process_preference_audit a processed st pref st1 :
  Workload.audit a processed st →
  Teacher.process_preference a st pref = Some st1 →
  Workload.audit a (processed ++ [pref]) st1.
Proof.
  intros [Hm Hl Hi Hq]. unfold Teacher.process_preference.
  destruct (Teacher.teacher_timeslots st !! Teacher.teacher_id pref); [|done].
  destruct (Teacher.find_matching_slots a pref _) as [matching|] eqn:Hfind; [|done].
  intros Hloop.
  destruct (assign_loop_ext _ _ _ _ _ _ Hloop) as (ext & Hsub & Hext & Hlen & Hids & Hw).
  split.
  - intros s t He. rewrite Hext in He. apply elem_of_app in He as [He|He].
    + destruct (Hm s t He) as (Hs & p & subj & Hp & Ht & Hsubj & Hmatch).
      split; [done|]. exists p, subj. split; [|done]. apply elem_of_app. by left.
    + apply list_elem_of_fmap in He as (s' & [= -> ->] & Hs').
      assert (s' ∈ matching) as Hin by (by eapply elem_of_sublist).
      destruct (find_matching_slots_match _ _ _ _ _ Hfind Hin) as (Hs & subj & Hsubj & Hmatch).
      split; [done|]. exists pref, subj. split; [|done].
      apply elem_of_app. right. by apply list_elem_of_singleton.
  - intros t n Hn. rewrite Hw in Hn.
    rewrite (assigned_to_app st st1 _ ext t Hext), length_app.
    destruct (Teacher.teacher_workload st !! t) as [n0|] eqn:Hn0; [|done].
    simpl in Hn. injection Hn as <-. rewrite (Hl t n0 Hn0).
    by case_decide.
  - rewrite Hids, Hi, Hext, fmap_app, list_to_set_app_L, <- list_fmap_compose.
    set_solver.
  - intros t. rewrite (assigned_to_app st st1 _ ext t Hext), length_app, quota_snoc.
    specialize (Hq t). destruct (decide (t = Teacher.teacher_id pref)) as [->|Hne].
    + rewrite decide_True by done. lia.
    + rewrite decide_False by done. simpl. lia.
Qed.

Lemma process_preferences_audit a prefs : ∀ processed st st1,
  Workload.audit a processed st →
  Teacher.process_preferences a st prefs = Some st1 →
  Workload.audit a (processed ++ prefs) st1.
Proof.
  induction prefs as [|pref rest IH]; intros processed st st1 Haudit; simpl.
  - intros [= <-]. by rewrite (right_id_L [] (++)).
  - destruct (Teacher.process_preference a st pref) as [st2|] eqn:Hp; [|done].
    intros Hrest. rewrite (cons_middle pref), (assoc_L (++)).
    eapply IH; [|done]. by eapply process_preference_audit.
Qed.

Lemma insert_sorted_perm p l : Teacher.insert_sorted p l ≡ₚ p :: l.
Proof.
  induction l as [|q l IH]; simpl; [done|].
  destruct (Teacher.key_le p q); [done|]. rewrite IH. apply Permutation_swap.
Qed.

Lemma sort_preferences_perm prefs :
  Teacher.sort_preferences_by_priority prefs ≡ₚ prefs.
Proof.
  unfold Teacher.sort_preferences_by_priority.
  induction prefs as [|p rest IH]; simpl; [done|].
  by rewrite insert_sorted_perm, IH.
Qed.

Lemma quota_perm l1 l2 t : l1 ≡ₚ l2 → Workload.quota l1 t = Workload.quota l2 t.
Proof.
  unfold Workload.quota. induction 1 as [|p l1 l2 Hperm IH|p q l|l1 l2 l3 H1 IH1 H2 IH2].
  - done.
  - rewrite !filter_cons. case_decide; [|done]. rewrite !fmap_cons. simpl. lia.
  - rewrite !filter_cons. repeat case_decide; rewrite ?fmap_cons; simpl; lia.
  - congruence.
Qed.

Lemma assign_teachers_audit a st :
  Teacher.assign_teachers a = Some st →
  Workload.audit a (Teacher.sort_preferences_by_priority (Teacher.preferences a)) st.
Proof.
  unfold Teacher.assign_teachers. intros Hrun.
  assert (Hinit : Workload.audit a
            (Teacher.sort_preferences_by_priority (Teacher.preferences a))
            (Teacher.initial_state a)).
  { destruct (audit_initial a) as [Hm Hl Hi Hq]. split; [|done|done|].
    - intros s t He. by apply elem_of_nil in He.
    - intros t. unfold Workload.assigned_to. simpl. lia. }
  destruct (Teacher.timetable_slots a) as [|s slots] eqn:Hslots;
    [by injection Hrun as <-|].
  destruct (Teacher.preferences a) as [|p prefs] eqn:Hprefs;
    [by injection Hrun as <-|].
  by apply (process_preferences_audit a _ [] _ _ (audit_initial a)) in Hrun.
Qed.

(** X21: A teacher is given only slots of the kind asked for: every slot a run
    assigns is one of the loaded slots, and some preference of its teacher
    names its course (or any course) and allows its kind, theory or lab. *)
Theorem teachers_get_matching_slots a st s t :
  Teacher.assign_teachers a = Some st →
  (s, t) ∈ Teacher.assignments_to_save st →
  s ∈ Teacher.timetable_slots a
  ∧ ∃ pref subj,
      pref ∈ Teacher.preferences a
      ∧ Teacher.teacher_id pref = t
      ∧ Teacher.subject_map a !! Teacher.subject_id s = Some subj
      ∧ (Teacher.course_code pref = "*"
         ∨ Teacher.code subj = Teacher.course_code pref)
      ∧ (if Teacher.is_lab subj then Teacher.can_lab pref = true
         else Teacher.can_theory pref = true).
Proof.
  intros Hrun He.
  destruct (Workload.audit_match _ _ _ (assign_teachers_audit _ _ Hrun) s t He)
    as (Hs & pref & subj & Hp & Ht & Hsubj & Hmatch).
  split; [done|]. exists pref, subj.
  split; [exact (proj1 (sort_preferences_elem _ _) Hp)|].
  split; [done|]. split; [done|].
  unfold Teacher.slot_matches in Hmatch.
  destruct (String.eqb (Teacher.course_code pref) "*") eqn:Hstar.
  - apply String.eqb_eq in Hstar. simpl in Hmatch. split; [by left|].
    by destruct (Teacher.is_lab subj).
  - simpl in Hmatch.
    destruct (String.eqb (Teacher.code subj) (Teacher.course_code pref)) eqn:Hcode;
      [|done].
    apply String.eqb_eq in Hcode. simpl in Hmatch. split; [by right|].
    by destruct (Teacher.is_lab subj).
Qed.

Lemma example_state_run :
  Teacher.assign_teachers Teacher.example_assigner = Some Workload.example_state.
Proof. vm_compute. reflexivity. Qed.

Lemma teachers_get_matching_slots_witness :
  Teacher.TimetableSlot 10 1 7 100 ∈ Teacher.timetable_slots Teacher.example_assigner
  ∧ ∃ pref subj,
      pref ∈ Teacher.preferences Teacher.example_assigner
      ∧ Teacher.teacher_id pref = 1%nat
      ∧ Teacher.subject_map Teacher.example_assigner !! 7%nat = Some subj
      ∧ (Teacher.course_code pref = "*"
         ∨ Teacher.code subj = Teacher.course_code pref)
      ∧ (if Teacher.is_lab subj then Teacher.can_lab pref = true
         else Teacher.can_theory pref = true).
Proof.
  apply (teachers_get_matching_slots Teacher.example_assigner Workload.example_state
           (Teacher.TimetableSlot 10 1 7 100) 1%nat example_state_run).
  vm_compute. apply list_elem_of_here.
Defined.

(** X22: The bookkeeping a run reports: the workload of a teacher is the number
    of slots the run gave to that teacher, and [assigned_slots] holds the
    ids of the assigned slots and no other. *)
Theorem workload_counts_assignments a st :
  Teacher.assign_teachers a = Some st →
  (∀ t n, Teacher.teacher_workload st !! t = Some n →
          n = length (Workload.assigned_to st t))
  ∧ Teacher.assigned_slots st
    = list_to_set ((Teacher.id ∘ fst) <$> Teacher.assignments_to_save st).
Proof.
  intros Hrun. destruct (assign_teachers_audit _ _ Hrun) as [_ Hl Hi _]. done.
Qed.

Lemma workload_counts_assignments_witness :
  (∀ t n, Teacher.teacher_workload Workload.example_state !! t = Some n →
          n = length (Workload.assigned_to Workload.example_state t))
  ∧ Teacher.assigned_slots Workload.example_state
    = list_to_set ((Teacher.id ∘ fst)
                   <$> Teacher.assignments_to_save Workload.example_state).
Proof.
  apply (workload_counts_assignments Teacher.example_assigner Workload.example_state
           example_state_run).
Defined.

(** X23: A teacher is given at most as many slots as the preferences of that
    teacher ask for in total ([sections_count] counts slots). *)
Theorem quota_respected a st t :
  Teacher.assign_teachers a = Some st →
  (length (Workload.assigned_to st t)
   ≤ Workload.quota (Teacher.preferences a) t)%nat.
Proof.
  intros Hrun.
  rewrite <- (quota_perm _ _ t (sort_preferences_perm (Teacher.preferences a))).
  apply (Workload.audit_quota _ _ _ (assign_teachers_audit _ _ Hrun)).
Qed.

Lemma quota_respected_witness :
  (length (Workload.assigned_to Workload.example_state 1)
   ≤ Workload.quota (Teacher.preferences Teacher.example_assigner) 1)%nat.
Proof.
  apply (quota_respected Teacher.example_assigner Workload.example_state 1%nat
           example_state_run).
Defined.

Lemma key_le_priority p q :
  if Teacher.key_le p q then (Teacher.priority p ≤ Teacher.priority q)%nat
  else (Teacher.priority q ≤ Teacher.priority p)%nat.
Proof.
  unfold Teacher.key_le.
  destruct (Teacher.priority p <? Teacher.priority q)%nat eqn:H1.
  { apply Nat.ltb_lt in H1. lia. }
  apply Nat.ltb_ge in H1.
  destruct (Teacher.priority q <? Teacher.priority p)%nat eqn:H2; [done|].
  apply Nat.ltb_ge in H2.
  destruct (String.compare _ _); [destruct (String.leb _ _)| |]; lia.
Qed.

Lemma insert_sorted_sorted p l :
  StronglySorted (λ x y, (Teacher.priority x ≤ Teacher.priority y)%nat) l →
  StronglySorted (λ x y, (Teacher.priority x ≤ Teacher.priority y)%nat)
                 (Teacher.insert_sorted p l).
Proof.
  induction 1 as [|q l Hl IH Hq]; simpl.
  - repeat constructor.
  - pose proof (key_le_priority p q) as Hpq. destruct (Teacher.key_le p q).
    + constructor; [by constructor|]. constructor; [done|].
      eapply Forall_impl; [exact Hq|]. simpl. intros x Hx. lia.
    + constructor; [done|]. apply Forall_forall. intros x Hx.
      apply insert_sorted_elem in Hx as [->|Hx]; [done|].
      rewrite Forall_forall in Hq. by apply Hq.
Qed.

(** X24: The preferences are processed in the order of their specificity: the
    processing order is a rearrangement of the preferences in which a
    preference never comes after one of a higher priority number (0: one
    course and one kind, 1: one course, 2: one kind, 3: anything). *)
Theorem preferences_processed_by_priority prefs :
  Teacher.sort_preferences_by_priority prefs ≡ₚ prefs
  ∧ StronglySorted (λ p q, (Teacher.priority p ≤ Teacher.priority q)%nat)
      (Teacher.sort_preferences_by_priority prefs).
Proof.
  split; [apply sort_preferences_perm|].
  unfold Teacher.sort_preferences_by_priority.
  induction prefs as [|p rest IH]; simpl; [constructor|].
  by apply insert_sorted_sorted.
Qed.

(** ** Elective CP model: what a returned schedule guarantees *)

Lemma electives_Return solve inp schedule_map allocs :
  Electives.sound solve →
  Electives.schedule_electives solve inp = Return (schedule_map, allocs) →
  ∃ v, Electives.model inp v
       ∧ schedule_map = Electives.schedule_map_of inp v
       ∧ allocs = Electives.new_allocations_of inp v.
Proof.
  intros Hsound. unfold Electives.schedule_electives.
  destruct (Electives.usage_data inp !! "theory"); [|done].
  destruct (Electives.usage_data inp !! "lab"); [|done].
  destruct (solve _) as [v|] eqn:Hsolve; [|done].
  intros [= <- <-]. exists v. split; [|done].
  by apply Hsound, bool_decide_eq_true in Hsolve.
Qed.

Lemma electives_schedule_map_key inp v key slots :
  Electives.schedule_map_of inp v !! key = Some slots →
  ∃ elec, (elec, key.2) ∈ Electives.sections inp ∧ Electives.code elec = key.1.
Proof.
  unfold Electives.schedule_map_of.
  rewrite (lookup_foldl_insert
             (λ ei : Electives.elective * Z, (Electives.code ei.1, ei.2))
             (λ k, Electives.assigned_slots inp v k.1 k.2)).
  case_bool_decide as Hin; [|by rewrite lookup_empty].
  intros _. apply list_elem_of_fmap in Hin as ([elec idx] & -> & Hin).
  by exists elec.
Qed.

Lemma elem_of_assigned_slots inp v e_code idx p :
  p ∈ Electives.assigned_slots inp v e_code idx ↔
    (p.1.1.1 = "theory"
     ∧ (p.1.1.2, p.1.2, p.2) ∈ Electives.theory_combos inp
     ∧ Electives.assign v (e_code, idx, "theory", p.1.1.2, p.1.2, p.2) = true)
    ∨ (p.1.1.1 = "lab"
       ∧ (p.1.1.2, p.1.2, p.2) ∈ Electives.lab_combos inp
       ∧ Electives.assign v (e_code, idx, "lab", p.1.1.2, p.1.2, p.2) = true).
Proof.
  unfold Electives.assigned_slots. rewrite elem_of_app, !list_elem_of_fmap.
  destruct p as [[[kind r] d] ts]. simpl. split.
  - intros [([[r' d'] ts'] & [= -> -> -> ->] & Hc)|([[r' d'] ts'] & [= -> -> -> ->] & Hc)];
      apply list_elem_of_filter in Hc as [Hv Hc]; [left|right]; done.
  - intros [(-> & Hc & Hv)|(-> & Hc & Hv)]; [left|right];
      (exists (r, d, ts); split; [done|]; by apply list_elem_of_filter).
Qed.

(** X25: No room is double-booked among the electives: the slots placed for two
    different elective sections have no (kind, room, day, slot) in common. *)
Theorem elective_rooms_never_double_booked solve inp schedule_map allocs
    k1 k2 slots1 slots2 p :
  Electives.sound solve →
  Electives.schedule_electives solve inp = Return (schedule_map, allocs) →
  schedule_map !! k1 = Some slots1 →
  schedule_map !! k2 = Some slots2 →
  k1 ≠ k2 →
  p ∈ slots1 → p ∉ slots2.
Proof.
  intros Hsound Hrun Hl1 Hl2 Hne Hp1 Hp2.
  destruct (electives_Return _ _ _ _ Hsound Hrun) as (v & Hmodel & -> & _).
  destruct (electives_schedule_map_key _ _ _ _ Hl1) as (e1 & Hs1 & Hc1).
  destruct (electives_schedule_map_key _ _ _ _ Hl2) as (e2 & Hs2 & Hc2).
  apply electives_schedule_map_values in Hl1 as ->.
  apply electives_schedule_map_values in Hl2 as ->.
  destruct Hmodel as (_ & _ & _ & [Hth Hlab]).
  assert (Hpair : (e1, k1.2) ≠ (e2, k2.2)).
  { intros [= He Hi]. apply Hne. destruct k1, k2. simpl in *. congruence. }
  apply elem_of_assigned_slots in Hp1 as [(Hk & Hc & Hv1)|(Hk & Hc & Hv1)];
    apply elem_of_assigned_slots in Hp2 as [(Hk' & _ & Hv2)|(Hk' & _ & Hv2)];
    try congruence.
  - rewrite Forall_forall in Hth. specialize (Hth _ Hc).
    pose proof (sumZ_ge_two
      (λ ei : Electives.elective * Z,
         b2z (Electives.assign v
                (Electives.key_of (Electives.code ei.1) ei.2 "theory"
                   (p.1.1.2, p.1.2, p.2))))
      (Electives.sections inp) (e1, k1.2) (e2, k2.2)
      (λ z, proj1 (b2z_range _)) Hs1 Hs2 Hpair) as Hge.
    simpl in Hge. rewrite Hc1, Hc2, Hv1, Hv2 in Hge. simpl in Hge, Hth. lia.
  - rewrite Forall_forall in Hlab. specialize (Hlab _ Hc).
    pose proof (sumZ_ge_two
      (λ ei : Electives.elective * Z,
         b2z (Electives.assign v
                (Electives.key_of (Electives.code ei.1) ei.2 "lab"
                   (p.1.1.2, p.1.2, p.2))))
      (Electives.sections inp) (e1, k1.2) (e2, k2.2)
      (λ z, proj1 (b2z_range _)) Hs1 Hs2 Hpair) as Hge.
    simpl in Hge. rewrite Hc1, Hc2, Hv1, Hv2 in Hge. simpl in Hge, Hlab. lia.
Qed.

Lemma elective_rooms_never_double_booked_witness :
  ("theory", "R1", "Monday", 0)
    ∉ Electives.assigned_slots Electives.example_input Electives.example_valuation "E2" 0.
Proof.
  apply (elective_rooms_never_double_booked
           (Electives.solve_with Electives.example_valuation)
           Electives.example_input
           (Electives.schedule_map_of Electives.example_input
              Electives.example_valuation)
           (Electives.new_allocations_of Electives.example_input
              Electives.example_valuation)
           ("E1", 0) ("E2", 0)
           (Electives.assigned_slots Electives.example_input
              Electives.example_valuation "E1" 0)
           (Electives.assigned_slots Electives.example_input
              Electives.example_valuation "E2" 0)
           ("theory", "R1", "Monday", 0)
           (electives_solve_with_sound _)).
  - vm_compute. reflexivity.
  - vm_compute. reflexivity.
  - vm_compute. reflexivity.
  - discriminate.
  - vm_compute. apply list_elem_of_here.
Defined.

(** X26: An elective slot is a free slot of the catalog: a room of its kind, a
    day and a slot of the lists, not listed in the usage ledger for that
    room and day. *)
Theorem elective_slots_free solve inp schedule_map allocs key slots kind r d ts :
  Electives.schedule_electives solve inp = Return (schedule_map, allocs) →
  schedule_map !! key = Some slots →
  (kind, r, d, ts) ∈ slots →
  d ∈ Electives.DAYS inp
  ∧ ts ∉ Ledger.slots_at (Electives.usage_data inp) kind r d
  ∧ ((kind = "theory" ∧ r ∈ Electives.theory_rooms inp
      ∧ ts ∈ Electives.THEORY_TIMESLOTS inp)
     ∨ (kind = "lab" ∧ r ∈ Electives.lab_rooms inp
        ∧ ts ∈ Electives.LAB_SLOTS inp)).
Proof.
  unfold Electives.schedule_electives.
  destruct (Electives.usage_data inp !! "theory"); [|done].
  destruct (Electives.usage_data inp !! "lab"); [|done].
  destruct (solve _) as [v|]; [|done].
  intros [= <- <-] Hl Hp.
  apply electives_schedule_map_values in Hl as ->.
  apply elem_of_assigned_slots in Hp as [(Hk & Hc & _)|(Hk & Hc & _)];
    simpl in *; subst kind.
  - unfold Electives.theory_combos in Hc.
    apply list_elem_of_bind in Hc as (r' & Hc & Hr).
    apply list_elem_of_bind in Hc as (d' & Hc & Hd).
    apply list_elem_of_bind in Hc as (ts' & Hc & Hts).
    destruct (friday_slot3 d' ts'); [by apply elem_of_nil in Hc|].
    destruct (Electives.used inp "theory" (r', d', ts')) eqn:Hused;
      [by apply elem_of_nil in Hc|].
    apply list_elem_of_singleton in Hc as [= -> -> ->].
    split; [done|]. split; [|by left].
    unfold Electives.used in Hused. by apply bool_decide_eq_false in Hused.
  - unfold Electives.lab_combos in Hc.
    apply list_elem_of_bind in Hc as (r' & Hc & Hr).
    apply list_elem_of_bind in Hc as (d' & Hc & Hd).
    apply list_elem_of_bind in Hc as (ts' & Hc & Hts).
    destruct (Electives.used inp "lab" (r', d', ts')) eqn:Hused;
      [by apply elem_of_nil in Hc|].
    apply list_elem_of_singleton in Hc as [= -> -> ->].
    split; [done|]. split; [|by right].
    unfold Electives.used in Hused. by apply bool_decide_eq_false in Hused.
Qed.

Lemma elective_slots_free_witness :
  "Monday" ∈ Electives.DAYS Electives.example_input
  ∧ 0 ∉ Ledger.slots_at (Electives.usage_data Electives.example_input)
          "theory" "R1" "Monday"
  ∧ (("theory" = "theory" ∧ "R1" ∈ Electives.theory_rooms Electives.example_input
      ∧ 0 ∈ Electives.THEORY_TIMESLOTS Electives.example_input)
     ∨ ("theory" = "lab" ∧ "R1" ∈ Electives.lab_rooms Electives.example_input
        ∧ 0 ∈ Electives.LAB_SLOTS Electives.example_input)).
Proof.
  apply (elective_slots_free
           (Electives.solve_with Electives.example_valuation)
           Electives.example_input
           (Electives.schedule_map_of Electives.example_input
              Electives.example_valuation)
           (Electives.new_allocations_of Electives.example_input
              Electives.example_valuation)
           ("E1", 0)
           (Electives.assigned_slots Electives.example_input
              Electives.example_valuation "E1" 0)
           "theory" "R1" "Monday" 0).
  - vm_compute. reflexivity.
  - vm_compute. reflexivity.
  - vm_compute. apply list_elem_of_here.
Defined.

(** Summing per key over a duplicate-free list of keys counts each element
    with a listed key once. *)
Lemma sumZ_by_key {A K} `{EqDecision K} (f : A → Z) (g : A → K)
    (keys : list K) (l : list A) :
  NoDup keys →
  sumZ ((λ k, sumZ (f <$> filter (λ x, g x = k) l)) <$> keys)
  = sumZ (f <$> filter (λ x, g x ∈ keys) l).
Proof.
  induction 1 as [|k keys Hk Hnd IH].
  - simpl. induction l as [|x l IHl]; [done|].
    rewrite filter_cons, decide_False; [done|]. apply not_elem_of_nil.
  - rewrite fmap_cons, sumZ_cons, IH. clear IH.
    induction l as [|x l IHl]; [done|].
    rewrite !filter_cons.
    destruct (decide (g x = k)) as [Hx|Hx];
      destruct (decide (g x ∈ keys)) as [Hin|Hnin];
      destruct (decide (g x ∈ k :: keys)) as [Hin'|Hnin'];
      rewrite ?fmap_cons, ?sumZ_cons; try lia; exfalso.
    + apply Hk. by rewrite <- Hx.
    + apply Hnin'. rewrite Hx. by left.
    + apply Hnin'. rewrite Hx. by left.
    + apply Hnin'. by right.
    + apply elem_of_cons in Hin' as [?|?]; done.
Qed.

Lemma filter_all {A} (P : A → Prop) `{∀ x, Decision (P x)} (l : list A) :
  (∀ x, x ∈ l → P x) → filter P l = l.
Proof.
  induction l as [|x l IH]; intros HP; [done|].
  rewrite filter_cons, decide_True by (apply HP; by left).
  f_equal. apply IH. intros y Hy. apply HP. by right.
Qed.

Lemma theory_combos_day inp c :
  c ∈ Electives.theory_combos inp → c.1.2 ∈ Electives.DAYS inp.
Proof.
  unfold Electives.theory_combos. intros Hc.
  apply list_elem_of_bind in Hc as (r' & Hc & Hr).
  apply list_elem_of_bind in Hc as (d' & Hc & Hd).
  apply list_elem_of_bind in Hc as (ts' & Hc & Hts).
  destruct (friday_slot3 d' ts'); [by apply elem_of_nil in Hc|].
  destruct (Electives.used inp "theory" (r', d', ts'));
    [by apply elem_of_nil in Hc|].
  by apply list_elem_of_singleton in Hc as ->.
Qed.

(** X27: The theory slots of an elective section lie on pairwise distinct days,
    no two of them adjacent in the day order [DAYS]. *)
Theorem elective_theory_days_apart solve inp schedule_map allocs key slots
    r1 d1 t1 r2 d2 t2 :
  Electives.sound solve →
  Electives.schedule_electives solve inp = Return (schedule_map, allocs) →
  NoDup (Electives.DAYS inp) →
  schedule_map !! key = Some slots →
  ("theory", r1, d1, t1) ∈ slots →
  ("theory", r2, d2, t2) ∈ slots →
  (r1, d1, t1) ≠ (r2, d2, t2) →
  d1 ≠ d2 ∧ ¬ Solver.adjacent_days (Electives.DAYS inp) d1 d2.
Proof.
  intros Hsound Hrun Hdays Hl Hp1 Hp2 Hne.
  destruct (electives_Return _ _ _ _ Hsound Hrun) as (v & Hmodel & -> & _).
  destruct (electives_schedule_map_key _ _ _ _ Hl) as (elec & Hsec & Hcode).
  apply electives_schedule_map_values in Hl as ->.
  destruct Hmodel as (_ & Hday & Htimes & _).
  rewrite Forall_forall in Hday. specialize (Hday _ Hsec).
  rewrite Forall_forall in Htimes. specialize (Htimes _ Hsec).
  unfold Electives.day_constraints, Electives.times_constraints in Hday, Htimes.
  cbn [fst snd] in Hday, Htimes. cbn zeta in Hday, Htimes.
  rewrite Hcode in Hday, Htimes.
  destruct Hday as (Hsum & Hlink & Hadj). destruct Htimes as [Hth _].
  apply elem_of_assigned_slots in Hp1 as [(_ & Hc1 & Hv1)|(? & _)]; [|done].
  apply elem_of_assigned_slots in Hp2 as [(_ & Hc2 & Hv2)|(? & _)]; [|done].
  simpl in *.
  set (x := λ c : Electives.combo,
         b2z (Electives.assign v (Electives.key_of key.1 key.2 "theory" c))) in *.
  set (da := λ d, b2z (Electives.day_assigned v (key.1, key.2, d))) in *.
  set (ch := b2z (Electives.choose_theory v (key.1, key.2))) in *.
  assert (Hx1 : x (r1, d1, t1) = 1) by (unfold x; simpl; by rewrite Hv1).
  assert (Hx2 : x (r2, d2, t2) = 1) by (unfold x; simpl; by rewrite Hv2).
  assert (Hxnn : ∀ c, 0 ≤ x c) by (intros c; apply b2z_range).
  (* the per-day totals are the day variables *)
  assert (Htot : sumZ ((λ d, sumZ (x <$> filter (λ c : Electives.combo, c.1.2 = d)
                                         (Electives.theory_combos inp)))
                       <$> Electives.DAYS inp)
                 = sumZ (da <$> Electives.DAYS inp)).
  { rewrite (sumZ_by_key x (λ c : Electives.combo, c.1.2)) by done.
    rewrite filter_all by (intros c; apply theory_combos_day).
    by rewrite Hth, <- Hsum. }
  assert (Heq : Forall (λ d, da d = sumZ (x <$> filter (λ c : Electives.combo, c.1.2 = d)
                                               (Electives.theory_combos inp)))
                       (Electives.DAYS inp)).
  { apply sumZ_pointwise_eq; [|done].
    eapply Forall_impl; [exact Hlink|]. simpl. intros d [Hle _]. exact Hle. }
  rewrite Forall_forall in Heq.
  pose proof (theory_combos_day _ _ Hc1) as Hd1. simpl in Hd1.
  pose proof (theory_combos_day _ _ Hc2) as Hd2. simpl in Hd2.
  assert (Hda : ∀ r d t, (r, d, t) ∈ Electives.theory_combos inp →
                         x (r, d, t) = 1 → d ∈ Electives.DAYS inp → da d = 1).
  { intros r d t Hc Hx Hd. rewrite (Heq d Hd).
    pose proof (sumZ_ge_elem x
                  (filter (λ c : Electives.combo, c.1.2 = d)
                          (Electives.theory_combos inp))
                  (r, d, t) Hxnn) as Hge.
    rewrite <- (Heq d Hd) in *.
    pose proof (b2z_range (Electives.day_assigned v (key.1, key.2, d))).
    fold (da d) in H. rewrite Hx in Hge.
    assert (1 ≤ da d); [|lia]. apply Hge. by apply list_elem_of_filter. }
  pose proof (Hda _ _ _ Hc1 Hx1 Hd1) as Hda1.
  pose proof (Hda _ _ _ Hc2 Hx2 Hd2) as Hda2.
  assert (Hch : ch = 1).
  { pose proof (sumZ_ge_elem x (Electives.theory_combos inp) _ Hxnn Hc1) as Hge.
    rewrite Hx1, Hth in Hge.
    unfold ch in *.
    destruct (Electives.choose_theory v (key.1, key.2)); simpl in *; [done|lia]. }
  split.
  - intros <-.
    pose proof (sumZ_ge_two x
                  (filter (λ c : Electives.combo, c.1.2 = d1)
                          (Electives.theory_combos inp))
                  (r1, d1, t1) (r2, d1, t2) Hxnn) as Hge.
    rewrite <- (Heq d1 Hd1), Hx1, Hx2, Hda1 in Hge.
    assert (1 + 1 ≤ 1); [|lia].
    apply Hge; [by apply list_elem_of_filter|by apply list_elem_of_filter|done].
  - rewrite Forall_forall in Hadj.
    intros [Hin|Hin]; specialize (Hadj _ Hin); simpl in Hadj;
      fold (da d1) (da d2) ch in Hadj; lia.
Qed.

Lemma elective_theory_days_apart_witness :
  "Monday" ≠ "Wednesday"
  ∧ ¬ Solver.adjacent_days (Electives.DAYS Electives.example_input)
        "Monday" "Wednesday".
Proof.
  apply (elective_theory_days_apart
           (Electives.solve_with Electives.example_valuation)
           Electives.example_input
           (Electives.schedule_map_of Electives.example_input
              Electives.example_valuation)
           (Electives.new_allocations_of Electives.example_input
              Electives.example_valuation)
           ("E1", 0)
           (Electives.assigned_slots Electives.example_input
              Electives.example_valuation "E1" 0)
           "R1" "Monday" 0 "R1" "Wednesday" 3
           (electives_solve_with_sound _)).
  - vm_compute. reflexivity.
  - apply (bool_decide_unpack _); vm_compute; exact I.
  - vm_compute. reflexivity.
  - vm_compute. apply list_elem_of_here.
  - vm_compute. apply list_elem_of_further, list_elem_of_here.
  - discriminate.
Defined.

(** ** Hierarchical scheduling *)

Lemma hierarchical_example_run :
  Hierarchical.schedule_hierarchical
    (Solver.solve_with Hierarchical.example_valuation) "ascending"
    Hierarchical.example_input
  = Return Hierarchical.example_schedule.
Proof. vm_compute. reflexivity. Qed.

Lemma merge_usage_data_slots u allocs merged kind r d s :
  Ledger.merge_usage_data u allocs = Some merged →
  s ∈ Ledger.slots_at merged kind r d ↔
    s ∈ Ledger.slots_at u kind r d ∨ Ledger.allocated allocs kind r d s.
Proof.
  unfold Ledger.merge_usage_data. cbn zeta. intros Hm.
  rewrite (slots_at_merge_loop _ _ _ kind r d s Hm).
  by rewrite !slots_at_ensure_kind.
Qed.

Lemma elem_of_sorted_semesters semester_order inp s :
  s ∈ Hierarchical.sorted_semesters semester_order inp ↔
    s ∈ Solver.selected_semesters inp.
Proof.
  unfold Hierarchical.sorted_semesters.
  case_bool_decide; by rewrite merge_sort_Permutation.
Qed.

(** The catalog conditions carry over to the call for one semester. *)
Lemma with_semester_well_formed inp s u ssm :
  Hierarchical.catalog_ok inp →
  s ∈ Solver.selected_semesters inp →
  Solver.build_sections (Hierarchical.with_semester inp s u) [s] = inr ssm →
  Solver.well_formed (Hierarchical.with_semester inp s u) ssm.
Proof.
  intros Hok Hs Hb. destruct Hok.
  split; try done.
  - unfold Solver.all_sections. simpl. rewrite app_nil_r.
    unfold Solver.sections_of.
    rewrite (build_sections_lookup _ _ _ s Hb).
    rewrite bool_decide_eq_true_2 by (by left). simpl.
    destruct (Solver.section_sizes inp !! s) as [n|]; [|constructor]. simpl.
    unfold Utils.build_sections_for_semester.
    destruct (Utils.ceil_div n (Solver.section_size inp)); [constructor|]. simpl.
    apply (NoDup_fmap_2_strong (Utils.section_name s (Solver.program_code inp)));
      [|apply NoDup_range].
    intros i j _ _. apply section_name_inj.
  - intros sem Hsem. simpl in Hsem. apply list_elem_of_singleton in Hsem as ->.
    by apply wf_codes.
Qed.

(** A theory or lab allocation sits in a room of its kind. *)
Lemma normal_allocation_kind_room inp ssm v a :
  a ∈ Solver.new_allocations_of (Solver.placements inp ssm v) →
  rtype a ≠ "cohort" →
  (rtype a = "theory" ∧ room a ∈ Solver.theory_rooms inp)
  ∨ (rtype a = "lab" ∧ room a ∈ Solver.combined_labs inp).
Proof.
  intros Ha Hkind.
  apply normal_allocation_origin in Ha as (it & k & Hit & Hk & HA & _ & ->); [|done].
  pose proof (iter_keys_room _ _ _ Hk) as [_ Hroom].
  unfold Solver.kind_of. simpl.
  destruct (Solver.is_lab (Solver.it_course it)).
  - right. by destruct Hroom.
  - left. by destruct Hroom as (_ & _ & ?).
Qed.

Section hierarchical.
Variable solve : (Solver.valuation → bool) → option Solver.valuation.
Variable inp : Solver.input.
Hypothesis Hsound : Solver.sound solve.
Hypothesis Hok : Hierarchical.catalog_ok inp.

Lemma invariant_initial :
  Hierarchical.invariant inp Hierarchical.empty_schedule (Solver.usage_data inp).
Proof.
  split; simpl.
  - constructor.
  - intros a Ha. by apply elem_of_nil in Ha.
  - intros a Ha. by apply elem_of_nil in Ha.
  - done.
Qed.

(** One semester keeps the invariant. *)
Lemma invariant_step s combined u result merged :
  s ∈ Solver.selected_semesters inp →
  Hierarchical.invariant inp combined u →
  Solver.schedule_timetable solve (Hierarchical.with_semester inp s u)
    = Return result →
  Ledger.merge_usage_data u (Solver.new_allocations result) = Some merged →
  Hierarchical.invariant inp (Hierarchical.combine combined result) merged.
Proof.
  intros Hs [Hcells Hallocs Hentries Hledger] Hrun Hmerge.
  pose proof (with_semester_well_formed inp s u _ Hok Hs
                (returned_sections _ _ _ Hrun)) as Hwf.
  destruct (schedule_timetable_Return _ _ _ Hsound Hrun) as (v & Hmodel & Hsm & Hal).
  set (inp' := Hierarchical.with_semester inp s u) in *.
  set (ssm := Solver.semester_sections_map result) in *.
  assert (Hnew : ∀ a, a ∈ Solver.new_allocations result → rtype a ≠ "cohort" →
            Hierarchical.kind_room inp a
            ∧ slot a ∉ Ledger.slots_at u (rtype a) (room a) (day a)).
  { intros a Ha Hkind. rewrite Hal in Ha. split.
    - by apply (normal_allocation_kind_room inp' ssm v).
    - apply normal_allocation_origin in Ha as (it & k & Hit & Hk & HA & _ & ->);
        [|done].
      simpl. by apply (assignment_key_free inp' ssm Hwf it k). }
  (* a class of this semester is in no cell of an earlier one *)
  assert (Hapart : ∀ a1 a2,
            a1 ∈ Solver.new_allocations combined → rtype a1 ≠ "cohort" →
            a2 ∈ Solver.new_allocations result → rtype a2 ≠ "cohort" →
            Hierarchical.cell a1 ≠ Hierarchical.cell a2).
  { intros a1 a2 Ha1 Hk1 Ha2 Hk2 Heq.
    destruct (Hallocs a1 Ha1 Hk1) as (Hkr1 & Hin1 & _).
    destruct (Hnew a2 Ha2 Hk2) as (Hkr2 & Hnin2).
    injection Heq as Hd Hsl Hr.
    assert (Hrt : rtype a1 = rtype a2).
    { destruct Hkr1 as [[-> Hr1]|[-> Hr1]], Hkr2 as [[-> Hr2]|[-> Hr2]];
        try done; exfalso; rewrite Hr in *;
        by apply (Solver.wf_room_kinds _ _ Hok (room a2)). }
    apply Hnin2. by rewrite <- Hrt, <- Hr, <- Hd, <- Hsl. }
  split; simpl.
  - rewrite filter_app, fmap_app. apply NoDup_app. split; [done|]. split.
    + intros c Hold Hnw.
      apply list_elem_of_fmap in Hold as (a1 & -> & Ha1).
      apply list_elem_of_filter in Ha1 as [Hk1 Ha1].
      apply list_elem_of_fmap in Hnw as (a2 & Heq & Ha2).
      apply list_elem_of_filter in Ha2 as [Hk2 Ha2].
      by apply (Hapart a1 a2).
    + rewrite Hal, non_cohort_allocations. unfold Solver.new_allocations_of.
      rewrite <- list_fmap_compose.
      by apply (NoDup_normal_placement_keys inp' ssm v).
  - intros a Ha Hkind. apply elem_of_app in Ha as [Ha|Ha].
    + destruct (Hallocs a Ha Hkind) as (Hkr & Hin & Hnin).
      split; [done|]. split; [|done].
      apply (merge_usage_data_slots _ _ _ _ _ _ _ Hmerge). by left.
    + destruct (Hnew a Ha Hkind) as (Hkr & Hnin).
      split; [done|]. split.
      * apply (merge_usage_data_slots _ _ _ _ _ _ _ Hmerge). right.
        by exists a.
      * intros Hin. by apply Hnin, Hledger.
  - intros a Ha Hkind. apply elem_of_app in Ha as [Ha|Ha].
    + (* an earlier class: the update leaves its entry alone *)
      destruct (Hentries a Ha Hkind) as (sec & c & Hl & Hlab).
      exists sec, c. split; [|done].
      apply lookup_union_Some_raw. right. split; [|done].
      destruct (Solver.schedule_map result !! Hierarchical.cell a)
        as [val|] eqn:Hres; [exfalso|done].
      rewrite Hsm in Hres.
      apply schedule_map_lookup_Some in Hres as (p & Hp & Hkey & _).
      unfold Solver.placements in Hp. apply elem_of_app in Hp as [Hp|Hp].
      * apply (Hapart a
                 (Allocation (Solver.p_kind p) (Solver.p_room p) (Solver.p_day p)
                    (Solver.p_slot p)
                    (Solver.p_sec p +:+ "-" +:+ Solver.p_code p))); [done..| | |].
        -- rewrite Hal. apply list_elem_of_fmap. exists p. split; [done|].
           unfold Solver.placements. apply elem_of_app. by left.
        -- simpl. unfold Solver.normal_placements in Hp.
           apply list_elem_of_bind in Hp as (it & Hp & _).
           apply list_elem_of_fmap in Hp as (k & -> & _). simpl.
           unfold Solver.kind_of. by destruct (Solver.is_lab _).
        -- by rewrite <- Hkey.
      * apply (cohort_placement_room inp' ssm) in Hp.
        apply (Solver.wf_cohort_rooms _ _ Hok) in Hp as [Hnth Hnlab].
        injection Hkey as _ _ Hr. rewrite Hr in *.
        destruct (Hallocs a Ha Hkind) as ([[_ Hroom]|[_ Hroom]] & _); done.
    + rewrite Hal in Ha.
      apply normal_allocation_origin in Ha as (it & k & Hit & Hk & HA & Hv & ->);
        [|done].
      exists (Solver.it_sec it), (Solver.code (Solver.it_course it)).
      split; [|done]. apply lookup_union_Some_raw. left. rewrite Hsm.
      apply (chosen_key_entry inp' ssm v Hwf Hmodel it k Hit).
      by apply list_elem_of_filter.
  - intros kind r d sl Hin.
    apply (merge_usage_data_slots _ _ _ _ _ _ _ Hmerge). left. by apply Hledger.
Qed.

Lemma loop_invariant semesters : ∀ combined u sched,
  (∀ s, s ∈ semesters → s ∈ Solver.selected_semesters inp) →
  Hierarchical.invariant inp combined u →
  Hierarchical.loop solve inp semesters combined u = Return sched →
  ∃ u', Hierarchical.invariant inp sched u'.
Proof.
  induction semesters as [|s rest IH]; intros combined u sched Hsel Hinv; simpl.
  - intros [= <-]. by exists u.
  - destruct (Solver.schedule_timetable solve _) as [e| |result] eqn:Hrun;
      [done|done|].
    destruct (Ledger.merge_usage_data u _) as [merged|] eqn:Hmerge; [|done].
    intros Hloop.
    apply (IH (Hierarchical.combine combined result) merged sched); [| |done].
    + intros s' Hs'. apply Hsel. by right.
    + apply (invariant_step s _ u); [apply Hsel; by left|done..].
Qed.

End hierarchical.


Lemma hierarchical_example_catalog_ok :
  Hierarchical.catalog_ok Hierarchical.example_input.
Proof.
  split.
  - apply (bool_decide_unpack _); vm_compute; exact I.
  - apply (bool_decide_unpack _); vm_compute; exact I.
  - apply (bool_decide_unpack _); vm_compute; exact I.
  - apply (bool_decide_unpack _); vm_compute; exact I.
  - apply (bool_decide_unpack _); vm_compute; exact I.
  - intros c rooms Hc. simpl in Hc. by rewrite lookup_empty in Hc.
  - intros r Hr. simpl in Hr. apply list_elem_of_singleton in Hr as ->.
    apply (bool_decide_unpack _); vm_compute; exact I.
  - intros r Hr.
    assert (Hnil : Solver.cohort_rooms Hierarchical.example_input = [])
      by (vm_compute; reflexivity).
    rewrite Hnil in Hr. by apply elem_of_nil in Hr.
  - apply (bool_decide_unpack _); vm_compute; exact I.
  - intros sem Hsem. simpl in Hsem.
    apply elem_of_cons in Hsem as [->|Hsem];
      [|apply list_elem_of_singleton in Hsem as ->];
      apply (bool_decide_unpack _); vm_compute; exact I.
Qed.



